(* ===== verification/_CoqProject ===== *)
-Q . S2P
Prelude.v
Input.v
Topology.v
Distribution.v
Subgroup.v
Update.v
Ranking.v
Round.v
Consensus.v
Frame.v
Pass.v
Setup.v
