(* ===== verification/Prelude.v ===== *)
(** * A verification development of the probabilistic-convergence simulation

    The repository (src/probabilistic_convergence.py) runs a collective
    decision algorithm on a static honeycomb network.  Every node holds a
    probability distribution over [deci_num] decisions; every iteration of
    the simulation loop (one "round") computes

    - the dominant decision of every node ([np.argmax], lines 211-212),
    - the subgroups: maximal connected blocks of nodes that share their
      dominant decision, found by a pool/frontier search (lines 214-254),
    - the subgroup size of every node, with a consistency check that ends
      the program when a node was not assigned (lines 256-266),
    - the next distribution of every node (lines 268-345): an equally
      weighted average with a rank-dependent "linear multiplier" that
      sharpens it when the node agrees with all its neighbours, and an
      average weighted by subgroup sizes otherwise.

    The network itself is built once from honeycomb coordinates (lines
    81-100) read from a file named on the command line (lines 40-79).
    After every round the pygame window is redrawn, matplotlib receives
    one bar height per node, and the loop waits for the rest of its
    500 ms period (lines 347-387).

    ** Layout of the development

    - [Prelude] (this file): the Python exceptions the modelled code can
      raise, the result monad [res] with its notation [let! x := m in k]
      (scope [res_scope]), the Python list primitives with their error
      behaviour ([py_get] raises IndexError, [py_remove] removes the first
      occurrence or raises ValueError, [py_set], [py_max] raising
      ValueError on an empty list), their lemmas and the hint database
      [pyops].
    - [Input]: the command line and the network file (lines 40-79):
      Python 2's [int()] on strings ([py_int]), [str.split], the slice
      [[0:-1]], [readline] and the read loop (with fuel), the option loop
      and its exits.  The theorems: a file written as ["x y\n"] lines
      reads back as its positions (a round trip through stdpp's [pretty],
      which prints integers as Python's [str] does), the size is read
      back from the file name, the read loop always terminates, a last
      line without its newline loses a digit, and [-d] takes any integer.
    - [Topology]: the honeycomb neighbour test, the connection matrix and
      the connection lists (lines 82-100); the class [WfTopology] is the
      interface the other components rely on (symmetric, irreflexive,
      duplicate-free, in-range adjacency), and the construction is proved
      to provide it.
    - [Distribution]: distributions as [list Q]; numpy's element-wise
      operations, [np.sum], normalisation, the L1 difference and
      [np.argmax] (first maximal index), with a setoid [veq] and [Proper]
      instances.
    - [Subgroup]: the subgroup search of lines 214-254 (pool [n_pool],
      frontier [p_members], scan index [p_index]) and the subgroup sizes
      with their check (lines 256-266).  The theorems show that with a
      well-formed topology the search never raises, terminates within the
      fuel given, and returns exactly the connected components of the
      label-restricted graph (a refinement of the abstract specification
      [lreach]); the size check then passes and [subsizes] holds the
      component sizes.
    - [Update]: the update loop of lines 268-345.  The snapshot
      [deci_dist_t] is the array before the loop; every write of the loop
      goes to the live array [deci_dist] through [py_set], row [i] several
      times, as the code does.  [all_converged] is the test of lines
      271-276; [converged_update] the equal average, the pairwise L1
      differences ([dist_diffs], read from the live array) and the
      sharpening [sharpen] (bubble sort [bubble_sort] of lines 314-326,
      multiplier [apply_multiplier] of lines 328-330); [divergent_update]
      the average weighted by subgroup sizes.  The theorems give each
      branch against a reference sum ([sum_rows], [sum_weights]), prove
      the bubble sort correct (a permutation along which the row
      ascends), show that sharpening raises a strictly dominant decision
      (spec 8.4) but lowers the dominant decision of a tie, and that the
      loop keeps every row a distribution when every node has a neighbour,
      while an isolated node makes [max([])] raise.
    - [Ranking]: the bubble sort of [sharpen] is a stable sort: its
      permutation equals stdpp's [merge_sort] of the decisions under
      [stable_le] (probability, then index), an equivalence with a
      reference sort proved with [StronglySorted_unique].
    - [Round]: one iteration of the simulation loop, [round] (dominant
      decisions, subgroups, sizes, update loop), [k] rounds
      ([run_rounds]), the initialisation of lines 147-155 ([init_state]),
      and the event loop of lines 188-206 on [loop_state] (pause and exit
      flags, iteration count): [run_loop] runs it on the events of
      successive passes, and [loop_step] is the same loop as a step
      relation.  The theorems: any number of rounds keep a well-formed
      state (spec 8.1, 8.2) on a well-formed topology without isolated
      nodes and with at least two decisions; one decision makes the first
      round raise ZeroDivisionError; the scenario of spec 8.7 is
      computed.  On given events: after a space key the loop runs one
      round per pass, its state after [k + 1] passes being that of
      [run_rounds (k + 1)]; a space key while running pauses it and the
      passes without events that follow change nothing; and a close, Esc
      or Q ends it with the pass that receives it, whose round still runs
      unless paused.
    - [Consensus]: agreement is absorbing.  When every row has its strict
      maximum at the same decision [d] ([strict_max], [agreement]), every
      node is converged, every average still peaks at [d] and the
      sharpening gives that peak the largest multiplier, so any number of
      rounds keep the agreement and all dominant decisions stay [d].  The
      peak predicates respect the setoid [veq] ([Proper] instances).
    - [Frame]: what a pass shows (lines 132-141, 347-385): the pygame
      drawing as the sequence of drawing calls [draw_cmd], the bar heights
      [dz] of line 373 ([observer_dz]) and the delay of the frame pacing.
      The theorems: the wide lines of a frame join exactly the neighbours
      of equal dominant decision (the subgroup search composed with the
      drawing), and the bar of a node shows its row at the dominant
      decision of before the update.  It also holds the two steps of the display geometry that
      can raise: [np.amin] over no position (lines 106-108,
      [world_bounds]) and [nodes_plt[i]] out of range (lines 127-129,
      [nodes_disp]).
    - [Pass]: a whole pass of the loop (lines 188-388), [pass]: the
      events and the pause test, the round, the redraw, the bars given to
      [ax.bar3d], the delay of the pacing, the reset of [time_last] and
      the printed ["iteration k"]; [run_passes] runs it while [sim_exit]
      is false, on the events and clock readings of each pass.  The
      theorems: the passes refine the loop of [Round] (projected on the
      loop state a run of passes is a run of [loop_step], and the output
      never raises and shows probabilities); after a space key the
      iteration lines count up from 0; with a clock that honours
      [pygame.time.delay], [time_last] advances by at least the period.
    - [Setup]: the preparation of lines 40-182 in the order of the code,
      [program_setup]: the options, [open] of the network file (IOError
      when absent), the read loop, the connection matrix and lists, the
      display geometry, the first drawing, [np.random.rand] of line 146
      ([np_random_rand], the values coming from a generator [rand]), the
      first state and the arguments of the bar graph; and [program], the
      whole script: the preparation, then the loop of [Pass].  The
      theorems: the first state is well formed and holds the random rows
      divided by their sums; [-d 0] or a negative [-d] raises ValueError;
      an empty network file raises; and the whole program composes: from
      a command line naming a network file in the ["x y\n"] format, the
      preparation succeeds with a well-formed topology and state, and
      when no node is isolated the loop runs on any events and clock
      readings without raising, its states those of [loop_step] (the
      theorems of [Input], [Topology], [Round], [Frame] and [Pass]
      chained through their lemmas).

    The components interact through interfaces: [WfTopology] (a class)
    is what [Topology] provides and what [Subgroup] and [Round] assume;
    [update_pre] is what the update loop needs of its inputs and what
    [Round.round_prepare] establishes from the subgroup theorems;
    [NpPower]/[NpPowerLaws] state what the update needs of [np.power].

    Findings the theorems record: an isolated node makes line 301 raise
    ValueError (spec 8.6 says it keeps its row); with one decision line
    329 divides by zero; on a tie the sharpening lowers the dominant
    decision's probability (spec 8.4 claims an increase), which already
    happens in the scenario of spec 8.7; the differences of line 300 read
    the live array, not the snapshot the spec describes; a file whose
    last line has no newline loses a digit of its last position (line
    76); [-d] accepts counts that are not positive (line 70); the bar of
    line 373 is not [distribution[dominant]] of the updated row; a quit
    event does not cancel the round of its pass (line 206); [-d 0] raises
    at [np.argmax] during the initialisation (line 152); the arrays of
    the bar graph have [len(nodes)] or [net_size] entries, which differ
    when the file lists more positions than [net_size] (lines 178-182).

    ** Numbers, fuel and what is not modelled

    Python floats are modelled by exact rationals [Q]: rounding is not
    modelled, so "sums to 1" is exact here.  The constants
    [dist_diff_thres] and [dist_diff_power] are the values of lines 162
    and 172; [deci_num] and the network are parameters.  [np.power] (only ever called
    as [ratio ** dist_diff_power]) is an argument of the model through the
    class [NpPower] of [Update], with the laws the proofs use.  A numpy
    division by a zero sum (which yields nan in numpy) stops the model
    with [NumpyNaN]; the theorems show it does not happen on well-formed
    states.  The Python [while] loops of the subgroup search are run with
    fuel; the error [OutOfFuel] belongs to the model only, and the
    termination theorems show that the fuel chosen is enough: [N] passes
    of the outer loop (each removes a node from the pool) and
    [(N + 1) * (N + 1)] passes of the inner loop per subgroup (the measure
    [(N + 1) * |pool| + (|p_members| - p_index)] decreases at each pass).
    The read loop of the network file gets [len(content) + 1] passes:
    every pass consumes a line of at least one character, and
    [read_nodes_total] shows the fuel never runs out.  All other loops are
    [for] loops over finite lists.  Strings are stdpp's [string]; the
    Python 2 [int()] of the model accepts what CPython 2.7's
    [PyInt_FromString] accepts in base 10 (blanks around, a sign, blanks
    after the sign, decimal digits).  [np.argmax(deci_dist, axis=1)] is
    modelled row by row ([Round.dominant]): with no node and no decision
    numpy raises on the empty axis where the model returns no decision;
    no theorem is about that case.

    Not modelled: [getopt]'s own parsing, [os.path.isfile] and the file
    contents, which are inputs of [Input] and [Setup]; the display positions of the
    nodes (lines 104-129: [honeycomb_to_cartesian] and [world_to_display]
    are defined outside src/), the window set-up and the matplotlib calls
    (lines 102-103, 119-123, 174-185, 374-376), which draw pixels and are
    assumed to succeed: [pygame.image.load] of the icon file (line 120),
    [set_mode], [plt.figure] and the window titles raise only on a missing
    file or display, which the model does not represent (the errors of
    the display geometry are modelled, the positions are not); the clock [pygame.time.get_ticks], an input of the pacing; the
    values of numpy's random generator (an argument [rand] of
    [np_random_rand]; the shape and its ValueError are modelled); and
    src/line_formation.py, which is not valid Python
    (line 106 continues a condition without brackets, the [if] of line
    123 has no body), so none of it can run. *)

From Stdlib Require Export QArith Qabs Lqa.
From stdpp Require Export base list.

(** ** Python exceptions and the result monad *)

Inductive exn :=
| ValueError          (** [list.remove] of an absent value, [max([])],
                          [np.argmax] of an empty row *)
| IndexError          (** indexing a list or array out of range *)
| ZeroDivisionError   (** Python float division by zero *)
| SysExit             (** [print ...; sys.exit()]: the size check, a bad
                          option, an absent network file *)
| NumpyNaN            (** numpy division by a zero sum *)
| IOError             (** [open] of a file that does not exist *)
| OutOfFuel.          (** the model's fuel ran out (not a Python error) *)

#[export] Instance exn_eq_dec : EqDecision exn.
Proof. solve_decision. Defined.

Inductive res (A : Type) : Type :=
| Ok (a : A)
| Err (e : exn).
Arguments Ok {A} a.
Arguments Err {A} e.

Definition res_bind {A B} (m : res A) (f : A -> res B) : res B :=
  match m with
  | Ok a => f a
  | Err e => Err e
  end.

Definition res_map {A B} (f : A -> B) (m : res A) : res B :=
  match m with
  | Ok a => Ok (f a)
  | Err e => Err e
  end.

Declare Scope res_scope.
Delimit Scope res_scope with res.
Notation "'let!' x ':=' m 'in' k" := (res_bind m (fun x => k))
  (at level 10, x name, m at level 200, k at level 200) : res_scope.
Notation "'let!' ' p ':=' m 'in' k" := (res_bind m (fun x => match x with p => k end))
  (at level 10, p pattern, m at level 200, k at level 200) : res_scope.
Open Scope res_scope.

(** An [if] that raises: [raise_unless e b] is [Ok tt] when [b] holds. *)
Definition raise_unless (e : exn) (b : bool) : res unit :=
  if b then Ok tt else Err e.

(** ** Python [for] loops whose body may raise *)

Fixpoint res_foldl {A B} (f : A -> B -> res A) (a : A) (l : list B) : res A :=
  match l with
  | [] => Ok a
  | x :: l' => let! a' := f a x in res_foldl f a' l'
  end.

(** A row-wise operation over a list of rows that may raise: the first
    failing row decides the error. *)
Fixpoint res_mapM {A B} (f : A -> res B) (l : list A) : res (list B) :=
  match l with
  | [] => Ok []
  | x :: l' => let! y := f x in let! ys := res_mapM f l' in Ok (y :: ys)
  end.

(** ** Python list primitives *)

Section PyList.
Context {A : Type}.

(** [l[i]]: IndexError out of range. *)
Definition py_get (l : list A) (i : nat) : res A :=
  match l !! i with
  | Some a => Ok a
  | None => Err IndexError
  end.

(** [l[i] = x]: IndexError out of range. *)
Definition py_set (l : list A) (i : nat) (x : A) : res (list A) :=
  if decide (i < length l) then Ok (<[i:=x]> l) else Err IndexError.

(** [temp = l[k]; l[k] = l[k+1]; l[k+1] = temp]: the exchange of two
    adjacent entries, IndexError when [k+1] is out of range. *)
Definition py_swap (k : nat) (l : list A) : res (list A) :=
  let! temp := py_get l k in
  let! b := py_get l (S k) in
  let! l1 := py_set l k b in
  py_set l1 (S k) temp.

Context `{EqDecision A}.

(** [l.remove(x)]: removes the first occurrence, ValueError when [x]
    is absent. *)
Fixpoint py_remove (x : A) (l : list A) : res (list A) :=
  match l with
  | [] => Err ValueError
  | y :: l' => if decide (y = x) then Ok l' else res_map (cons y) (py_remove x l')
  end.

End PyList.

(** ** Lemmas on the monad and the primitives *)

Lemma res_bind_Ok {A B} (m : res A) (f : A -> res B) b :
  res_bind m f = Ok b <-> exists a, m = Ok a /\ f a = Ok b.
Proof.
  destruct m as [a|e]; simpl; split.
  - eauto.
  - by intros (? & [= ->] & ?).
  - discriminate.
  - by intros (? & ? & ?).
Qed.

Lemma res_bind_Err {A B} (m : res A) (f : A -> res B) e :
  m = Err e -> res_bind m f = Err e.
Proof. by intros ->. Qed.

Lemma res_map_Ok {A B} (f : A -> B) m b :
  res_map f m = Ok b <-> exists a, m = Ok a /\ b = f a.
Proof.
  destruct m as [a|e]; simpl; split.
  - intros [= <-]; eauto.
  - by intros (? & [= ->] & ->).
  - discriminate.
  - by intros (? & ? & ?).
Qed.

(** [res_inv] splits every hypothesis [res_bind m f = Ok b] into its
    two halves. *)
Ltac res_inv :=
  repeat match goal with
  | H : res_bind _ _ = Ok _ |- _ =>
      apply res_bind_Ok in H as (? & ? & H)
  | H : res_map _ _ = Ok _ |- _ =>
      apply res_map_Ok in H as (? & ? & ->)
  | H : Ok _ = Ok _ |- _ => injection H as H; subst
  | H : Err _ = Ok _ |- _ => discriminate H
  end.

Lemma res_foldl_app {A B} (f : A -> B -> res A) a l1 l2 :
  res_foldl f a (l1 ++ l2) = let! a' := res_foldl f a l1 in res_foldl f a' l2.
Proof.
  revert a. induction l1 as [|x l1 IH]; intros a; simpl; [done|].
  destruct (f a x); simpl; [apply IH|done].
Qed.

(** [for i in range(lo, lo + n)] whose body keeps [P i] true and never
    raises runs to completion. *)
Lemma res_foldl_seq {A} (f : A -> nat -> res A) (P : nat -> A -> Prop) lo n a :
  P lo a ->
  (forall i b, lo <= i < lo + n -> P i b -> exists b', f b i = Ok b' /\ P (S i) b') ->
  exists r, res_foldl f a (seq lo n) = Ok r /\ P (lo + n) r.
Proof.
  revert lo a. induction n as [|n IH]; intros lo a Ha Hstep; simpl.
  - exists a. by rewrite Nat.add_0_r.
  - destruct (Hstep lo a) as (b & -> & Hb); [lia|done|]. simpl.
    destruct (IH (S lo) b Hb) as (r & -> & Hr); [intros; apply Hstep; [lia|done]|].
    exists r. split; [done|]. by rewrite Nat.add_succ_r.
Qed.

(** [for x in l] whose body, run on the elements after the prefix [l1],
    keeps [P l1] true and never raises, runs to completion. *)
Lemma res_foldl_ok {A B} (f : A -> B -> res A) (P : list B -> A -> Prop) l a :
  P [] a ->
  (forall l1 x l2 b, l = l1 ++ x :: l2 -> P l1 b -> exists b', f b x = Ok b' /\ P (l1 ++ [x]) b') ->
  exists r, res_foldl f a l = Ok r /\ P l r.
Proof.
  intros H0 Hstep.
  cut (forall rest pre a, l = pre ++ rest -> P pre a ->
         exists r, res_foldl f a rest = Ok r /\ P l r).
  { intros Hc. by apply (Hc l []). }
  induction rest as [|x rest IH]; intros pre b -> Hb; simpl.
  - rewrite app_nil_r. eauto.
  - destruct (Hstep pre x rest b) as (b' & -> & Hb'); [done|done|]. simpl.
    apply (IH (pre ++ [x])); [by rewrite <- app_assoc|done].
Qed.

(** A [for] loop that appends the output [H x] of every pass. *)
Lemma res_foldl_acc {A B} (F : list A -> B -> res (list A)) (H : B -> list A) l acc :
  (forall acc x, x ∈ l -> F acc x = Ok (acc ++ H x)) ->
  res_foldl F acc l = Ok (acc ++ concat (map H l)).
Proof.
  revert acc. induction l as [|x l IH]; intros acc HF; simpl.
  - by rewrite app_nil_r.
  - rewrite HF by apply list_elem_of_here. simpl.
    rewrite IH; [by rewrite app_assoc|].
    intros acc' y Hy. apply HF. by apply list_elem_of_further.
Qed.

(** A row-wise operation that succeeds on every row. *)
Lemma res_mapM_map {A B} (f : A -> res B) (F : A -> B) l :
  (forall x, x ∈ l -> f x = Ok (F x)) -> res_mapM f l = Ok (map F l).
Proof.
  induction l as [|x l IH]; intros Hf; simpl; [done|].
  rewrite Hf by apply list_elem_of_here. simpl.
  rewrite IH; [done|]. intros y Hy. apply Hf. by apply list_elem_of_further.
Qed.

Lemma res_mapM_Forall2 {A B} (f : A -> res B) l ys :
  res_mapM f l = Ok ys -> Forall2 (fun x y => f x = Ok y) l ys.
Proof.
  revert ys. induction l as [|x l IH]; intros ys; simpl; [by intros [= <-]|].
  destruct (f x) as [y|e] eqn:Hf; simpl; [|done].
  destruct (res_mapM f l) as [ys'|e] eqn:Hl; simpl; [|done].
  intros [= <-]. constructor; [done|by apply IH].
Qed.

(** The invariant of a [for] loop over a range, when the body may raise. *)
Lemma res_foldl_seq_inv {A} (f : A -> nat -> res A) (P : nat -> A -> Prop) lo n a r :
  res_foldl f a (seq lo n) = Ok r -> P lo a ->
  (forall i b b', lo <= i < lo + n -> P i b -> f b i = Ok b' -> P (S i) b') ->
  P (lo + n) r.
Proof.
  revert lo a. induction n as [|n IH]; intros lo a Hr Ha Hstep; simpl in Hr.
  - injection Hr as <-. by rewrite Nat.add_0_r.
  - apply res_bind_Ok in Hr as (b & Hb & Hr).
    rewrite Nat.add_succ_r. apply (IH (S lo) b); [done| |].
    + apply (Hstep lo a b); [lia|done|done].
    + intros i c c' Hi. apply Hstep. lia.
Qed.

Section PyListFacts.
Context {A : Type} `{EqDecision A}.
Implicit Types (l : list A) (x : A).

Lemma py_get_Ok l i a : py_get l i = Ok a <-> l !! i = Some a.
Proof. unfold py_get. destruct (l !! i); split; congruence. Qed.

Lemma py_get_Err l i e : py_get l i = Err e -> e = IndexError.
Proof. unfold py_get. destruct (l !! i); congruence. Qed.

Lemma py_set_Ok l i x : i < length l -> py_set l i x = Ok (<[i:=x]> l).
Proof. intros. unfold py_set. by case_decide. Qed.

Lemma py_remove_absent x l : x ∉ l -> py_remove x l = Err ValueError.
Proof.
  induction l as [|y l IH]; intros Hx; [done|]. simpl.
  rewrite elem_of_cons in Hx.
  case_decide; [subst; tauto|]. rewrite IH; [done|tauto].
Qed.

Lemma py_remove_elem_of x l : x ∈ l -> exists l', py_remove x l = Ok l'.
Proof.
  induction l as [|y l IH]; intros Hx; [by apply not_elem_of_nil in Hx|]. simpl.
  case_decide; [eauto|].
  apply elem_of_cons in Hx as [->|Hx]; [done|].
  destruct (IH Hx) as [l' ->]. eauto.
Qed.

(** On a list without duplicates, [remove] of the element at [i] is the
    deletion of position [i]. *)
Lemma py_remove_NoDup l i x :
  NoDup l -> l !! i = Some x -> py_remove x l = Ok (delete i l).
Proof.
  revert i. induction l as [|y l IH]; intros i Hnd Hi; [done|].
  apply NoDup_cons in Hnd as [Hy Hnd]. simpl.
  destruct i as [|i]; simpl in Hi.
  - injection Hi as ->. by case_decide.
  - case_decide; subst.
    + exfalso. apply Hy. by eapply list_elem_of_lookup_2.
    + by rewrite (IH i).
Qed.

Lemma py_swap_Ok k l a b :
  l !! k = Some a -> l !! S k = Some b ->
  py_swap k l = Ok (<[S k:=a]> (<[k:=b]> l)).
Proof.
  intros Ha Hb. pose proof (lookup_lt_Some _ _ _ Hb).
  unfold py_swap, py_get. rewrite Ha, Hb. simpl.
  rewrite py_set_Ok by lia. simpl. rewrite py_set_Ok; [done|].
  rewrite length_insert. lia.
Qed.

(** A successful [remove] takes one occurrence out. *)
Lemma py_remove_perm x l l' : py_remove x l = Ok l' -> l ≡ₚ x :: l'.
Proof.
  revert l'. induction l as [|y l IH]; intros l' Hr; simpl in Hr; [done|].
  case_decide; subst; res_inv; [done|].
  rewrite (IH _ H0). apply perm_swap.
Qed.
End PyListFacts.

Lemma res_mapM_ok {A B} (f : A -> res B) (P : A -> B -> Prop) l :
  (forall x, x ∈ l -> exists y, f x = Ok y /\ P x y) ->
  exists ys, res_mapM f l = Ok ys /\ Forall2 P l ys.
Proof.
  induction l as [|x l IH]; intros Hf; simpl; [by exists []|].
  destruct (Hf x ltac:(by left)) as (y & -> & Hy). simpl.
  destruct IH as (ys & -> & Hys); [intros z Hz; apply Hf; by right|].
  exists (y :: ys). split; [done|]. by constructor.
Qed.

Create HintDb pyops.
#[export] Hint Resolve py_remove_perm py_get_Ok py_set_Ok : pyops.

(** ** Shared lemmas on lists of indices *)

(** A duplicate-free list of indices below [n] has at most [n] elements. *)
Lemma NoDup_bounded_length (l : list nat) n :
  NoDup l -> (forall x, x ∈ l -> x < n) -> length l <= n.
Proof.
  intros Hnd Hb. transitivity (length (seq 0 n)); [|by rewrite length_seq].
  apply NoDup_incl_length; [by apply NoDup_ListNoDup|].
  intros x Hx. apply list_elem_of_In in Hx. apply list_elem_of_In, elem_of_seq.
  specialize (Hb x Hx). lia.
Qed.

(** Python has no default for an index out of range; the total lookup
    [!!!] is used only where the index is in range, and this lemma says
    what it gives otherwise. *)
Lemma lookup_total_ge_inhabitant {A} `{Inhabited A} (l : list A) i :
  length l <= i -> l !!! i = inhabitant.
Proof. intros. by rewrite list_lookup_total_alt, lookup_ge_None_2. Qed.

Lemma elem_of_concat_iff {A} (x : A) (ls : list (list A)) :
  x ∈ concat ls <-> exists l, x ∈ l /\ l ∈ ls.
Proof.
  rewrite list_elem_of_In, in_concat. split; intros (l & ? & ?); exists l;
    rewrite ?list_elem_of_In in *; tauto.
Qed.

Lemma NoDup_app_disjoint {A} (l k : list A) x :
  NoDup (l ++ k) -> x ∈ l -> x ∉ k.
Proof. rewrite NoDup_app. intros (_ & Hd & _) Hx. by apply Hd. Qed.
