(* ===== verification/Input.v ===== *)
(** * Command line and network file (lines 38-79)

    The program takes its network size from the file name ([-f 30-1]
    gives [net_size = 30], line 67), its number of decisions from [-d]
    (line 70) and the node positions from the file, one line ["x y\n"]
    per node (lines 72-79).  This file models, on strings:
    - [py_int], Python 2's [int(s)] on a string (CPython 2.7,
      [PyInt_FromString] in base 10): blanks around the number, an
      optional sign that blanks may follow, then decimal digits; anything
      else raises ValueError;
    - [py_split], [str.split(sep)] with a one-character separator (empty
      pieces kept), and [drop_last], the slice [s[0:-1]];
    - [readline] and the [while] loop of lines 75-79 ([read_loop], run
      with fuel, [read_nodes]), and [parse_line], lines 76-77;
    - [process_opt] / [process_options], the loop of lines 56-70 over the
      options that [getopt] returned.  [getopt] itself and the file
      system are not modelled: the options are an input, and [isfile]
      stands for [os.path.isfile] of the path built from the name.

    Printing is stdpp's [pretty], which writes an integer as Python's
    [str] does.  The theorems: the file written by [format_nodes] reads
    back as the positions it lists (a round trip through [py_int]), the
    size is read back from a file name [str(n) + "-" + ...], the read loop
    never runs out of fuel, and a last line without its newline loses its
    last character. *)

From Stdlib Require Import Ascii.
From stdpp Require Import strings pretty.
From S2P Require Import Prelude.

Module Input.

(** The blanks of Python 2's [str.strip] and [int()]: space, tab, line
    feed, vertical tab, form feed, carriage return. *)
Definition py_space (c : Ascii.ascii) : bool := Ascii.is_space c.

Fixpoint skip_spaces (s : string) : string :=
  match s with
  | String c s' => if py_space c then skip_spaces s' else s
  | EmptyString => EmptyString
  end.

Fixpoint all_spaces (s : string) : bool :=
  match s with
  | String c s' => py_space c && all_spaces s'
  | EmptyString => true
  end.

(** The decimal digits from the front of [s], accumulated into [acc];
    returns the value, the number of digits read and the rest. *)
Fixpoint digits (acc : Z) (n : nat) (s : string) : Z * nat * string :=
  match s with
  | String c s' =>
      match Ascii.is_nat c with
      | Some d => digits (10 * acc + Z.of_nat d)%Z (S n) s'
      | None => (acc, n, s)
      end
  | EmptyString => (acc, n, s)
  end.

(** The optional sign after the leading blanks, and the blanks after it. *)
Definition py_sign (s1 : string) : Z * string :=
  match s1 with
  | String "-"%char s' => ((-1)%Z, skip_spaces s')
  | String "+"%char s' => (1%Z, skip_spaces s')
  | _ => (1%Z, s1)
  end.

(** At least one digit, then only blanks. *)
Definition py_digits (sign : Z) (s2 : string) : res Z :=
  let '(v, n, rest) := digits 0 0 s2 in
  if decide (n = 0) then Err ValueError
  else if all_spaces rest then Ok (sign * v)%Z
  else Err ValueError.

(** [int(s)] for a [str] in Python 2. *)
Definition py_int (s : string) : res Z :=
  let '(sign, s2) := py_sign (skip_spaces s) in
  py_digits sign s2.

(** [s.split(sep)] for a one-character separator: the pieces between the
    separators, empty pieces included. *)
Fixpoint py_split (sep : Ascii.ascii) (s : string) : list string :=
  match s with
  | EmptyString => [EmptyString]
  | String c s' =>
      if decide (c = sep) then EmptyString :: py_split sep s'
      else match py_split sep s' with
           | w :: ws => String c w :: ws
           | [] => [String c EmptyString]
           end
  end.

(** [s[0:-1]]: everything but the last character. *)
Fixpoint drop_last (s : string) : string :=
  match s with
  | EmptyString => EmptyString
  | String _ EmptyString => EmptyString
  | String c s' => String c (drop_last s')
  end.

(** [f.readline()]: the characters up to and including the next line
    feed, and the rest of the file. *)
Fixpoint readline (s : string) : string * string :=
  match s with
  | EmptyString => (EmptyString, EmptyString)
  | String c s' =>
      if decide (c = "010"%char) then (String c EmptyString, s')
      else let '(l, r) := readline s' in (String c l, r)
  end.

(** Lines 76-77: [pos_str = new_line[0:-1].split(' ')] and
    [pos = [int(pos_str[0]), int(pos_str[1])]], evaluated left to right. *)
Definition parse_line (new_line : string) : res (Z * Z) :=
  let pos_str := py_split " "%char (drop_last new_line) in
  let! s0 := py_get pos_str 0 in
  let! x := py_int s0 in
  let! s1 := py_get pos_str 1 in
  let! y := py_int s1 in
  Ok (x, y).

(** Lines 74-79: [new_line = f.readline()] and [while len(new_line) != 0]. *)
Fixpoint read_loop (fuel : nat) (new_line rest : string) (nodes : list (Z * Z))
    : res (list (Z * Z)) :=
  match fuel with
  | O => Err OutOfFuel
  | S fuel' =>
      if decide (String.length new_line = 0) then Ok nodes
      else
        let! pos := parse_line new_line in
        let '(new_line', rest') := readline rest in
        read_loop fuel' new_line' rest' (nodes ++ [pos])
  end.

(** Every pass consumes a line of at least one character, so the length
    of the file plus one passes are enough. *)
Definition read_nodes (content : string) : res (list (Z * Z)) :=
  let '(new_line, rest) := readline content in
  read_loop (S (String.length content)) new_line rest [].

(** The configuration the options set (lines 40-45). *)
Record config := mkConfig {
  net_size : Z;
  net_filename : string;
  deci_num : Z
}.

Definition default_config : config := mkConfig 30 "30-1" 30.

Section Options.
(** [os.path.isfile] of the path of the network file of that name. *)
Variable isfile : string -> bool.

(** One option of the loop of lines 56-70; an absent file prints an
    error and exits (lines 62-64). *)
Definition process_opt (c : config) (oa : string * string) : res config :=
  let '(opt, arg) := oa in
  if decide (opt = "-f") then
    if isfile arg then
      let! n := py_int (default EmptyString (head (py_split "-"%char arg))) in
      Ok (mkConfig n arg (deci_num c))
    else Err SysExit
  else if decide (opt = "-d") then
    let! d := py_int arg in
    Ok (mkConfig (net_size c) (net_filename c) d)
  else Ok c.

Definition process_options (opts : list (string * string)) : res config :=
  res_foldl process_opt default_config opts.

(** Lines 48-70 from the result of [getopt.getopt(sys.argv[1:], 'f:d:')]:
    [None] is a GetoptError (an unknown option, or [-f] or [-d] without
    its argument), which prints the error and exits (lines 53-55). *)
Definition read_options (getopt_result : option (list (string * string))) : res config :=
  match getopt_result with
  | None => Err SysExit
  | Some opts => process_options opts
  end.

End Options.

(** The file the network generator writes: ["x y\n"] per node. *)
Definition format_node (p : Z * Z) : string :=
  pretty p.1 +:+ " " +:+ pretty p.2 +:+ String "010"%char EmptyString.

Definition format_nodes (ps : list (Z * Z)) : string :=
  foldr (fun p s => format_node p +:+ s) EmptyString ps.

End Input.

Module InputFacts.
Import Input.

(** ** Strings *)

(** stdpp makes [String.app] opaque to [simpl]; these are its equations. *)
Lemma str_app_nil b : "" +:+ b = b.
Proof. done. Qed.

Lemma str_app_cons c a b : String c a +:+ b = String c (a +:+ b).
Proof. done. Qed.

Lemma str_app_assoc a b c : a +:+ (b +:+ c) = (a +:+ b) +:+ c.
Proof. induction a as [|x a IH]; rewrite ?str_app_nil, ?str_app_cons; congruence. Qed.

Lemma str_length_app a b :
  String.length (a +:+ b) = String.length a + String.length b.
Proof. induction a as [|x a IH]; rewrite ?str_app_nil, ?str_app_cons; simpl; lia. Qed.

(** ** Characters of a printed integer *)

Fixpoint str_forall (P : Ascii.ascii -> bool) (s : string) : bool :=
  match s with
  | String c s' => P c && str_forall P s'
  | EmptyString => true
  end.

Lemma str_forall_app P a b :
  str_forall P (a +:+ b) = str_forall P a && str_forall P b.
Proof. induction a as [|c a IH]; simpl; [done|]. by rewrite IH, andb_assoc. Qed.

Lemma pretty_N_char_forall (P : Ascii.ascii -> bool) d :
  forallb P ["0";"1";"2";"3";"4";"5";"6";"7";"8";"9"]%char = true ->
  P (pretty_N_char d) = true.
Proof.
  simpl. rewrite !andb_true_iff. intros H. destruct_and!.
  unfold pretty_N_char. by repeat case_match.
Qed.

Lemma pretty_N_go_forall P x s :
  (forall d, P (pretty_N_char d) = true) ->
  str_forall P s = true -> str_forall P (pretty_N_go x s) = true.
Proof.
  intros Hd. revert s. induction (N.lt_wf_0 x) as [x _ IH]; intros s Hs.
  destruct (decide (x = 0)%N) as [->|]; [by rewrite pretty_N_go_0|].
  rewrite pretty_N_go_step by lia. apply IH; [apply N.div_lt; lia|].
  simpl. by rewrite Hd, Hs.
Qed.

Lemma pretty_N_go_app x s : pretty_N_go x s = pretty_N_go x "" +:+ s.
Proof.
  revert s. induction (N.lt_wf_0 x) as [x _ IH]; intros s.
  destruct (decide (x = 0)%N) as [->|]; [by rewrite !pretty_N_go_0|].
  rewrite !(pretty_N_go_step x) by lia.
  assert (x `div` 10 < x)%N as Hlt by (apply N.div_lt; lia).
  rewrite (IH _ Hlt (String _ s)), (IH _ Hlt (String _ "")).
  by rewrite <-str_app_assoc.
Qed.

Lemma is_nat_pretty_N_char d :
  (d < 10)%N -> Ascii.is_nat (pretty_N_char d) = Some (N.to_nat d).
Proof.
  intros Hd.
  assert (d = 0 \/ d = 1 \/ d = 2 \/ d = 3 \/ d = 4 \/ d = 5 \/ d = 6
          \/ d = 7 \/ d = 8 \/ d = 9)%N as H by lia.
  by repeat destruct H as [->|H]; [..|subst].
Qed.

(** A printed natural number starts with a digit. *)
Lemma pretty_N_go_head x s :
  (0 < x)%N -> exists c t, pretty_N_go x s = String c t /\ is_Some (Ascii.is_nat c).
Proof.
  revert s. induction (N.lt_wf_0 x) as [x _ IH]; intros s Hx.
  rewrite pretty_N_go_step by lia.
  destruct (decide (x `div` 10 = 0)%N) as [->|].
  - rewrite pretty_N_go_0. eexists _, _. split; [done|].
    unfold pretty_N_char. repeat case_match; simpl; eauto.
  - apply IH; [apply N.div_lt; lia|by apply N.neq_0_lt_0].
Qed.

(** Reading the digits of a printed number. *)
Lemma digits_pretty_N_go x acc n s :
  exists k, (0 < x -> 0 < k)%N /\
    digits acc n (pretty_N_go x s)
    = digits (acc * 10 ^ Z.of_N k + Z.of_N x)%Z (n + N.to_nat k) s.
Proof.
  revert acc n s. induction (N.lt_wf_0 x) as [x _ IH]; intros acc n s.
  destruct (decide (x = 0)%N) as [->|Hx].
  - exists 0%N. rewrite pretty_N_go_0. split; [lia|]. f_equal; lia.
  - rewrite pretty_N_go_step by lia.
    destruct (IH (x `div` 10)%N ltac:(apply N.div_lt; lia) acc n
      (String (pretty_N_char (x `mod` 10)) s)) as (k & _ & ->).
    exists (N.succ k). split; [lia|].
    assert (Ascii.is_nat (pretty_N_char (x `mod` 10))
            = Some (N.to_nat (x `mod` 10))) as Hc.
    { apply is_nat_pretty_N_char, N.mod_lt. lia. }
    simpl. rewrite Hc. f_equal; [|lia].
    rewrite N2Z.inj_succ, Z.pow_succ_r, N_nat_Z, N2Z.inj_div, N2Z.inj_mod by lia.
    pose proof (Z.div_mod (Z.of_N x) 10). nia.
Qed.

(** A positive number prints without its [N] zero case. *)
Lemma pretty_Npos p : pretty (N.pos p) = pretty_N_go (N.pos p) "".
Proof. unfold pretty, pretty_N. by case_decide. Qed.

Lemma pretty_Z_forall P (z : Z) :
  (forall d, P (pretty_N_char d) = true) -> P "-"%char = true ->
  str_forall P (pretty z) = true.
Proof.
  intros Hd Hm. destruct z as [|p|p].
  - specialize (Hd 0%N). simpl in *. by rewrite Hd.
  - change (pretty (Z.pos p)) with (pretty (N.pos p)).
    rewrite pretty_Npos. by apply pretty_N_go_forall.
  - change (str_forall P (String "-" (pretty (N.pos p))) = true). simpl.
    rewrite Hm, pretty_Npos. by apply pretty_N_go_forall.
Qed.

(** The side conditions of [pretty_Z_forall] for a concrete predicate. *)
Ltac pretty_chars :=
  apply pretty_Z_forall; [intros; apply pretty_N_char_forall|]; reflexivity.

(** ** [int()] reads back what [str] writes *)

Lemma digit_not_space c : is_Some (Ascii.is_nat c) -> py_space c = false.
Proof. intros [d Hd]. destruct c as [[][][][][][][][]]; by try discriminate Hd. Qed.

Lemma py_sign_digit c t :
  is_Some (Ascii.is_nat c) -> py_sign (String c t) = (1%Z, String c t).
Proof. intros [d Hd]. destruct c as [[][][][][][][][]]; by try discriminate Hd. Qed.

Lemma skip_spaces_pretty_N_go x :
  (0 < x)%N -> skip_spaces (pretty_N_go x "") = pretty_N_go x "".
Proof.
  intros Hx. destruct (pretty_N_go_head x "" Hx) as (c & t & -> & Hc).
  simpl. by rewrite digit_not_space.
Qed.

Lemma py_digits_pretty sign x :
  (0 < x)%N -> py_digits sign (pretty_N_go x "") = Ok (sign * Z.of_N x)%Z.
Proof.
  intros Hx. unfold py_digits.
  destruct (digits_pretty_N_go x 0 0 "") as (k & Hk & ->). simpl.
  rewrite decide_False by lia. f_equal; lia.
Qed.

Lemma py_int_pretty (z : Z) : py_int (pretty z) = Ok z.
Proof.
  destruct z as [|p|p]; [done| |].
  - change (pretty (Z.pos p)) with (pretty (N.pos p)).
    rewrite pretty_Npos. unfold py_int.
    rewrite skip_spaces_pretty_N_go by lia.
    destruct (pretty_N_go_head (N.pos p) "") as (c & t & Heq & Hc); [lia|].
    rewrite Heq, py_sign_digit, <-Heq by done.
    rewrite py_digits_pretty by lia. f_equal; lia.
  - change (pretty (Z.neg p)) with (String "-" (pretty (N.pos p))).
    rewrite pretty_Npos. unfold py_int. simpl.
    rewrite skip_spaces_pretty_N_go, py_digits_pretty by lia. f_equal; lia.
Qed.

(** ** Splitting, slicing and reading lines *)

Section Split.
Variables (P : Ascii.ascii -> bool) (sep : Ascii.ascii).
Hypothesis HP : P sep = false.

Lemma py_split_one a : str_forall P a = true -> py_split sep a = [a].
Proof.
  induction a as [|c a IH]; [done|]. simpl. rewrite andb_true_iff.
  intros [Hc Ha]. rewrite decide_False, IH by congruence. done.
Qed.

Lemma py_split_app a b :
  str_forall P a = true -> py_split sep (a +:+ String sep b) = a :: py_split sep b.
Proof.
  induction a as [|c a IH]; intros Ha.
  - simpl. by rewrite decide_True.
  - simpl in Ha. apply andb_true_iff in Ha as [Hc Ha].
    rewrite str_app_cons. simpl. rewrite decide_False, IH by congruence. done.
Qed.

Lemma readline_app a b :
  sep = "010"%char -> str_forall P a = true ->
  readline (a +:+ String sep b) = (a +:+ String sep "", b).
Proof.
  intros -> Ha. induction a as [|c a IH]; [done|].
  simpl in Ha. apply andb_true_iff in Ha as [Hc Ha].
  rewrite !str_app_cons. simpl. rewrite decide_False, IH by congruence. done.
Qed.

(** A last line without its line feed is read whole. *)
Lemma readline_last a : sep = "010"%char -> str_forall P a = true -> readline a = (a, "").
Proof.
  intros -> Ha. induction a as [|c a IH]; [done|].
  simpl in Ha. apply andb_true_iff in Ha as [Hc Ha].
  simpl. rewrite decide_False, IH by congruence. done.
Qed.

End Split.

Lemma drop_last_cons x s : s <> "" -> drop_last (String x s) = String x (drop_last s).
Proof. destruct s; [done|]. done. Qed.

Lemma str_app_ne a b : b <> "" -> a +:+ b <> "".
Proof. destruct a; [done|]. discriminate. Qed.

Lemma drop_last_app a b : b <> "" -> drop_last (a +:+ b) = a +:+ drop_last b.
Proof.
  intros Hb. induction a as [|x a IH]; [done|].
  by rewrite !str_app_cons, drop_last_cons, IH by by apply str_app_ne.
Qed.

Lemma drop_last_snoc a c : drop_last (a +:+ String c "") = a.
Proof.
  rewrite drop_last_app by discriminate. simpl.
  induction a as [|x a IH]; [done|]. by rewrite str_app_cons, IH.
Qed.

Lemma readline_length s :
  String.length (readline s).1 + String.length (readline s).2 = String.length s.
Proof.
  induction s as [|c s IH]; [done|]. simpl.
  case_decide; [simpl; lia|]. destruct (readline s). simpl in *. lia.
Qed.

Lemma readline_nil s : String.length (readline s).1 = 0 -> s = "".
Proof.
  destruct s as [|c s]; [done|]. simpl.
  case_decide; [done|]. by destruct (readline s).
Qed.

(** ** The last digit of a printed number *)

Lemma pretty_N_go_nonempty x : (0 < x)%N -> pretty_N_go x "" <> "".
Proof. intros Hx. by destruct (pretty_N_go_head x "" Hx) as (c & t & -> & _). Qed.

Lemma drop_last_pretty_N_go x :
  (10 <= x)%N -> drop_last (pretty_N_go x "") = pretty_N_go (x `div` 10) "".
Proof.
  intros Hx. rewrite pretty_N_go_step by lia.
  by rewrite pretty_N_go_app, drop_last_snoc.
Qed.

Lemma quot10_pos p :
  (10 <= Z.pos p)%Z -> exists q, Z.quot (Z.pos p) 10 = Z.pos q /\ (N.pos p `div` 10)%N = N.pos q.
Proof.
  intros Hp. destruct (N.pos p `div` 10)%N as [|q] eqn:Eq.
  - pose proof (N.div_str_pos (N.pos p) 10). lia.
  - exists q. split; [|done]. rewrite Z.quot_div_nonneg by lia.
    change (Z.pos q) with (Z.of_N (N.pos q)). by rewrite <-Eq, N2Z.inj_div.
Qed.

(** Dropping the last character of [str(y)] gives [str(y quot 10)]. *)
Lemma drop_last_pretty (y : Z) :
  (10 <= Z.abs y)%Z -> drop_last (pretty y) = pretty (Z.quot y 10).
Proof.
  intros Hy. destruct y as [|p|p]; [lia| |].
  - destruct (quot10_pos p) as (q & -> & Eq); [lia|].
    change (pretty (Z.pos p)) with (pretty (N.pos p)).
    change (pretty (Z.pos q)) with (pretty (N.pos q)).
    rewrite !pretty_Npos, drop_last_pretty_N_go, Eq by lia. done.
  - destruct (quot10_pos p) as (q & Eq' & Eq); [lia|].
    change (Z.neg p) with (- Z.pos p)%Z. rewrite Z.quot_opp_l, Eq' by lia.
    change (pretty (- Z.pos p)%Z) with (String "-" (pretty (N.pos p))).
    change (pretty (- Z.pos q)%Z) with (String "-" (pretty (N.pos q))).
    rewrite !pretty_Npos, drop_last_cons by (apply pretty_N_go_nonempty; lia).
    by rewrite drop_last_pretty_N_go, Eq by lia.
Qed.

Lemma pretty_Z_nonempty (z : Z) : pretty z <> "".
Proof.
  destruct z as [|p|p]; [done| |done].
  change (pretty (Z.pos p)) with (pretty (N.pos p)).
  rewrite pretty_Npos. apply pretty_N_go_nonempty. lia.
Qed.

Lemma pretty_nonneg_forall P (n : Z) :
  (0 <= n)%Z -> (forall d, P (pretty_N_char d) = true) -> str_forall P (pretty n) = true.
Proof.
  intros Hn Hd. destruct n as [|p|p]; [|clear Hn|lia].
  - specialize (Hd 0%N). simpl in *. by rewrite Hd.
  - change (pretty (Z.pos p)) with (pretty (N.pos p)).
    rewrite pretty_Npos. by apply pretty_N_go_forall.
Qed.

(** ** A node line *)

Definition not_space (c : Ascii.ascii) : bool := negb (py_space c).
Definition not_newline (c : Ascii.ascii) : bool := negb (bool_decide (c = "010"%char)).
Definition not_dash (c : Ascii.ascii) : bool := negb (bool_decide (c = "-"%char)).

(** The text of a line without its line feed. *)
Definition node_text (p : Z * Z) : string := pretty p.1 +:+ String " " (pretty p.2).

Lemma str_app_nil_r a : a +:+ "" = a.
Proof. induction a as [|c a IH]; [done|]. by rewrite str_app_cons, IH. Qed.

Lemma format_node_text p : format_node p = node_text p +:+ String "010" "".
Proof. unfold format_node, node_text. by rewrite <-str_app_assoc. Qed.

Lemma node_text_one_line p : str_forall not_newline (node_text p) = true.
Proof.
  unfold node_text. rewrite str_forall_app. simpl.
  rewrite !andb_true_iff. split; pretty_chars.
Qed.

Lemma node_text_length p : 1 <= String.length (node_text p).
Proof. unfold node_text. rewrite str_length_app. simpl. lia. Qed.

(** Lines 76-77 on a line whose slice is the text of a node: the split
    gives the two printed numbers. *)
Lemma parse_line_text l x y :
  drop_last l = node_text (x, y) -> parse_line l = Ok (x, y).
Proof.
  intros Hd. unfold parse_line. rewrite Hd. unfold node_text. simpl.
  rewrite (py_split_app not_space) by (done || pretty_chars).
  rewrite (py_split_one not_space) by (done || pretty_chars).
  simpl. by rewrite !py_int_pretty.
Qed.

Lemma parse_line_format p : parse_line (format_node p) = Ok p.
Proof.
  destruct p as [x y]. rewrite format_node_text.
  apply parse_line_text, drop_last_snoc.
Qed.

Lemma py_int_err s e : py_int s = Err e -> e = ValueError.
Proof. unfold py_int, py_digits. repeat case_match; congruence. Qed.

Lemma parse_line_err l e : parse_line l = Err e -> e = ValueError \/ e = IndexError.
Proof.
  unfold parse_line.
  repeat match goal with
  | |- res_bind ?m _ = _ -> _ => destruct m eqn:?; simpl
  end; intros; simplify_eq; eauto using py_get_Err, py_int_err.
Qed.

(** ** The read loop *)

Lemma format_nodes_cons p ps tail :
  format_nodes (p :: ps) +:+ tail
  = node_text p +:+ String "010" (format_nodes ps +:+ tail).
Proof. simpl. by rewrite <-str_app_assoc, format_node_text, <-str_app_assoc. Qed.

Lemma format_nodes_length ps : length ps <= String.length (format_nodes ps).
Proof.
  induction ps as [|p ps IH]; [simpl; lia|].
  rewrite <-(str_app_nil_r (format_nodes _)), format_nodes_cons, str_app_nil_r.
  rewrite str_length_app. simpl. lia.
Qed.

(** One pass of the loop per line of the file. *)
Lemma read_loop_app ps tail fuel nodes :
  (let '(l, r) := readline (format_nodes ps +:+ tail) in
   read_loop (length ps + fuel) l r nodes)
  = (let '(l, r) := readline tail in read_loop fuel l r (nodes ++ ps)).
Proof.
  revert nodes. induction ps as [|p ps IH]; intros nodes.
  - by rewrite app_nil_r.
  - rewrite format_nodes_cons, (readline_app not_newline) by (done || apply node_text_one_line).
    change (length (p :: ps) + fuel) with (S (length ps + fuel)).
    cbn [read_loop]. rewrite decide_False.
    2:{ rewrite str_length_app. simpl. lia. }
    rewrite <-format_node_text, parse_line_format. simpl.
    rewrite IH, <-app_assoc. done.
Qed.

(** The loop stops at the end of the file or at a line it cannot parse. *)
Lemma read_loop_total fuel l r nodes :
  String.length l + String.length r < fuel ->
  (exists ns, read_loop fuel l r nodes = Ok ns) \/
  read_loop fuel l r nodes = Err ValueError \/
  read_loop fuel l r nodes = Err IndexError.
Proof.
  revert l r nodes. induction fuel as [|fuel IH]; intros l r nodes Hf; [lia|].
  simpl. case_decide; [eauto|].
  destruct (parse_line l) as [pos|e] eqn:Hp; simpl.
  - pose proof (readline_length r). destruct (readline r) as [l' r'].
    apply IH. simpl in *. lia.
  - destruct (parse_line_err l e Hp) as [-> | ->]; auto.
Qed.

Lemma drop_last_node_text x y :
  (10 <= Z.abs y)%Z -> drop_last (node_text (x, y)) = node_text (x, Z.quot y 10).
Proof.
  intros Hy. unfold node_text. simpl.
  rewrite drop_last_app, drop_last_cons, drop_last_pretty by
    (done || apply pretty_Z_nonempty). done.
Qed.

(** ** Theorems *)

(** Reading back a formatted file. *)
Lemma read_nodes_roundtrip ps : read_nodes (format_nodes ps) = Ok ps.
Proof.
  unfold read_nodes. pose proof (format_nodes_length ps).
  replace (S (String.length (format_nodes ps)))
    with (length ps + S (String.length (format_nodes ps) - length ps)) by lia.
  generalize (String.length (format_nodes ps) - length ps). intros F.
  by rewrite <-(str_app_nil_r (format_nodes ps)), read_loop_app.
Qed.

(** C16: Reading the network file (lines 72-79) gives back the positions the
    file lists, when every line is ["x y\n"] with [x] and [y] written as
    Python's [str] writes integers. *)
Theorem read_nodes_format ps : read_nodes (format_nodes ps) = Ok ps.
Proof. apply read_nodes_roundtrip. Qed.

(** C24: The read loop of lines 75-79 terminates on every file: it returns
    the positions read, or raises ValueError (a field that is not an
    integer) or IndexError (a line with fewer than two fields); the fuel
    of [read_nodes] never runs out. *)
Theorem read_nodes_total content :
  (exists ns, read_nodes content = Ok ns) \/
  read_nodes content = Err ValueError \/ read_nodes content = Err IndexError.
Proof.
  unfold read_nodes. pose proof (readline_length content).
  destruct (readline content) as [l r]. apply read_loop_total. simpl in *. lia.
Qed.

(** C28: When the last line of the file has no line feed, the slice
    [new_line[0:-1]] of line 76 drops its last digit instead: a last node
    ["x y"] with at least two digits in [y] is read as [(x, y quot 10)]. *)
Theorem read_nodes_unterminated ps x y :
  (10 <= Z.abs y)%Z ->
  read_nodes (format_nodes ps +:+ node_text (x, y)) = Ok (ps ++ [(x, Z.quot y 10)]).
Proof.
  intros Hy. unfold read_nodes.
  pose proof (format_nodes_length ps). pose proof (node_text_length (x, y)).
  rewrite str_length_app.
  replace (S (String.length (format_nodes ps) + String.length (node_text (x, y))))
    with (length ps + S (S (String.length (format_nodes ps)
      + String.length (node_text (x, y)) - length ps - 1))) by lia.
  generalize (String.length (format_nodes ps) + String.length (node_text (x, y))
    - length ps - 1). intros F.
  rewrite read_loop_app, (readline_last not_newline "010"%char) by (done || apply node_text_one_line).
  cbn [read_loop]. rewrite decide_False by lia.
  rewrite (parse_line_text _ x (Z.quot y 10)); [done|]. by apply drop_last_node_text.
Qed.

(** Line 67 on a file name [str(n) + "-" + rest] with [n >= 0]. *)
Lemma process_opt_size isfile c (n : Z) rest :
  (0 <= n)%Z -> isfile (pretty n +:+ String "-" rest) = true ->
  process_opt isfile c ("-f", pretty n +:+ String "-" rest)
  = Ok (mkConfig n (pretty n +:+ String "-" rest) (deci_num c)).
Proof.
  intros Hn Hf. unfold process_opt. simpl. rewrite Hf.
  rewrite (py_split_app not_dash) by (done || (apply pretty_nonneg_forall; [done|];
    intros; by apply pretty_N_char_forall)).
  simpl. by rewrite py_int_pretty.
Qed.

(** Line 70 on the text of an integer. *)
Lemma process_opt_decisions isfile c (d : Z) :
  process_opt isfile c ("-d", pretty d) = Ok (mkConfig (net_size c) (net_filename c) d).
Proof. unfold process_opt. simpl. by rewrite py_int_pretty. Qed.

(** C32: The options are read in either order (lines 56-70): for an
    existing file [str(n) + "-" + rest] with [n >= 0] and any integer [d],
    [-f] and [-d] set [net_size] to [n] (line 67), [net_filename] to the
    name and [deci_num] to [d] (line 70), zero and negative [d] included:
    nothing checks that the number of decisions is positive. *)
Theorem process_options_spec isfile (n d : Z) rest :
  (0 <= n)%Z -> isfile (pretty n +:+ String "-" rest) = true ->
  process_options isfile [("-f", pretty n +:+ String "-" rest); ("-d", pretty d)]
    = Ok (mkConfig n (pretty n +:+ String "-" rest) d) /\
  process_options isfile [("-d", pretty d); ("-f", pretty n +:+ String "-" rest)]
    = Ok (mkConfig n (pretty n +:+ String "-" rest) d).
Proof.
  intros Hn Hf. unfold process_options. split; cbn [res_foldl].
  - rewrite process_opt_size by done. cbn [res_bind res_foldl]. by rewrite process_opt_decisions.
  - rewrite process_opt_decisions. cbn [res_bind res_foldl]. by rewrite process_opt_size.
Qed.

End InputFacts.

(** Concrete instances of the theorems of [InputFacts]. *)
Module InputWitnesses.
Import Input InputFacts.

Lemma read_nodes_unterminated_witness :
  (10 <= Z.abs 12)%Z /\
  read_nodes (format_nodes [(0, 0)] +:+ node_text (1, 12))%Z = Ok [(0, 0); (1, 1)]%Z.
Proof. split; [lia|]. apply (read_nodes_unterminated [(0, 0)] 1 12)%Z. lia. Defined.

Lemma process_options_spec_witness :
  process_options (fun _ => true) [("-f", "30-1"); ("-d", "0")] = Ok (mkConfig 30 "30-1" 0) /\
  process_options (fun _ => true) [("-d", "0"); ("-f", "30-1")] = Ok (mkConfig 30 "30-1" 0).
Proof. apply (process_options_spec (fun _ => true) 30 0 "1"); [lia|reflexivity]. Defined.

End InputWitnesses.
