(* ===== verification/Topology.v ===== *)
(** * The honeycomb network (src/probabilistic_convergence.py, lines 81-100)

    Node positions are honeycomb coordinates [(x, y)] read from a file
    (the reading itself, lines 71-79, is not modelled).  Two nodes are
    connected when their coordinate difference is one of the six honeycomb
    offsets.  The connection matrix is built by a double loop over the
    pairs [i < j] and turned into one list of neighbours per node.

    The class [WfTopology] is what the subgroup search and the update
    rely on; [connection_lists_wf] proves the construction provides it. *)

From Stdlib Require Import ZArith.
From S2P Require Import Prelude.

(** The interface the other components use: a symmetric, irreflexive,
    duplicate-free adjacency over the nodes [0 .. N-1]. *)
Class WfTopology (N : nat) (conn : list (list nat)) : Prop := {
  topo_length : length conn = N;
  topo_range : forall i j, j ∈ conn !!! i -> j < N;
  topo_nodup : forall i, NoDup (conn !!! i);
  topo_irrefl : forall i, i ∉ conn !!! i;
  topo_sym : forall i j, j ∈ conn !!! i -> i ∈ conn !!! j
}.

(** The interface as a boolean test over the nodes [0 .. N-1], so that
    a concrete network is checked by evaluation. *)
Definition wf_topology_b (N : nat) (conn : list (list nat)) : bool :=
  bool_decide (length conn = N /\
    Forall (fun i => NoDup (conn !!! i) /\ (i ∉ conn !!! i) /\
                     Forall (fun j => j < N /\ i ∈ conn !!! j) (conn !!! i)) (seq 0 N)).

Module Honeycomb.

Definition pos := (Z * Z)%type.

(** The 0/1 entries of [connections] are kept as booleans. *)
Abbreviation matrix := (list (list bool)).

(** Line 88: [abs(diff_x) + abs(diff_y) == 1 or diff_x * diff_y == -1]. *)
Definition honeycomb_adjacent (p q : pos) : bool :=
  let diff_x := (p.1 - q.1)%Z in
  let diff_y := (p.2 - q.2)%Z in
  (Z.abs diff_x + Z.abs diff_y =? 1)%Z || (diff_x * diff_y =? -1)%Z.

(** Line 82: the all-zero [net_size] x [net_size] matrix. *)
Definition zeros (N : nat) : matrix := replicate N (replicate N false).

(** [connections[i][j] = 1]. *)
Definition mat_set (m : matrix) (i j : nat) : matrix :=
  <[i := <[j := true]> (m !!! i)]> m.

(** The body of the inner loop (lines 84-92) for the pair [(i, j)];
    [nodes[i]] raises IndexError when the file had fewer positions than
    [net_size]. *)
Definition link_step (nodes : list pos) (i : nat) (m : matrix) (j : nat) : res matrix :=
  let! pi := py_get nodes i in
  let! pj := py_get nodes j in
  Ok (if honeycomb_adjacent pi pj then mat_set (mat_set m i j) j i else m).

(** Lines 82-92: [for i in range(net_size): for j in range(i+1, net_size)]. *)
Definition build_connections (nodes : list pos) (N : nat) : res matrix :=
  res_foldl (fun m i => res_foldl (link_step nodes i) m (seq (S i) (N - S i)))
    (zeros N) (seq 0 N).

(** Lines 95-100: the neighbours of [i] in increasing order. *)
Definition connection_lists (m : matrix) (N : nat) : list (list nat) :=
  map (fun i => filter (fun j => (m !!! i) !!! j = true) (seq 0 N)) (seq 0 N).

(** Proof-side view of the matrix: its dimensions, and the entries the
    loop has set so far. *)
Definition mat_dims (N : nat) (m : matrix) : Prop :=
  length m = N /\ forall a, a < N -> length (m !!! a) = N.

(** The entries set so far: [done lo hi] says whether the loop has
    visited the pair [lo < hi]. *)
Definition entries_ok (nodes : list pos) (N : nat) (done : nat -> nat -> Prop)
    (m : matrix) : Prop :=
  mat_dims N m /\
  forall a b, a < N -> b < N ->
    ((m !!! a) !!! b = true <->
     a <> b /\ honeycomb_adjacent (nodes !!! a) (nodes !!! b) = true /\
     done (min a b) (max a b)).

End Honeycomb.

Module HoneycombFacts.
Import Honeycomb.

Lemma honeycomb_adjacent_sym p q : honeycomb_adjacent p q = honeycomb_adjacent q p.
Proof.
  destruct p as [px py], q as [qx qy]. unfold honeycomb_adjacent; simpl.
  rewrite <- (Z.abs_opp (px - qx)), <- (Z.abs_opp (py - qy)).
  replace (- (px - qx))%Z with (qx - px)%Z by lia.
  replace (- (py - qy))%Z with (qy - py)%Z by lia.
  by replace ((px - qx) * (py - qy))%Z with ((qx - px) * (qy - py))%Z by lia.
Qed.

Lemma mat_set_dims N m i j : mat_dims N m -> mat_dims N (mat_set m i j).
Proof.
  intros [Hl Hr]. unfold mat_set. split; [by rewrite length_insert|].
  intros a Ha. destruct (decide (a = i)) as [->|Hne].
  - rewrite list_lookup_total_insert_eq; [|lia]. rewrite length_insert. auto.
  - rewrite list_lookup_total_insert_ne; auto.
Qed.

Lemma mat_set_lookup N m i j a b :
  mat_dims N m -> i < N -> j < N ->
  (mat_set m i j !!! a) !!! b = if decide (a = i /\ b = j) then true else (m !!! a) !!! b.
Proof.
  intros [Hl Hr] Hi Hj. unfold mat_set.
  destruct (decide (a = i)) as [->|Hne].
  - rewrite list_lookup_total_insert_eq; [|lia].
    destruct (decide (b = j)) as [->|Hbj].
    + rewrite list_lookup_total_insert_eq; [|rewrite Hr; lia].
      by rewrite decide_True.
    + rewrite list_lookup_total_insert_ne; [|done]. rewrite decide_False; [done|tauto].
  - rewrite list_lookup_total_insert_ne; [|done]. rewrite decide_False; [done|tauto].
Qed.

Lemma entries_ok_equiv nodes N (d1 d2 : nat -> nat -> Prop) m :
  (forall lo hi, lo < hi < N -> d1 lo hi <-> d2 lo hi) ->
  entries_ok nodes N d1 m -> entries_ok nodes N d2 m.
Proof.
  intros Hd [Hdim He]. split; [done|]. intros a b Ha Hb. rewrite He; [|done|done].
  split; intros (Hab & Hadj & Hdn); (split; [done|split; [done|]]); apply Hd; auto; lia.
Qed.

Lemma zeros_ok nodes N : entries_ok nodes N (fun lo _ => lo < 0) (zeros N).
Proof.
  unfold zeros. split; [split|].
  - by rewrite length_replicate.
  - intros a Ha. rewrite lookup_total_replicate_2; [|lia].
    by rewrite length_replicate.
  - intros a b Ha Hb.
    rewrite lookup_total_replicate_2, lookup_total_replicate_2; [|lia|lia].
    split; [done|lia].
Qed.

Lemma link_step_ok nodes N i j m :
  i < j < N -> N <= length nodes ->
  entries_ok nodes N (fun lo hi => lo < i \/ lo = i /\ hi < j) m ->
  exists m', link_step nodes i m j = Ok m' /\
    entries_ok nodes N (fun lo hi => lo < i \/ lo = i /\ hi < S j) m'.
Proof.
  intros Hij HN [Hdim He]. unfold link_step.
  destruct (lookup_lt_is_Some_2 nodes i) as [pi Hpi]; [lia|].
  destruct (lookup_lt_is_Some_2 nodes j) as [pj Hpj]; [lia|].
  rewrite (proj2 (py_get_Ok _ _ _) Hpi), (proj2 (py_get_Ok _ _ _) Hpj). simpl.
  apply list_lookup_total_correct in Hpi, Hpj.
  eexists; split; [done|].
  destruct (honeycomb_adjacent pi pj) eqn:Hadj.
  - split; [by do 2 apply mat_set_dims|].
    intros a b Ha Hb.
    rewrite (mat_set_lookup N); [|by apply mat_set_dims|lia|lia].
    rewrite (mat_set_lookup N); [|done|lia|lia].
    destruct (decide (a = j /\ b = i)) as [[-> ->]|Hji].
    { rewrite Hpi, Hpj, honeycomb_adjacent_sym, Hadj. split; [intros _|done]; lia. }
    destruct (decide (a = i /\ b = j)) as [[-> ->]|Hij'].
    { rewrite Hpi, Hpj, Hadj. split; [intros _|done]; lia. }
    rewrite He; [|done|done]. split; intros (? & ? & ?); (split; [done|split; [done|]]); lia.
  - split; [done|]. intros a b Ha Hb. rewrite He; [|done|done].
    split; intros (Hab & Hadj' & Hdn); (split; [done|split; [done|]]); [lia|].
    destruct Hdn as [|[Hlo Hhi]]; [lia|].
    destruct (decide (max a b = j)); [|lia].
    exfalso. assert ((a = i /\ b = j) \/ (a = j /\ b = i)) as [[-> ->]|[-> ->]] by lia.
    + rewrite Hpi, Hpj, Hadj in Hadj'. discriminate.
    + rewrite Hpi, Hpj, honeycomb_adjacent_sym, Hadj in Hadj'. discriminate.
Qed.

(** One row [i] of the outer loop: afterwards every pair whose smaller
    index is at most [i] is set. *)
Lemma row_ok nodes N i m :
  i < N -> N <= length nodes -> entries_ok nodes N (fun lo _ => lo < i) m ->
  exists m', res_foldl (link_step nodes i) m (seq (S i) (N - S i)) = Ok m' /\
    entries_ok nodes N (fun lo _ => lo < S i) m'.
Proof.
  intros Hi HN Hm.
  destruct (res_foldl_seq (link_step nodes i)
    (fun j m => entries_ok nodes N (fun lo hi => lo < i \/ lo = i /\ hi < j) m)
    (S i) (N - S i) m) as (m' & Hrun & Hm').
  - apply (entries_ok_equiv _ _ (fun lo _ => lo < i)); [|done]. intros; lia.
  - intros j b Hj Hb. apply link_step_ok; [lia|done|done].
  - exists m'. split; [done|]. revert Hm'. apply entries_ok_equiv. intros; lia.
Qed.

(** The entries of the connection matrix, for the proofs that build on it. *)
Lemma connections_entries nodes N :
  N <= length nodes ->
  exists m, build_connections nodes N = Ok m /\ mat_dims N m /\
    forall a b, a < N -> b < N ->
      ((m !!! a) !!! b = true <->
       a <> b /\ honeycomb_adjacent (nodes !!! a) (nodes !!! b) = true).
Proof.
  intros HN. unfold build_connections.
  destruct (res_foldl_seq
    (fun m i => res_foldl (link_step nodes i) m (seq (S i) (N - S i)))
    (fun i m => entries_ok nodes N (fun lo _ => lo < i) m)
    0 N (zeros N)) as (m & Hrun & [Hdim He]).
  - apply zeros_ok.
  - intros i b Hi Hb. apply row_ok; [lia|done|done].
  - exists m. split; [done|]. split; [done|]. intros a b Ha Hb.
    rewrite He; [|done|done]. split; [tauto|]. intros [? ?]. repeat split; auto; lia.
Qed.

(** C35: with a position for every node, building the connection matrix
    never raises, and entry [(a, b)] is set exactly when [a <> b] and the
    two positions are honeycomb neighbours. *)
Theorem connections_spec nodes N :
  N <= length nodes ->
  exists m, build_connections nodes N = Ok m /\ mat_dims N m /\
    forall a b, a < N -> b < N ->
      ((m !!! a) !!! b = true <->
       a <> b /\ honeycomb_adjacent (nodes !!! a) (nodes !!! b) = true).
Proof. apply connections_entries. Qed.

(** The neighbour list of node [i < N] built from such a matrix. *)
Lemma connection_lists_lookup m N i :
  i < N -> connection_lists m N !!! i = filter (fun j => (m !!! i) !!! j = true) (seq 0 N).
Proof.
  intros Hi. unfold connection_lists.
  apply list_lookup_total_correct. rewrite list_lookup_fmap, lookup_seq_lt; [done|lia].
Qed.

Lemma connection_lists_elem_of m N i j :
  j ∈ connection_lists m N !!! i <-> i < N /\ j < N /\ (m !!! i) !!! j = true.
Proof.
  destruct (decide (i < N)) as [Hi|Hi].
  - rewrite connection_lists_lookup, list_elem_of_filter, elem_of_seq; [|done].
    split; [intros (? & ?)|intros (? & ? & ?)]; repeat split; auto; lia.
  - rewrite (lookup_total_ge_inhabitant (connection_lists m N));
      [|unfold connection_lists; rewrite length_map, length_seq; lia].
    split; [intros Hj; by apply not_elem_of_nil in Hj|lia].
Qed.

(** The constructed connection lists are a well-formed topology. *)
Lemma connection_lists_topology nodes N m :
  N <= length nodes -> build_connections nodes N = Ok m ->
  WfTopology N (connection_lists m N).
Proof.
  intros HN Hb. destruct (connections_entries nodes N HN) as (m' & Hb' & _ & He).
  rewrite Hb in Hb'. injection Hb' as <-.
  split.
  - unfold connection_lists. by rewrite length_map, length_seq.
  - intros i j. rewrite connection_lists_elem_of. lia.
  - intros i. destruct (decide (i < N)).
    + rewrite connection_lists_lookup; [|done]. apply NoDup_filter, NoDup_seq.
    + rewrite (lookup_total_ge_inhabitant (connection_lists m N)); [constructor|].
      unfold connection_lists. rewrite length_map, length_seq. lia.
  - intros i. rewrite connection_lists_elem_of. intros (Hi & _ & Hii).
    apply He in Hii; [tauto|done|done].
  - intros i j. rewrite !connection_lists_elem_of. intros (Hi & Hj & Hij).
    apply He in Hij as [Hne Hadj]; [|done|done].
    repeat split; [done|done|]. apply He; [done|done|].
    rewrite honeycomb_adjacent_sym. auto.
Qed.

(** C34: the connection lists built from any file with a position for
    every node form a well-formed topology: in range, duplicate-free,
    without self-loops and symmetric. *)
Theorem connection_lists_wf nodes N m :
  N <= length nodes -> build_connections nodes N = Ok m ->
  WfTopology N (connection_lists m N).
Proof. apply connection_lists_topology. Qed.

(** C36: when [net_size] (from the file name) exceeds the number of
    positions in the file and there are at least two nodes, the
    construction raises IndexError. *)
Theorem build_connections_short nodes N :
  2 <= N -> length nodes < N -> build_connections nodes N = Err IndexError.
Proof.
  intros HN Hl. unfold build_connections.
  replace (seq 0 N) with (0 :: seq 1 (N - 1))
    by (destruct N; [lia|simpl; by rewrite Nat.sub_0_r]).
  simpl. destruct nodes as [|p0 nodes'].
  { replace (N - 1) with (S (N - 2)) by lia. done. }
  set (L := length (p0 :: nodes')) in *.
  assert (HL : L = S (length nodes')) by done.
  replace (N - 1) with ((L - 1) + (N - L)) by lia.
  rewrite seq_app, res_foldl_app.
  destruct (res_foldl_seq (link_step (p0 :: nodes') 0) (fun _ _ => True) 1 (L - 1) (zeros N))
    as (m & -> & _); [done| |].
  - intros j b Hj _. unfold link_step.
    destruct (lookup_lt_is_Some_2 (p0 :: nodes') j) as [pj Hpj]; [lia|].
    rewrite (proj2 (py_get_Ok _ _ _) Hpj). eauto.
  - simpl. replace (N - L) with (S (N - L - 1)) by lia. simpl.
    replace (1 + (L - 1)) with L by lia.
    unfold link_step, py_get. simpl. by rewrite (lookup_ge_None_2 nodes'); [|lia].
Qed.
End HoneycombFacts.

Lemma wf_topology_b_sound N conn : wf_topology_b N conn = true -> WfTopology N conn.
Proof.
  unfold wf_topology_b. rewrite bool_decide_eq_true. intros [Hl Hall].
  rewrite Forall_forall in Hall.
  assert (Hout : forall i, ~ i < N -> conn !!! i = []).
  { intros i Hi. rewrite lookup_total_ge_inhabitant; [done|lia]. }
  assert (Hin : forall i, i < N -> NoDup (conn !!! i) /\ (i ∉ conn !!! i) /\
            Forall (fun j => j < N /\ i ∈ conn !!! j) (conn !!! i)).
  { intros i Hi. apply Hall, elem_of_seq. lia. }
  split; [done| | | |].
  - intros i j Hj. destruct (decide (i < N)) as [Hi|Hi]; [|rewrite Hout in Hj; [|done];
      by apply not_elem_of_nil in Hj].
    destruct (Hin i Hi) as (_ & _ & Hf). by apply (proj1 (Forall_forall _ _) Hf j Hj).
  - intros i. destruct (decide (i < N)) as [Hi|Hi]; [apply Hin, Hi|rewrite Hout; [constructor|done]].
  - intros i Hi. destruct (decide (i < N)) as [Hlt|Hge]; [by apply (Hin i Hlt)|].
    rewrite Hout in Hi; [by apply not_elem_of_nil in Hi|done].
  - intros i j Hj. destruct (decide (i < N)) as [Hi|Hi]; [|rewrite Hout in Hj; [|done];
      by apply not_elem_of_nil in Hj].
    destruct (Hin i Hi) as (_ & _ & Hf). by apply (proj1 (Forall_forall _ _) Hf j Hj).
Qed.

(** ** Witnesses: the construction on a four-node file *)

(** [(0,0)], [(1,0)] and [(0,1)] are pairwise honeycomb neighbours;
    [(5,5)] is isolated. *)
Lemma connection_lists_wf_witness :
  4 <= length [(0,0); (1,0); (0,1); (5,5)]%Z /\
  Honeycomb.build_connections [(0,0); (1,0); (0,1); (5,5)]%Z 4 =
    Ok [[false; true; true; false]; [true; false; true; false];
        [true; true; false; false]; [false; false; false; false]] /\
  WfTopology 4 (Honeycomb.connection_lists
    [[false; true; true; false]; [true; false; true; false];
     [true; true; false; false]; [false; false; false; false]] 4).
Proof.
  split; [simpl; lia|]. split; [reflexivity|].
  apply (HoneycombFacts.connection_lists_wf [(0,0); (1,0); (0,1); (5,5)]%Z);
    [simpl; lia|reflexivity].
Defined.

Lemma connections_spec_witness :
  4 <= length [(0,0); (1,0); (0,1); (5,5)]%Z /\
  exists m, Honeycomb.build_connections [(0,0); (1,0); (0,1); (5,5)]%Z 4 = Ok m /\
    Honeycomb.mat_dims 4 m /\
    forall a b, a < 4 -> b < 4 ->
      ((m !!! a) !!! b = true <->
       a <> b /\ Honeycomb.honeycomb_adjacent
                   ([(0,0); (1,0); (0,1); (5,5)]%Z !!! a)
                   ([(0,0); (1,0); (0,1); (5,5)]%Z !!! b) = true).
Proof. split; [simpl; lia|]. apply HoneycombFacts.connections_spec. simpl; lia. Defined.

Lemma build_connections_short_witness :
  2 <= 3 /\ length [(0,0)]%Z < 3 /\
  Honeycomb.build_connections [(0,0)]%Z 3 = Err IndexError.
Proof. split; [lia|]. split; [simpl; lia|]. apply HoneycombFacts.build_connections_short; simpl; lia. Defined.
