(* ===== verification/Distribution.v ===== *)
(** * Decision distributions and the numpy operations on them

    A row of [deci_dist] (a numpy array of floats) is a [list Q].  This file
    models the numpy operations the update applies to rows: element-wise
    [+], multiplication and division by a scalar, [np.sum], [np.argmax]
    (lines 152, 212), the L1 difference [np.sum(abs(a - b))] (line 300) and
    the normalisation [v / np.sum(v)] (lines 150, 286-287, 332-333,
    344-345).  Rows of one array always have the same length, so the
    element-wise operations are only used on rows of equal length.

    [veq] is element-wise equality of rationals; the operations respect it
    ([Proper] instances), so statements about computed rows can be
    rewritten with [Qeq] facts. *)

From Stdlib Require Import Morphisms.
From S2P Require Import Prelude.

Module Dist.
Local Open Scope Q_scope.

Abbreviation dist := (list Q).

(** [a + b] on two rows. *)
Definition vadd (a b : dist) : dist := zip_with Qplus a b.

(** [a * c] for a scalar [c]. *)
Definition vscale (a : dist) (c : Q) : dist := map (fun x => x * c) a.

(** [a / c] for a scalar [c]. *)
Definition vdiv (a : dist) (c : Q) : dist := map (fun x => x / c) a.

(** [np.sum(a)]. *)
Definition vsum (a : dist) : Q := foldr Qplus 0 a.

(** [np.sum(abs(a - b))], line 300. *)
Definition l1_diff (a b : dist) : Q := vsum (map Qabs (zip_with Qminus a b)).

(** [sum_temp = np.sum(v); v = v / sum_temp].  numpy divides by a zero
    sum without raising and produces nan; the model stops there.  An
    empty row has nothing to divide and stays empty. *)
Definition normalize (a : dist) : res dist :=
  match a with
  | [] => Ok []
  | _ :: _ =>
      let sum_temp := vsum a in
      if Qeq_bool sum_temp 0 then Err NumpyNaN else Ok (vdiv a sum_temp)
  end.

(** [np.argmax]: the first index holding the largest value; the scan
    replaces the current best only on a strictly larger value. *)
Fixpoint argmax_from (best : nat) (bv : Q) (i : nat) (l : dist) : nat :=
  match l with
  | [] => best
  | x :: l' => if Qlt_le_dec bv x then argmax_from i x (S i) l'
               else argmax_from best bv (S i) l'
  end.

Definition np_argmax (l : dist) : res nat :=
  match l with
  | [] => Err ValueError
  | x :: l' => Ok (argmax_from 0 x 1 l')
  end.

(** Python's [max] on a list of floats (line 301): ValueError on an
    empty list, otherwise the first largest element. *)
Definition py_max (l : list Q) : res Q :=
  match l with
  | [] => Err ValueError
  | x :: l' => Ok (foldl (fun m y => if Qlt_le_dec m y then y else m) x l')
  end.

(** Python float division [a / b]: ZeroDivisionError when [b] is zero. *)
Definition py_fdiv (a b : Q) : res Q :=
  if Qeq_bool b 0 then Err ZeroDivisionError else Ok (a / b).

(** A row that is a probability distribution over [D] decisions. *)
Definition wf_dist (D : nat) (v : dist) : Prop :=
  length v = D /\ Forall (Qle 0) v /\ vsum v == 1.

(** What the argmax scan keeps true about the prefix [p] it has read:
    [bv] sits at index [best], nothing in [p] is larger, and everything
    before [best] is strictly smaller. *)
Definition argmax_inv (p : dist) (best : nat) (bv : Q) : Prop :=
  p !! best = Some bv /\
  (forall j x, p !! j = Some x -> x <= bv) /\
  (forall j x, (j < best)%nat -> p !! j = Some x -> x < bv).

(** [wf_dist] as a boolean test, for concrete rows. *)
Definition wf_dist_b (D : nat) (v : dist) : bool :=
  (length v =? D)%nat && forallb (Qle_bool 0) v && Qeq_bool (vsum v) 1.

(** Element-wise equality of rationals. *)
Definition veq : relation dist := Forall2 Qeq.

End Dist.

Module DistFacts.
Import Dist.
Local Open Scope Q_scope.

#[export] Instance veq_equiv : Equivalence veq.
Proof.
  split.
  - intros a. induction a; constructor; [reflexivity|done].
  - intros a b H. induction H; constructor; [by symmetry|done].
  - intros a b c H1. revert c. induction H1; intros c H2; inversion H2; subst;
      constructor; [by etransitivity|by apply IHForall2].
Qed.

#[export] Instance vadd_proper : Proper (veq ==> veq ==> veq) vadd.
Proof.
  intros a a' Ha. induction Ha as [|x x' a a' Hx Ha IH]; intros b b' Hb.
  - by destruct Hb; constructor.
  - destruct Hb as [|y y' b b' Hy Hb]; simpl; constructor; [|by apply IH].
    by rewrite Hx, Hy.
Qed.

#[export] Instance vscale_proper : Proper (veq ==> Qeq ==> veq) vscale.
Proof.
  intros a a' Ha c c' Hc. induction Ha; simpl; constructor; [|done].
  by rewrite H, Hc.
Qed.

#[export] Instance vdiv_proper : Proper (veq ==> Qeq ==> veq) vdiv.
Proof.
  intros a a' Ha c c' Hc. induction Ha; simpl; constructor; [|done].
  by rewrite H, Hc.
Qed.

#[export] Instance vsum_proper : Proper (veq ==> Qeq) vsum.
Proof. intros a a' Ha. induction Ha; simpl; [done|]. by rewrite H, IHHa. Qed.

Lemma vadd_comm a b : veq (vadd a b) (vadd b a).
Proof.
  revert b. induction a as [|x a IH]; intros [|y b]; simpl; constructor; [ring|apply IH].
Qed.

Lemma vadd_assoc a b c : veq (vadd (vadd a b) c) (vadd a (vadd b c)).
Proof.
  revert b c. induction a as [|x a IH]; intros [|y b] [|z c]; simpl; constructor; [ring|apply IH].
Qed.

Lemma vadd_zero_r a : veq (vadd a (replicate (length a) 0)) a.
Proof. induction a as [|x a IH]; simpl; constructor; [ring|apply IH]. Qed.

Lemma vscale_1 a : veq (vscale a 1) a.
Proof. induction a as [|x a IH]; simpl; constructor; [ring|apply IH]. Qed.

#[export] Instance nonneg_proper : Proper (veq ==> iff) (Forall (Qle 0)).
Proof.
  intros a b Hab. induction Hab as [|x y a b Hxy _ IH]; [done|].
  rewrite !Forall_cons, IH. split; intros [? ?]; split; auto; [rewrite <- Hxy|rewrite Hxy]; done.
Qed.

#[export] Instance l1_diff_proper : Proper (veq ==> veq ==> Qeq) l1_diff.
Proof.
  intros a a' Ha. unfold l1_diff.
  induction Ha as [|x x' a a' Hx Ha IH]; intros b b' Hb; [by destruct Hb|].
  destruct Hb as [|y y' b b' Hy Hb]; [done|].
  cbn [zip_with map vsum foldr]. apply Qplus_comp; [|apply (IH b b' Hb)].
  apply Qabs_wd. by rewrite Hx, Hy.
Qed.

Lemma veq_length a b : veq a b -> length a = length b.
Proof. apply Forall2_length. Qed.

Lemma length_vadd a b : length a = length b -> length (vadd a b) = length a.
Proof. intros H. unfold vadd. rewrite length_zip_with. lia. Qed.

Lemma length_vscale a c : length (vscale a c) = length a.
Proof. apply length_map. Qed.

Lemma length_vdiv a c : length (vdiv a c) = length a.
Proof. apply length_map. Qed.

Lemma vsum_vadd a b : length a = length b -> vsum (vadd a b) == vsum a + vsum b.
Proof.
  revert b. induction a as [|x a IH]; intros [|y b] H; simpl in *; try lia; [done|].
  rewrite IH; [ring|lia].
Qed.

Lemma vsum_vscale a c : vsum (vscale a c) == vsum a * c.
Proof. induction a as [|x a IH]; simpl; [ring|]. rewrite IH. ring. Qed.

Lemma vsum_vdiv a c : vsum (vdiv a c) == vsum a / c.
Proof. induction a as [|x a IH]; simpl; [done|]. rewrite IH. unfold Qdiv. ring. Qed.

Lemma vsum_nonneg a : Forall (Qle 0) a -> 0 <= vsum a.
Proof. induction 1; simpl; [done|lra]. Qed.

(** A sum bounds each of its nonnegative terms. *)
Lemma vsum_ge_lookup a p x : Forall (Qle 0) a -> a !! p = Some x -> x <= vsum a.
Proof.
  intros Ha. revert p. induction Ha as [|y a Hy Ha IH]; intros [|p] Hp; simpl in *; try done.
  - injection Hp as ->. pose proof (vsum_nonneg a Ha). lra.
  - pose proof (IH p Hp). lra.
Qed.

Lemma vsum_nonpos a : Forall (fun x => x <= 0) a -> vsum a <= 0.
Proof. induction 1; simpl; [done|lra]. Qed.

(** Termwise [y <= L * x] sums to [vsum b <= L * vsum a], strictly when
    one term is strict. *)
Lemma vsum_le_scaled a b L : Forall2 (fun x y => y <= L * x) a b -> vsum b <= L * vsum a.
Proof. induction 1; simpl; [lra|]. nra. Qed.

Lemma vsum_lt_scaled a b L p x y :
  Forall2 (fun x y => y <= L * x) a b -> a !! p = Some x -> b !! p = Some y -> y < L * x ->
  vsum b < L * vsum a.
Proof.
  intros Hab. revert p. induction Hab as [|x' y' a b Hxy Hab IH]; intros [|p] Hx Hy Hlt;
    simpl in *; try done.
  - injection Hx as <-. injection Hy as <-. pose proof (vsum_le_scaled _ _ _ Hab). nra.
  - pose proof (IH p Hx Hy Hlt). nra.
Qed.

(** A positive sum has a positive term. *)
Lemma vsum_pos_lookup a : 0 < vsum a -> exists p y, a !! p = Some y /\ 0 < y.
Proof.
  induction a as [|z a IH]; simpl; intros Hs; [lra|].
  destruct (Qlt_le_dec 0 z) as [Hz|Hz]; [by exists 0%nat, z|].
  destruct IH as (p & y & ? & ?); [lra|]. by exists (S p), y.
Qed.

(** When a nonnegative term is below the sum, another term is positive. *)
Lemma vsum_pos_other a t x :
  Forall (Qle 0) a -> a !! t = Some x -> x < vsum a ->
  exists p y, p <> t /\ a !! p = Some y /\ 0 < y.
Proof.
  intros Ha. revert t. induction Ha as [|z a Hz Ha IH]; intros t Ht Hlt; [done|].
  simpl in Hlt. destruct t as [|t]; simpl in Ht.
  - injection Ht as ->. destruct (vsum_pos_lookup a ltac:(lra)) as (p & y & ? & ?).
    by exists (S p), y.
  - destruct (Qlt_le_dec 0 z) as [Hz'|Hz']; [by exists 0%nat, z|].
    destruct (IH t Ht ltac:(lra)) as (p & y & ? & ? & ?). exists (S p), y. split_and!; auto.
Qed.

Lemma lookup_vdiv a c p : vdiv a c !! p = (fun x => x / c) <$> a !! p.
Proof. revert p. induction a as [|x a IH]; intros [|p]; simpl; auto. Qed.

Lemma nonneg_vadd a b : Forall (Qle 0) a -> Forall (Qle 0) b -> Forall (Qle 0) (vadd a b).
Proof.
  intros Ha. revert b. induction Ha; intros b Hb; inversion Hb; subst; simpl; constructor; auto.
  lra.
Qed.

Lemma nonneg_vscale a c : 0 <= c -> Forall (Qle 0) a -> Forall (Qle 0) (vscale a c).
Proof. intros Hc Ha. apply Forall_fmap. eapply Forall_impl; [done|]. simpl; intros. nra. Qed.

Lemma nonneg_vdiv a c : 0 < c -> Forall (Qle 0) a -> Forall (Qle 0) (vdiv a c).
Proof.
  intros Hc Ha. apply Forall_fmap. eapply Forall_impl; [done|]. simpl; intros x Hx.
  apply Qle_shift_div_l; [done|lra].
Qed.

(** Normalising a non-negative row of positive sum gives a distribution. *)
Lemma normalize_wf a :
  Forall (Qle 0) a -> 0 < vsum a ->
  normalize a = Ok (vdiv a (vsum a)) /\ wf_dist (length a) (vdiv a (vsum a)).
Proof.
  intros Ha Hs. unfold normalize. destruct a as [|x a']; [simpl in Hs; lra|].
  destruct (Qeq_bool (vsum (x :: a')) 0) eqn:E; [apply Qeq_bool_eq in E; lra|].
  split; [done|]. split; [apply length_vdiv|]. split; [by apply nonneg_vdiv|].
  rewrite vsum_vdiv. field. lra.
Qed.

Lemma normalize_zero a : a <> [] -> vsum a == 0 -> normalize a = Err NumpyNaN.
Proof.
  intros Ha H. unfold normalize. destruct a; [done|].
  by rewrite (proj2 (Qeq_bool_iff _ _) H).
Qed.

Lemma py_fdiv_Ok a b : ~ b == 0 -> py_fdiv a b = Ok (a / b).
Proof.
  intros Hb. unfold py_fdiv. destruct (Qeq_bool b 0) eqn:E; [|done].
  by apply Qeq_bool_eq in E.
Qed.

Lemma wf_dist_b_sound D v : wf_dist_b D v = true -> wf_dist D v.
Proof.
  unfold wf_dist_b. intros H. apply andb_true_iff in H as [H H3].
  apply andb_true_iff in H as [H1 H2]. split_and!.
  - by apply Nat.eqb_eq.
  - apply Forall_forall. intros x Hx. apply Qle_bool_iff.
    apply forallb_forall with (x := x) in H2; [done|by apply list_elem_of_In].
  - by apply Qeq_bool_iff.
Qed.

Lemma l1_diff_nonneg a b : 0 <= l1_diff a b.
Proof.
  unfold l1_diff. apply vsum_nonneg. apply Forall_fmap, Forall_forall.
  intros x _. apply Qabs_nonneg.
Qed.

Lemma argmax_from_inv p best bv l :
  argmax_inv p best bv ->
  exists v, argmax_inv (p ++ l) (argmax_from best bv (length p) l) v.
Proof.
  revert p best bv. induction l as [|x l IH]; intros p best bv Hinv; simpl.
  - rewrite app_nil_r. eauto.
  - destruct Hinv as (Hb & Hle & Hlt).
    pose proof (lookup_lt_Some _ _ _ Hb) as Hbest.
    assert (Hlen : length (p ++ [x]) = S (length p)) by (rewrite length_app; simpl; lia).
    rewrite <- Hlen, cons_middle, app_assoc.
    assert (Hsnoc : forall j y, (p ++ [x]) !! j = Some y ->
              p !! j = Some y \/ (j = length p /\ y = x)).
    { intros j y Hj. apply lookup_app_Some in Hj as [Hj|[Hge Hj]]; [by left|right].
      apply list_lookup_singleton_Some in Hj as [? ->]. split; [lia|done]. }
    destruct (Qlt_le_dec bv x) as [Hx|Hx]; rewrite <- ?Hlen; apply IH; split_and!.
    + by apply list_lookup_middle.
    + intros j y [Hj|[_ ->]]%Hsnoc; [apply Qlt_le_weak; eapply Qle_lt_trans; [by eapply Hle|done]|apply Qle_refl].
    + intros j y Hj [Hy|[? _]]%Hsnoc; [eapply Qle_lt_trans; [by eapply Hle|done]|lia].
    + by apply lookup_app_l_Some.
    + intros j y [Hj|[_ ->]]%Hsnoc; [by eapply Hle|done].
    + intros j y Hj [Hy|[? _]]%Hsnoc; [by eapply Hlt|lia].
Qed.

Lemma argmax_inv_start x : argmax_inv [x] 0 x.
Proof.
  split_and!; [done| |].
  - intros j y Hj. apply list_lookup_singleton_Some in Hj as [_ ->]. apply Qle_refl.
  - intros j y Hj. lia.
Qed.

(** The index [np.argmax] returns is in range. *)
Lemma np_argmax_lt l k : np_argmax l = Ok k -> (k < length l)%nat.
Proof.
  destruct l as [|x l]; simpl; [done|]. intros [= <-].
  destruct (argmax_from_inv [x] 0 x l (argmax_inv_start x)) as (v & Hv & _).
  apply lookup_lt_Some in Hv. done.
Qed.

(** C38: [np.argmax] of a non-empty row returns an index holding its
    largest value, and every earlier index holds a strictly smaller value:
    ties go to the lowest index. *)
Theorem np_argmax_first_max l k :
  np_argmax l = Ok k ->
  exists v, l !! k = Some v /\
    (forall j x, l !! j = Some x -> x <= v) /\
    (forall j x, (j < k)%nat -> l !! j = Some x -> x < v).
Proof.
  destruct l as [|x l]; simpl; [done|]. intros [= <-].
  destruct (argmax_from_inv [x] 0 x l (argmax_inv_start x)) as (v & Hv). by exists v.
Qed.

Lemma py_max_foldl m0 l :
  let r := foldl (fun m y => if Qlt_le_dec m y then y else m) m0 l in
  (r = m0 \/ r ∈ l) /\ m0 <= r /\ (forall y, y ∈ l -> y <= r).
Proof.
  revert m0. induction l as [|x l IH]; intros m0; simpl.
  - split_and!; [by left|apply Qle_refl|]. intros y Hy. by apply not_elem_of_nil in Hy.
  - destruct (Qlt_le_dec m0 x) as [Hx|Hx];
      destruct (IH (if Qlt_le_dec m0 x then x else m0)) as (Hr & Hm & Hall);
      destruct (Qlt_le_dec m0 x); try lra; split_and!.
    + destruct Hr as [->|Hr]; right; [left|right]; done.
    + lra.
    + intros y [->|Hy]%elem_of_cons; [done|auto].
    + destruct Hr as [->|Hr]; [by left|by right; right].
    + done.
    + intros y [->|Hy]%elem_of_cons; [lra|auto].
Qed.

(** Python's [max] of a non-empty list is one of its elements and
    bounds all of them. *)
Lemma py_max_spec l m :
  py_max l = Ok m -> m ∈ l /\ forall y, y ∈ l -> y <= m.
Proof.
  destruct l as [|x l]; simpl; [done|]. intros [= <-].
  destruct (py_max_foldl x l) as (Hr & Hm & Hall). split.
  - destruct Hr as [->|Hr]; [left|right]; done.
  - intros y [->|Hy]%elem_of_cons; auto.
Qed.
End DistFacts.

(** ** Witness: a tie between decisions 1 and 2 goes to decision 1 *)

Lemma np_argmax_first_max_witness :
  Dist.np_argmax [1#3; 1#2; 1#2; 1#6] = Ok 1 /\
  exists v, [1#3; 1#2; 1#2; 1#6] !! 1 = Some v /\
    (forall j x, [1#3; 1#2; 1#2; 1#6] !! j = Some x -> (x <= v)%Q) /\
    (forall j x, (j < 1)%nat -> [1#3; 1#2; 1#2; 1#6] !! j = Some x -> (x < v)%Q).
Proof. split; [reflexivity|]. apply DistFacts.np_argmax_first_max. reflexivity. Defined.
