(* ===== verification/Subgroup.v ===== *)
(** * Subgroup detection (src/probabilistic_convergence.py, lines 214-266)

    The search keeps a pool [n_pool] of nodes not yet in a subgroup.  Each
    subgroup starts with the first node of the pool; a frontier list
    [p_members] of potential members is scanned with the index [p_index]:
    a node with the subgroup's dominant decision is moved from the pool and
    the frontier into the subgroup and its unseen neighbours still in the
    pool are appended to the frontier; any other node is skipped by
    advancing [p_index].  Afterwards every node receives the size of its
    subgroup in [subsizes], and a check that every node was assigned ends
    the program otherwise.

    The model keeps the Python state: the record [search] holds [n_pool],
    [subgroup_temp], [p_members] and [p_index]; [member_step] is one pass
    of the inner [while] body, [member_search] the inner loop (run with
    fuel), [new_subgroup] one pass of the outer loop and [find_subgroups]
    the outer loop.  [update_subsizes] is lines 256-266.

    The abstract specification is [lreach]: reachability along edges whose
    two ends share their dominant decision.  The theorems show that on a
    well-formed topology the search never raises, that the fuel
    [search_fuel N] is enough, that the subgroups partition the nodes, and
    that each subgroup is exactly the [lreach]-class of each of its
    members. *)

From stdpp Require Import sets.
From S2P Require Import Prelude Topology.
#[local] Set Warnings "-clear-no-such-hyp".

Module Subgroup.

Record search := mkSearch {
  n_pool : list nat;
  subgroup_temp : list nat;
  p_members : list nat;
  p_index : nat
}.

Section Search.
(** [connection_lists] and [deci_domi]. *)
Variable conn : list (list nat).
Variable deci_domi : list nat.

(** Lines 241-247: the neighbours of the new member that are not in
    [p_members], not in [subgroup_temp] and still in [n_pool] are
    appended to [p_members], in order. *)
Definition add_candidates (pool sub pm cands : list nat) : list nat :=
  foldl (fun pm member =>
           if decide (member ∈ pm) then pm
           else if decide (member ∈ sub) then pm
           else if decide (member ∈ pool) then pm ++ [member]
           else pm) pm cands.

(** Lines 233-251: one pass of the inner [while] body for the subgroup
    whose dominant decision is [current_domi]. *)
Definition member_step (current_domi : nat) (st : search) : res search :=
  let! new_member := py_get (p_members st) (p_index st) in
  let! d := py_get deci_domi new_member in
  if decide (d = current_domi) then
    let! pm := py_remove new_member (p_members st) in
    let! pool := py_remove new_member (n_pool st) in
    let sub := subgroup_temp st ++ [new_member] in
    let! p_members_new := py_get conn new_member in
    Ok (mkSearch pool sub (add_candidates pool sub pm p_members_new) (p_index st))
  else Ok (mkSearch (n_pool st) (subgroup_temp st) (p_members st) (S (p_index st))).

(** Line 232: [while p_index < len(p_members)]. *)
Fixpoint member_search (fuel : nat) (current_domi : nat) (st : search) : res search :=
  if decide (p_index st < length (p_members st)) then
    match fuel with
    | 0 => Err OutOfFuel
    | S fuel' =>
        let! st' := member_step current_domi st in
        member_search fuel' current_domi st'
    end
  else Ok st.

(** Lines 220-253: one subgroup, started from the first node of the
    pool; returns the remaining pool and the subgroup. *)
Definition new_subgroup (fuel : nat) (pool : list nat) : res (list nat * list nat) :=
  match pool with
  | [] => Err IndexError
  | first_member :: rest =>
      let! p_members := py_get conn first_member in
      let! current_domi := py_get deci_domi first_member in
      let! st := member_search fuel current_domi
                   (mkSearch rest [first_member] p_members 0) in
      Ok (n_pool st, subgroup_temp st)
  end.

(** Line 219: [while len(n_pool) != 0]. *)
Fixpoint find_subgroups (fuel inner : nat) (pool : list nat)
    (subgroups : list (list nat)) : res (list (list nat)) :=
  match pool with
  | [] => Ok subgroups
  | _ :: _ =>
      match fuel with
      | 0 => Err OutOfFuel
      | S fuel' =>
          let! '(pool', sub) := new_subgroup inner pool in
          find_subgroups fuel' inner pool' (subgroups ++ [sub])
      end
  end.

(** Lines 261-263: [subsizes[i] = size_temp; traverse_list.remove(i)]
    for the members of one subgroup. *)
Definition assign_sizes (acc : list nat * list nat) (sub : list nat)
    : res (list nat * list nat) :=
  res_foldl (fun '(subsizes, traverse_list) i =>
               let! subsizes' := py_set subsizes i (length sub) in
               let! traverse_list' := py_remove i traverse_list in
               Ok (subsizes', traverse_list')) acc sub.

(** Lines 257-266: sizes of all subgroups, then the check that every
    node was assigned ([print; sys.exit()] otherwise). *)
Definition update_subsizes (N : nat) (subsizes : list nat) (subgroups : list (list nat))
    : res (list nat) :=
  let! '(subsizes', traverse_list) := res_foldl assign_sizes (subsizes, seq 0 N) subgroups in
  if decide (traverse_list = []) then Ok subsizes' else Err SysExit.
End Search.

(** The fuel of the inner loop: each pass either removes a node from
    the pool or advances [p_index] within a frontier of at most [N]
    nodes, so [(N + 1) * (N + 1)] passes are enough. *)
Definition search_fuel (N : nat) : nat := S N * S N.

(** Lines 215-254 from [n_pool = range(net_size)]. *)
Definition detect_subgroups (conn : list (list nat)) (deci_domi : list nat) (N : nat)
    : res (list (list nat)) :=
  find_subgroups conn deci_domi N (search_fuel N) (seq 0 N) [].

(** The specification: [y] is reachable from [x] along edges whose two
    ends have the same dominant decision. *)
Inductive lreach (conn : list (list nat)) (deci_domi : list nat) : nat -> nat -> Prop :=
| lreach_refl x : lreach conn deci_domi x x
| lreach_step x y z :
    y ∈ conn !!! x -> deci_domi !!! y = deci_domi !!! x ->
    lreach conn deci_domi y z -> lreach conn deci_domi x z.


(** ** The invariants of the search *)
Section Invariants.
Variable conn : list (list nat).
Variable deci_domi : list nat.
Variable N : nat.

(** A group that contains every same-decision neighbour of its members. *)
Definition closed_group (g : list nat) : Prop :=
  forall x y, x ∈ g -> y ∈ conn !!! x -> deci_domi !!! y = deci_domi !!! x -> y ∈ g.

(** A finished subgroup: one decision, reachable from its first member
    and closed. *)
Definition good_group (g : list nat) : Prop :=
  exists f, f ∈ g /\
    (forall x, x ∈ g -> deci_domi !!! x = deci_domi !!! f /\ lreach conn deci_domi f x) /\
    closed_group g.

(** Every node [0 .. N-1] exactly once. *)
Definition covers (l : list nat) : Prop := NoDup l /\ forall x, x ∈ l <-> x < N.

(** The outer loop: pool and finished subgroups cover the nodes. *)
Definition outer_inv (pool : list nat) (gs : list (list nat)) : Prop :=
  covers (pool ++ concat gs) /\ Forall good_group gs.

(** The inner loop of the subgroup started at [f], with the nodes
    [done] of the finished subgroups. *)
Definition search_inv (done : list nat) (f : nat) (st : search) : Prop :=
  let '(mkSearch pool sub pm idx) := st in
  covers (pool ++ sub ++ done) /\
  f ∈ sub /\
  (forall x, x ∈ sub -> deci_domi !!! x = deci_domi !!! f /\ lreach conn deci_domi f x) /\
  NoDup pm /\ (forall x, x ∈ pm -> x ∉ sub) /\
  (forall k x, k < idx -> pm !! k = Some x -> deci_domi !!! x <> deci_domi !!! f) /\
  (forall x y, x ∈ sub -> y ∈ conn !!! x -> y ∈ sub \/ y ∈ pm \/ y ∈ done) /\
  (forall x, x ∈ pm -> exists z, z ∈ sub /\ x ∈ conn !!! z) /\
  idx <= length pm.

(** [subsizes] holds the size of every group of [gs1] at its members. *)
Definition sizes_ok (gs1 : list (list nat)) (subsizes : list nat) : Prop :=
  forall g i, g ∈ gs1 -> i ∈ g -> subsizes !! i = Some (length g).

(** Decreases at every pass of the inner loop. *)
Definition search_measure (st : search) : nat :=
  S N * length (n_pool st) + (length (p_members st) - p_index st).
End Invariants.

End Subgroup.

Module SubgroupFacts.
Import Subgroup.

Section Reach.
Context {N : nat} {conn : list (list nat)} `{!WfTopology N conn}.
Variable deci_domi : list nat.
Local Abbreviation lreach := (lreach conn deci_domi).

Lemma lreach_snoc f z x :
  lreach f z -> x ∈ conn !!! z -> deci_domi !!! x = deci_domi !!! z -> lreach f x.
Proof.
  induction 1; intros Hx Hl.
  - econstructor; [done|done|constructor].
  - econstructor; [done|done|auto].
Qed.

Lemma lreach_trans x y z : lreach x y -> lreach y z -> lreach x z.
Proof. induction 1; intros; [done|econstructor; eauto]. Qed.

Lemma lreach_sym x y : lreach x y -> lreach y x.
Proof.
  induction 1 as [|x y z Hy Hl _ IH]; [constructor|].
  eapply lreach_trans; [done|]. econstructor; [by apply topo_sym|done|constructor].
Qed.

Lemma lreach_same_label x y : lreach x y -> deci_domi !!! y = deci_domi !!! x.
Proof. induction 1; congruence. Qed.

Lemma closed_group_lreach g x y :
  closed_group conn deci_domi g -> x ∈ g -> lreach x y -> y ∈ g.
Proof. intros Hc Hx H. induction H; [done|]. eauto. Qed.
End Reach.

#[export] Instance covers_proper N : Proper (Permutation ==> iff) (covers N).
Proof.
  intros l l' Hp. unfold covers. rewrite Hp. split; intros [Hnd Hx]; split; [done| |done|];
    intros x; [rewrite <- Hp|rewrite Hp]; auto.
Qed.

(** The frontier after [add_candidates]: the old frontier followed by
    new nodes, each a candidate still in the pool and not in the
    subgroup; every candidate ends up in the frontier, in the subgroup
    or outside the pool. *)
Lemma add_candidates_spec pool sub pm cands :
  NoDup pm ->
  exists new, add_candidates pool sub pm cands = pm ++ new /\ NoDup (pm ++ new) /\
    (forall y, y ∈ new -> y ∈ cands /\ y ∈ pool /\ y ∉ sub) /\
    (forall m, m ∈ cands -> m ∈ pm ++ new \/ m ∈ sub \/ m ∉ pool).
Proof.
  revert pm. induction cands as [|m cands IH]; intros pm Hnd; simpl.
  - exists []. rewrite app_nil_r. split_and!; [done|done| |]; intros y Hy;
      by apply not_elem_of_nil in Hy.
  - destruct (decide (m ∈ pm)) as [Hm|Hm];
      [|destruct (decide (m ∈ sub)) as [Hs|Hs];
        [|destruct (decide (m ∈ pool)) as [Hp|Hp]]].
    + destruct (IH pm Hnd) as (new & -> & Hnd' & Hnew & Hall). exists new.
      split_and!; [done|done|set_solver|]. intros x [->|Hx]%elem_of_cons; [set_solver|auto].
    + destruct (IH pm Hnd) as (new & -> & Hnd' & Hnew & Hall). exists new.
      split_and!; [done|done|set_solver|]. intros x [->|Hx]%elem_of_cons; [auto|auto].
    + destruct (IH (pm ++ [m])) as (new & -> & Hnd' & Hnew & Hall).
      { apply NoDup_app. split_and!; [done| |apply NoDup_singleton]. set_solver. }
      exists (m :: new). rewrite <- app_assoc in *. simpl in *.
      split_and!; [done|done|set_solver|]. intros x Hx. set_solver.
    + destruct (IH pm Hnd) as (new & -> & Hnd' & Hnew & Hall). exists new.
      split_and!; [done|done|set_solver|]. intros x [->|Hx]%elem_of_cons; [auto|auto].
Qed.

Section Step.
Context {N : nat} {conn : list (list nat)} `{!WfTopology N conn}.
Variable deci_domi : list nat.
Hypothesis Hdomi : length deci_domi = N.
(** The subgroups found before the current one. *)
Variable gs : list (list nat).
Hypothesis Hgs : Forall (good_group conn deci_domi) gs.
Local Abbreviation finished := (concat gs).

Lemma finished_closed y x :
  y ∈ finished -> x ∈ conn !!! y -> deci_domi !!! x = deci_domi !!! y -> x ∈ finished.
Proof.
  intros (g & Hy & Hg)%elem_of_concat_iff Hx Hl.
  destruct (proj1 (Forall_forall _ _) Hgs g Hg) as (f & _ & _ & Hc).
  apply elem_of_concat_iff. exists g. split; [by eapply Hc|done].
Qed.

Lemma frontier_range f st x :
  search_inv conn deci_domi N finished f st -> x ∈ p_members st -> x < N.
Proof.
  destruct st as [pool sub pm idx]. intros (_ & _ & _ & _ & _ & _ & _ & Horig & _) Hx.
  destruct (Horig x Hx) as (z & _ & Hz). by eapply topo_range.
Qed.

(** A frontier node with the subgroup's decision is still in the pool:
    it cannot belong to a finished subgroup, which is closed. *)
Lemma frontier_in_pool f st x :
  search_inv conn deci_domi N finished f st -> x ∈ p_members st ->
  deci_domi !!! x = deci_domi !!! f -> x ∈ n_pool st.
Proof.
  intros Hinv Hx Hl. pose proof (frontier_range f st x Hinv Hx) as HxN.
  destruct st as [pool sub pm idx].
  destruct Hinv as ([Hnd Hcov] & _ & Hsub & _ & Hpm_sub & _ & _ & Horig & _). simpl in *.
  apply Hcov in HxN. rewrite !elem_of_app in HxN.
  destruct HxN as [|[Hs|Hfin]]; [done|by apply Hpm_sub in Hx|exfalso].
  destruct (Horig x Hx) as (z & Hz & Hzx).
  assert (z ∈ finished).
  { eapply finished_closed; [done|by apply topo_sym|].
    rewrite Hl. apply (proj1 (Hsub z Hz)). }
  apply (NoDup_app_disjoint sub finished z); [|done|done].
  by apply NoDup_app in Hnd as (_ & _ & ?).
Qed.

(** A skipped node: [p_index] advances past a node of another decision. *)
Lemma member_step_skip f pool sub pm idx x :
  search_inv conn deci_domi N finished f (mkSearch pool sub pm idx) ->
  pm !! idx = Some x -> deci_domi !!! x <> deci_domi !!! f ->
  search_inv conn deci_domi N finished f (mkSearch pool sub pm (S idx)).
Proof.
  intros (Hcov & Hf & Hsub & Hnd & Hpm_sub & Hpre & Hclo & Horig & Hidx) Hx Hne.
  split_and!; try done; [|apply lookup_lt_Some in Hx; lia].
  intros k y Hk Hy. destruct (decide (k = idx)) as [->|Hk'].
  - by rewrite Hx in Hy; injection Hy as <-.
  - apply (Hpre k); [lia|done].
Qed.

(** An accepted node: it leaves the pool and the frontier, joins the
    subgroup, and its new neighbours are appended to the frontier. *)
Lemma member_step_accept f pool sub pm idx x pool' :
  search_inv conn deci_domi N finished f (mkSearch pool sub pm idx) ->
  pm !! idx = Some x -> deci_domi !!! x = deci_domi !!! f -> pool ≡ₚ x :: pool' ->
  let st' := mkSearch pool' (sub ++ [x])
               (add_candidates pool' (sub ++ [x]) (delete idx pm) (conn !!! x)) idx in
  search_inv conn deci_domi N finished f st' /\
  search_measure N st' < search_measure N (mkSearch pool sub pm idx).
Proof.
  intros Hinv Hx Hl Hperm st'.
  assert (HxS : x ∈ pm) by (by eapply list_elem_of_lookup_2).
  pose proof (lookup_lt_Some _ _ _ Hx) as Hidx'.
  assert (HxN : x < N) by (by apply (frontier_range f (mkSearch pool sub pm idx))).
  destruct Hinv as (Hcov & Hf & Hsub & Hnd & Hpm_sub & Hpre & Hclo & Horig & Hidx).
  assert (Hpm : pm ≡ₚ x :: delete idx pm) by (by apply delete_Permutation).
  assert (Hnd0 : NoDup (x :: delete idx pm)) by (by rewrite <- Hpm).
  apply NoDup_cons in Hnd0 as [Hx0 Hnd0].
  assert (Hin0 : forall y, y ∈ delete idx pm <-> y ∈ pm /\ y <> x).
  { intros y. assert (Hm : y ∈ pm <-> y ∈ x :: delete idx pm) by (by rewrite Hpm at 1).
    rewrite Hm, elem_of_cons. split; [|tauto]. intros Hy. split; [by right|].
    intros ->. by apply Hx0. }
  assert (Hlen0 : length (delete idx pm) = length pm - 1)
    by (apply length_delete; by eexists).
  destruct (add_candidates_spec pool' (sub ++ [x]) (delete idx pm) (conn !!! x) Hnd0)
    as (new & Heq & Hnd' & Hnew & Hall).
  unfold st'. rewrite Heq.
  assert (Hcov' : covers N (pool' ++ (sub ++ [x]) ++ finished)).
  { assert (Hp2 : pool ++ sub ++ finished ≡ₚ pool' ++ (sub ++ [x]) ++ finished)
      by (rewrite Hperm; solve_Permutation).
    by rewrite <- Hp2. }
  assert (Hrange' : forall y, y ∈ delete idx pm ++ new -> y < N).
  { intros y [Hy|Hy]%elem_of_app.
    - apply Hin0 in Hy as [Hy _]. destruct (Horig y Hy) as (z & _ & Hz).
      by eapply topo_range.
    - destruct (Hnew y Hy) as (Hy' & _). by eapply topo_range. }
  split; [unfold search_inv; split_and!|].
  - done.
  - set_solver.
  - intros y [Hy|Hy%list_elem_of_singleton]%elem_of_app; [by apply Hsub|subst y].
    split; [done|]. destruct (Horig x HxS) as (z & Hz & Hzx).
    destruct (Hsub z Hz) as [Hlz Hrz].
    apply (lreach_snoc deci_domi f z x); [done|done|congruence].
  - done.
  - intros y [Hy|Hy]%elem_of_app.
    + apply Hin0 in Hy as [Hy Hyx]. apply Hpm_sub in Hy. set_solver.
    + by apply Hnew in Hy as (_ & _ & ?).
  - intros k y Hk Hy. apply (Hpre k); [done|].
    rewrite lookup_app_l in Hy; [|lia]. rewrite list_lookup_delete_lt in Hy; [done|lia].
  - intros y z [Hy|Hy%list_elem_of_singleton]%elem_of_app Hz.
    + destruct (Hclo y z Hy Hz) as [Hz'|[Hz'|Hz']]; [left; set_solver| |by right; right].
      destruct (decide (z = x)) as [->|Hzx]; [left; set_solver|].
      right; left. apply elem_of_app; left. by apply Hin0.
    + subst y. destruct (Hall z Hz) as [?|[?|Hout]]; [by right; left|by left|].
      assert (HzN : z < N) by (by eapply topo_range).
      apply Hcov' in HzN. set_solver.
  - intros y [Hy|Hy]%elem_of_app.
    + apply Hin0 in Hy as [Hy _]. destruct (Horig y Hy) as (z & ? & ?).
      exists z. split; [set_solver|done].
    + destruct (Hnew y Hy) as (? & _ & _). exists x. split; [set_solver|done].
  - rewrite length_app. lia.
  - unfold search_measure; simpl.
    pose proof (Permutation_length Hperm) as Hlp. simpl in Hlp.
    assert (length (delete idx pm ++ new) <= N).
    { apply NoDup_bounded_length; [done|exact Hrange']. }
    rewrite length_app in *. rewrite Hlp. nia.
Qed.

Lemma member_step_ok f st :
  search_inv conn deci_domi N finished f st -> p_index st < length (p_members st) ->
  exists st', member_step conn deci_domi (deci_domi !!! f) st = Ok st' /\
    search_inv conn deci_domi N finished f st' /\
    search_measure N st' < search_measure N st.
Proof.
  intros Hinv Hlt.
  destruct (lookup_lt_is_Some_2 _ _ Hlt) as [x Hx].
  assert (HxS : x ∈ p_members st) by (by eapply list_elem_of_lookup_2).
  pose proof (frontier_range f st x Hinv HxS) as HxN.
  unfold member_step. rewrite (proj2 (py_get_Ok _ _ _) Hx). simpl.
  rewrite (proj2 (py_get_Ok _ _ _) (list_lookup_lookup_total_lt deci_domi x ltac:(lia))).
  simpl. destruct (decide (deci_domi !!! x = deci_domi !!! f)) as [Hl|Hl].
  - pose proof (frontier_in_pool f st x Hinv HxS Hl) as Hpool.
    destruct st as [pool sub pm idx]. simpl in *.
    rewrite (py_remove_NoDup pm idx x); [|apply Hinv|done]. simpl.
    destruct (py_remove_elem_of x pool Hpool) as [pool' Hr]. rewrite Hr. simpl.
    rewrite (proj2 (py_get_Ok _ _ _)
               (list_lookup_lookup_total_lt conn x ltac:(rewrite topo_length; lia))).
    simpl. eexists; split; [done|].
    by apply member_step_accept; [| |done|apply py_remove_perm].
  - destruct st as [pool sub pm idx]. simpl in *. eexists; split; [done|].
    split; [by eapply member_step_skip|]. unfold search_measure; simpl. lia.
Qed.

(** The inner loop terminates within [search_measure] passes. *)
Lemma member_search_ok fuel f st :
  search_inv conn deci_domi N finished f st -> search_measure N st <= fuel ->
  exists st', member_search conn deci_domi fuel (deci_domi !!! f) st = Ok st' /\
    search_inv conn deci_domi N finished f st' /\
    length (p_members st') <= p_index st'.
Proof.
  revert st. induction fuel as [|fuel IH]; intros st Hinv Hm; simpl;
    (destruct (decide (p_index st < length (p_members st))) as [Hlt|Hge];
     [|exists st; split_and!; [done|done|lia]]).
  - unfold search_measure in Hm. lia.
  - destruct (member_step_ok f st Hinv Hlt) as (st' & -> & Hinv' & Hm'). simpl.
    apply IH; [done|lia].
Qed.

(** When the scan reaches the end of the frontier, the subgroup is
    closed under same-decision neighbours. *)
Lemma search_final_closed f st :
  search_inv conn deci_domi N finished f st -> length (p_members st) <= p_index st ->
  closed_group conn deci_domi (subgroup_temp st).
Proof.
  destruct st as [pool sub pm idx]; simpl.
  intros ([Hnd _] & _ & Hsub & _ & _ & Hpre & Hclo & _ & _) Hend x y Hx Hy Hl.
  destruct (Hclo x y Hx Hy) as [?|[Hpm|Hfin]]; [done| |]; exfalso.
  - apply list_elem_of_lookup in Hpm as [k Hk].
    apply (Hpre k y); [apply lookup_lt_Some in Hk; lia|done|].
    rewrite Hl. apply Hsub, Hx.
  - assert (x ∈ finished) by (eapply finished_closed; [done|by apply topo_sym|done]).
    apply (NoDup_app_disjoint sub finished x); [|done|done].
    by apply NoDup_app in Hnd as (_ & _ & ?).
Qed.
End Step.

Lemma covers_perm_seq N l : covers N l -> l ≡ₚ seq 0 N.
Proof.
  intros [Hnd Hx]. apply NoDup_Permutation; [done|apply NoDup_seq|].
  intros y. rewrite Hx, elem_of_seq. lia.
Qed.

Section Outer.
Context {N : nat} {conn : list (list nat)} `{!WfTopology N conn}.
Variable deci_domi : list nat.
Hypothesis Hdomi : length deci_domi = N.

Lemma search_start_inv gs f rest :
  covers N ((f :: rest) ++ concat gs) ->
  search_inv conn deci_domi N (concat gs) f (mkSearch rest [f] (conn !!! f) 0).
Proof.
  intros Hcov. unfold search_inv. split_and!.
  - assert (Hp : (f :: rest) ++ concat gs ≡ₚ rest ++ [f] ++ concat gs)
      by solve_Permutation.
    by rewrite <- Hp.
  - by left.
  - intros x ->%list_elem_of_singleton. split; [done|constructor].
  - apply topo_nodup.
  - intros x Hx ->%list_elem_of_singleton. by apply (topo_irrefl f).
  - intros k x Hk. lia.
  - intros x y ->%list_elem_of_singleton Hy. by right; left.
  - intros x Hx. exists f. split; [by left|done].
  - lia.
Qed.

Lemma covers_length l : covers N l -> length l = N.
Proof. intros H. rewrite (covers_perm_seq N l H). apply length_seq. Qed.

(** One pass of the outer loop finds a good subgroup and shrinks the
    pool. *)
Lemma new_subgroup_ok pool gs :
  outer_inv conn deci_domi N pool gs -> pool <> [] ->
  exists pool' sub,
    new_subgroup conn deci_domi (search_fuel N) pool = Ok (pool', sub) /\
    outer_inv conn deci_domi N pool' (gs ++ [sub]) /\ length pool' < length pool.
Proof.
  intros [Hcov Hgs] Hne. destruct pool as [|f rest]; [done|].
  assert (HfN : f < N) by (apply Hcov; by left).
  unfold new_subgroup.
  rewrite (proj2 (py_get_Ok _ _ _)
             (list_lookup_lookup_total_lt conn f ltac:(rewrite topo_length; lia))).
  rewrite (proj2 (py_get_Ok _ _ _) (list_lookup_lookup_total_lt deci_domi f ltac:(lia))).
  cbn [res_bind].
  pose proof (search_start_inv gs f rest Hcov) as Hinv0.
  destruct (member_search_ok deci_domi Hdomi gs Hgs (search_fuel N) f _ Hinv0) as (st & -> & Hinv & Hend).
  { unfold search_measure, search_fuel; simpl.
    pose proof (covers_length _ Hcov) as Hl. rewrite length_app in Hl. simpl in Hl.
    assert (length (conn !!! f) <= N).
    { apply NoDup_bounded_length; [apply topo_nodup|]. intros y. apply topo_range. }
    nia. }
  simpl. do 2 eexists. split; [done|].
  pose proof (search_final_closed deci_domi Hdomi gs Hgs f st Hinv Hend) as Hclosed.
  destruct st as [pool' sub pm idx]. simpl in *.
  destruct Hinv as (Hcov' & Hf & Hsub & _).
  split; [split|].
  - rewrite concat_app. simpl. rewrite app_nil_r.
    assert (Hp : pool' ++ sub ++ concat gs ≡ₚ pool' ++ concat gs ++ sub)
      by solve_Permutation.
    by rewrite <- Hp.
  - apply Forall_app. split; [done|]. apply Forall_singleton.
    exists f. split_and!; [done|done|done].
  - apply covers_length in Hcov, Hcov'. simpl in Hcov, Hcov'.
    rewrite ?length_app in Hcov, Hcov'.
    assert (1 <= length sub) by (destruct sub; [by apply not_elem_of_nil in Hf|simpl; lia]).
    rewrite length_app in Hcov'. simpl. lia.
Qed.

Lemma find_subgroups_ok fuel pool gs :
  outer_inv conn deci_domi N pool gs -> length pool <= fuel ->
  exists gs', find_subgroups conn deci_domi fuel (search_fuel N) pool gs = Ok gs' /\
    outer_inv conn deci_domi N [] gs'.
Proof.
  revert pool gs. induction fuel as [|fuel IH]; intros pool gs Hinv Hlen.
  - destruct pool; [|simpl in Hlen; lia]. by exists gs.
  - destruct pool as [|f rest] eqn:Hpool; [by exists gs|]. rewrite <- Hpool in *.
    destruct (new_subgroup_ok pool gs Hinv) as (pool' & sub & Hnew & Hinv' & Hlt);
      [by subst|].
    simpl. subst pool. rewrite Hnew. simpl. apply IH; [done|lia].
Qed.

Lemma detect_subgroups_ok :
  exists gs, detect_subgroups conn deci_domi N = Ok gs /\ outer_inv conn deci_domi N [] gs.
Proof.
  apply find_subgroups_ok; [|by rewrite length_seq].
  split; [|constructor]. simpl. rewrite app_nil_r.
  split; [apply NoDup_seq|]. intros x. rewrite elem_of_seq. lia.
Qed.

Lemma detect_subgroups_inv gs :
  detect_subgroups conn deci_domi N = Ok gs -> outer_inv conn deci_domi N [] gs.
Proof. destruct detect_subgroups_ok as (gs' & Hd & Hinv). rewrite Hd. by intros [= <-]. Qed.

(** C6: on a well-formed topology with a dominant decision for every
    node, the subgroup search of lines 215-254 never raises (no
    ValueError from [n_pool.remove], no IndexError) and finishes within
    the fuel [search_fuel N]. *)
Theorem detect_subgroups_terminates :
  exists gs, detect_subgroups conn deci_domi N = Ok gs.
Proof. destruct detect_subgroups_ok as (gs & ? & _). eauto. Qed.

(** C7: the subgroups partition the nodes: every node is in exactly one
    subgroup, and no subgroup is empty. *)
Theorem detect_subgroups_partition gs :
  detect_subgroups conn deci_domi N = Ok gs ->
  concat gs ≡ₚ seq 0 N /\ Forall (fun g => g <> []) gs.
Proof.
  intros [Hcov Hgood]%detect_subgroups_inv. split.
  - by apply covers_perm_seq.
  - eapply Forall_impl; [done|]. intros g (f & Hf & _) ->. by apply not_elem_of_nil in Hf.
Qed.

(** C4: each subgroup is exactly the set of nodes reachable from any of
    its members along edges between nodes of equal dominant decision:
    the search computes the connected components of the
    label-restricted graph. *)
Theorem detect_subgroups_components gs g x y :
  detect_subgroups conn deci_domi N = Ok gs -> g ∈ gs -> x ∈ g ->
  (y ∈ g <-> lreach conn deci_domi x y).
Proof.
  intros [_ Hgood]%detect_subgroups_inv Hg Hx.
  destruct (proj1 (Forall_forall _ _) Hgood g Hg) as (f & Hf & Hsub & Hc).
  split.
  - intros Hy. apply (lreach_trans deci_domi _ f).
    + apply lreach_sym. apply Hsub, Hx.
    + apply Hsub, Hy.
  - by apply closed_group_lreach.
Qed.
End Outer.

Section Sizes.
Variable N : nat.

Lemma assign_sizes_ok gs1 g ss tl :
  NoDup (concat gs1 ++ g) -> (forall i, i ∈ g -> i < N) ->
  length ss = N -> concat gs1 ++ tl ≡ₚ seq 0 N -> sizes_ok gs1 ss ->
  exists ss' tl', assign_sizes (ss, tl) g = Ok (ss', tl') /\ length ss' = N /\
    concat gs1 ++ g ++ tl' ≡ₚ seq 0 N /\ sizes_ok (gs1 ++ [g]) ss'.
Proof.
  intros Hnd Hr Hlen Hperm Hok. unfold assign_sizes.
  destruct (res_foldl_ok
    (fun '(subsizes, traverse_list) i =>
       let! subsizes' := py_set subsizes i (length g) in
       let! traverse_list' := py_remove i traverse_list in
       Ok (subsizes', traverse_list'))
    (fun m1 '(ss', tl') => length ss' = N /\ concat gs1 ++ m1 ++ tl' ≡ₚ seq 0 N /\
       sizes_ok gs1 ss' /\ forall i, i ∈ m1 -> ss' !! i = Some (length g))
    g (ss, tl)) as ([ss' tl'] & Hrun & Hl' & Hp' & Hok' & Hg').
  - split_and!; [done|done|done|]. intros i Hi. by apply not_elem_of_nil in Hi.
  - intros m1 i m2 [ss1 tl1] -> (Hl1 & Hp1 & Hok1 & Hm1).
    assert (HiN : i < N) by (apply Hr; set_solver).
    assert (Hfresh : i ∉ concat gs1 ++ m1).
    { rewrite app_assoc in Hnd. apply NoDup_app in Hnd as (_ & Hd & _).
      intros Hi. apply (Hd i Hi). by left. }
    assert (Hin : i ∈ tl1).
    { assert (Hs : i ∈ concat gs1 ++ m1 ++ tl1) by (rewrite Hp1, elem_of_seq; lia).
      set_solver. }
    destruct (py_remove_elem_of i tl1 Hin) as [tl2 Hrm].
    pose proof (py_remove_perm _ _ _ Hrm) as Htl.
    rewrite py_set_Ok; [|lia]. simpl. rewrite Hrm. simpl. eexists; split; [done|].
    split_and!.
    + by rewrite length_insert.
    + rewrite <- Hp1, Htl. solve_Permutation.
    + intros g' j Hg' Hj. rewrite list_lookup_insert_ne; [by apply Hok1|].
      intros ->. apply Hfresh. apply elem_of_app; left. apply elem_of_concat_iff. eauto.
    + intros j [Hj|Hj%list_elem_of_singleton]%elem_of_app.
      * rewrite list_lookup_insert_ne; [by apply Hm1|]. intros ->. set_solver.
      * subst j. apply list_lookup_insert_eq. lia.
  - exists ss', tl'. split_and!; [done|done|done|].
    intros g' i [Hg|Hg%list_elem_of_singleton]%elem_of_app Hi; [by apply Hok'|subst g'; auto].
Qed.

Lemma assign_all_ok gs ss0 :
  NoDup (concat gs) -> (forall i, i ∈ concat gs -> i < N) -> length ss0 = N ->
  exists ss tl, res_foldl assign_sizes (ss0, seq 0 N) gs = Ok (ss, tl) /\
    length ss = N /\ concat gs ++ tl ≡ₚ seq 0 N /\ sizes_ok gs ss.
Proof.
  intros Hnd Hr Hlen.
  destruct (res_foldl_ok assign_sizes
    (fun gs1 '(ss, tl) => length ss = N /\ concat gs1 ++ tl ≡ₚ seq 0 N /\ sizes_ok gs1 ss)
    gs (ss0, seq 0 N)) as ([ss tl] & Hrun & Hl & Hp & Hok).
  - split_and!; [done|done|]. intros g i Hg. by apply not_elem_of_nil in Hg.
  - intros gs1 g gs2 [ss1 tl1] -> (Hl1 & Hp1 & Hok1).
    rewrite concat_app in Hnd, Hr. simpl in Hnd, Hr.
    destruct (assign_sizes_ok gs1 g ss1 tl1) as (ss' & tl' & Hrun & ? & Hp' & ?).
    + rewrite app_assoc in Hnd. by apply NoDup_app in Hnd as (? & _ & _).
    + intros i Hi. apply Hr. set_solver.
    + done.
    + done.
    + done.
    + exists (ss', tl'). split; [done|]. split_and!; [done| |done].
      rewrite concat_app. simpl. rewrite app_nil_r, <- app_assoc. done.
  - by exists ss, tl.
Qed.

(** The sizes that [update_subsizes] writes, for the proofs that build on them. *)
Lemma update_subsizes_sizes ss0 gs :
  concat gs ≡ₚ seq 0 N -> length ss0 = N ->
  exists ss, update_subsizes N ss0 gs = Ok ss /\ length ss = N /\
    forall g i, g ∈ gs -> i ∈ g -> ss !! i = Some (length g).
Proof.
  intros Hp Hlen. unfold update_subsizes.
  destruct (assign_all_ok gs ss0) as (ss & tl & -> & Hl & Hp' & Hok); [by rewrite Hp; apply NoDup_seq| |done|].
  { intros i. rewrite Hp, elem_of_seq. lia. }
  simpl. rewrite Hp in Hp'. rewrite <- (app_nil_r (seq 0 N)) in Hp' at 2.
  apply Permutation_app_inv_l, Permutation_nil_r in Hp'. subst tl. simpl. eauto.
Qed.

(** C18: when the subgroups partition the nodes, lines 256-266 run
    without raising or exiting, and [subsizes[i]] is the size of the
    subgroup of [i]. *)
Theorem update_subsizes_spec ss0 gs :
  concat gs ≡ₚ seq 0 N -> length ss0 = N ->
  exists ss, update_subsizes N ss0 gs = Ok ss /\ length ss = N /\
    forall g i, g ∈ gs -> i ∈ g -> ss !! i = Some (length g).
Proof. apply update_subsizes_sizes. Qed.

(** C33: a node missing from every subgroup makes the check of lines
    264-266 fail: the program prints its error and exits. *)
Theorem update_subsizes_missing ss0 gs x :
  NoDup (concat gs) -> (forall i, i ∈ concat gs -> i < N) ->
  x < N -> x ∉ concat gs -> length ss0 = N ->
  update_subsizes N ss0 gs = Err SysExit.
Proof.
  intros Hnd Hr Hx Hnot Hlen. unfold update_subsizes.
  destruct (assign_all_ok gs ss0) as (ss & tl & -> & _ & Hp & _); [done|done|done|].
  simpl. destruct (decide (tl = [])) as [->|]; [|done].
  exfalso. apply Hnot. rewrite app_nil_r in Hp.
  rewrite Hp, elem_of_seq. lia.
Qed.
End Sizes.
End SubgroupFacts.

(** ** Witnesses: a five-node network

    Edges 0-1, 1-2, 2-3 and 0-4; dominant decisions [0; 0; 1; 0; 1].  The
    subgroups are [{0, 1}], [{2}], [{3}] and [{4}]: node 4 shares node 2's
    decision but is not connected to it. *)

Lemma detect_subgroups_terminates_witness :
  WfTopology 5 [[1; 4]; [0; 2]; [1; 3]; [2]; [0]] /\ length [0; 0; 1; 0; 1] = 5 /\
  exists gs, Subgroup.detect_subgroups [[1; 4]; [0; 2]; [1; 3]; [2]; [0]] [0; 0; 1; 0; 1] 5 = Ok gs.
Proof.
  assert (Hwf : WfTopology 5 [[1; 4]; [0; 2]; [1; 3]; [2]; [0]])
    by (apply wf_topology_b_sound; vm_compute; reflexivity).
  split; [exact Hwf|]. split; [reflexivity|].
  exact (SubgroupFacts.detect_subgroups_terminates [0; 0; 1; 0; 1] eq_refl).
Defined.

Lemma detect_subgroups_partition_witness :
  Subgroup.detect_subgroups [[1; 4]; [0; 2]; [1; 3]; [2]; [0]] [0; 0; 1; 0; 1] 5 =
    Ok [[0; 1]; [2]; [3]; [4]] /\
  concat [[0; 1]; [2]; [3]; [4]] ≡ₚ seq 0 5 /\ Forall (fun g => g <> []) [[0; 1]; [2]; [3]; [4]].
Proof.
  assert (Hwf : WfTopology 5 [[1; 4]; [0; 2]; [1; 3]; [2]; [0]])
    by (apply wf_topology_b_sound; vm_compute; reflexivity).
  split; [vm_compute; reflexivity|].
  apply (SubgroupFacts.detect_subgroups_partition [0; 0; 1; 0; 1] eq_refl).
  vm_compute; reflexivity.
Defined.

Lemma detect_subgroups_components_witness :
  Subgroup.detect_subgroups [[1; 4]; [0; 2]; [1; 3]; [2]; [0]] [0; 0; 1; 0; 1] 5 =
    Ok [[0; 1]; [2]; [3]; [4]] /\
  (1 ∈ [0; 1] <-> Subgroup.lreach [[1; 4]; [0; 2]; [1; 3]; [2]; [0]] [0; 0; 1; 0; 1] 0 1).
Proof.
  assert (Hwf : WfTopology 5 [[1; 4]; [0; 2]; [1; 3]; [2]; [0]])
    by (apply wf_topology_b_sound; vm_compute; reflexivity).
  split; [vm_compute; reflexivity|].
  apply (SubgroupFacts.detect_subgroups_components [0; 0; 1; 0; 1] eq_refl [[0; 1]; [2]; [3]; [4]]).
  - vm_compute; reflexivity.
  - by left.
  - by left.
Defined.

Lemma update_subsizes_spec_witness :
  concat [[0; 1]; [2]; [3]; [4]] ≡ₚ seq 0 5 /\ length [0; 0; 0; 0; 0] = 5 /\
  exists ss, Subgroup.update_subsizes 5 [0; 0; 0; 0; 0] [[0; 1]; [2]; [3]; [4]] = Ok ss /\
    length ss = 5 /\
    forall g i, g ∈ [[0; 1]; [2]; [3]; [4]] -> i ∈ g -> ss !! i = Some (length g).
Proof.
  assert (Hp : concat [[0; 1]; [2]; [3]; [4]] ≡ₚ seq 0 5) by reflexivity.
  split; [exact Hp|]. split; [reflexivity|].
  apply (SubgroupFacts.update_subsizes_spec 5); [exact Hp|reflexivity].
Defined.

Lemma update_subsizes_missing_witness :
  NoDup (concat [[0; 1]; [3]]) /\ (forall i, i ∈ concat [[0; 1]; [3]] -> i < 4) /\
  2 < 4 /\ (2 ∉ concat [[0; 1]; [3]]) /\ length [0; 0; 0; 0] = 4 /\
  Subgroup.update_subsizes 4 [0; 0; 0; 0] [[0; 1]; [3]] = Err SysExit.
Proof.
  assert (Hnd : NoDup (concat [[0; 1]; [3]])) by (apply NoDup_ListNoDup; vm_compute; repeat constructor; simpl; lia).
  assert (Hr : forall i, i ∈ concat [[0; 1]; [3]] -> i < 4)
    by (intros i Hi; simpl in Hi; repeat (apply elem_of_cons in Hi as [->|Hi]; [lia|]);
        by apply not_elem_of_nil in Hi).
  assert (Hx : 2 ∉ concat [[0; 1]; [3]])
    by (simpl; intros Hi; repeat (apply elem_of_cons in Hi as [Hi|Hi]; [lia|]);
        by apply not_elem_of_nil in Hi).
  split; [done|]. split; [done|]. split; [lia|]. split; [done|]. split; [reflexivity|].
  exact (SubgroupFacts.update_subsizes_missing 4 [0; 0; 0; 0] [[0; 1]; [3]] 2 Hnd Hr ltac:(lia) Hx eq_refl).
Defined.
