(* ===== verification/Update.v ===== *)
(** * The per-node distribution update (lines 268-345)

    At the end of each round the program copies [deci_dist] into the
    snapshot [deci_dist_t] (line 269) and then, for [i] in order, rewrites
    row [i] of the live array [deci_dist]:
    - [all_converged] is the test of lines 271-276;
    - [converged_update] is lines 281-336: the equal-weight average of the
      snapshot rows of [i] and its neighbours, then the pairwise L1
      differences of [comb_pool = [i] + connection_lists[i]] read from the
      live array, and the sharpening [sharpen] when their maximum is below
      [dist_diff_thres];
    - [sharpen] is lines 305-333: [bubble_sort] (lines 314-326) ranks the
      row, [apply_multiplier] (lines 328-330) multiplies the entry of rank
      [j] by [small_end + j/(deci_num-1) * (large_end - small_end)];
    - [divergent_update] is lines 339-345, the average weighted by
      [subsizes];
    - [update_node] dispatches, [update_all] is the loop of line 270.

    Row [i] is written several times inside one node's update, as the
    code does; every write goes through [py_set] on the live array.
    [np.power] (line 311) is the operation of the class [NpPower]; the
    theorems assume only the laws of [NpPowerLaws] that [r ** p] has for
    [0 <= r < 1] and [p > 0]. *)

From Stdlib Require Import Morphisms.
From stdpp Require Import sets.
From S2P Require Import Prelude Distribution.

Module Update.
Import Dist.
Local Open Scope Q_scope.

(** [np.power(r, p)] on floats. *)
Class NpPower := np_power : Q -> Q -> Q.

(** What the theorems use of [np.power]: on [0 <= r < 1] and [p > 0] the
    power lies in [[0, 1)], is [0] at [r = 0] and positive for [r > 0]. *)
Class NpPowerLaws `{NpPower} := {
  np_power_proper :: Proper (Qeq ==> Qeq ==> Qeq) np_power;
  np_power_range r p : 0 <= r -> r < 1 -> 0 < p ->
    0 <= np_power r p /\ np_power r p < 1;
  np_power_zero p : 0 < p -> np_power 0 p == 0;
  np_power_pos r p : 0 < r -> r < 1 -> 0 < p -> 0 < np_power r p
}.

(** Line 162 and line 172. *)
Definition dist_diff_thres : Q := 3 # 10.
Definition dist_diff_power : Q := 3 # 10.

(** A Python int used as a float. *)
Definition Q_of_nat (n : nat) : Q := inject_Z (Z.of_nat n).

(** The pairs [(comb_pool[j], comb_pool[k])] for [j < k], in the order
    of the two nested loops of lines 296-299. *)
Fixpoint comb_pairs (l : list nat) : list (nat * nat) :=
  match l with
  | [] => []
  | x :: l' => map (pair x) l' ++ comb_pairs l'
  end.

(** A row in ascending order. *)
Definition ascending (v : dist) : Prop :=
  forall p q x y, (p < q)%nat -> v !! p = Some x -> v !! q = Some y -> x <= y.

(** The row of node [j] ([[]] out of range) and its subgroup size as a
    float ([0] out of range). *)
Definition row_of (dd : list dist) (j : nat) : dist := default [] (dd !! j).
Definition weight (subsizes : list nat) (j : nat) : Q := Q_of_nat (default 0%nat (subsizes !! j)).

(** The reference sums of the averaging loops: [Σ_{j in pool} g j] on
    rows of length [D], and [Σ_{j in pool} w j]. *)
Definition sum_rows (D : nat) (g : nat -> dist) (pool : list nat) : dist :=
  foldr (fun j acc => vadd (g j) acc) (replicate D 0) pool.
Definition sum_weights (w : nat -> Q) (pool : list nat) : Q :=
  foldr (fun j acc => w j + acc) 0 pool.

(** What the update loop needs of its inputs: [N] rows that are
    distributions over [D] decisions, neighbour lists of nodes in range,
    and a dominant decision and a positive subgroup size per node. *)
Definition update_pre (D N : nat) (conn : list (list nat)) (domi subsizes : list nat)
    (dd : list dist) : Prop :=
  length dd = N /\ (forall j r, dd !! j = Some r -> wf_dist D r) /\
  length conn = N /\ (forall i nbrs j, conn !! i = Some nbrs -> j ∈ nbrs -> (j < N)%nat) /\
  length domi = N /\ length subsizes = N /\
  (forall j s, subsizes !! j = Some s -> (0 < s)%nat).

(** [update_pre] as a boolean test, for concrete inputs, and the test
    that no node is isolated. *)
Definition update_pre_b (D N : nat) (conn : list (list nat)) (domi subsizes : list nat)
    (dd : list dist) : bool :=
  (length dd =? N)%nat && forallb (wf_dist_b D) dd &&
  (length conn =? N)%nat && forallb (forallb (fun j => j <? N)%nat) conn &&
  (length domi =? N)%nat && (length subsizes =? N)%nat &&
  forallb (fun s => 0 <? s)%nat subsizes.
Definition no_isolated_b (conn : list (list nat)) : bool :=
  forallb (fun l => negb (bool_decide (l = []))) conn.

Section Node.
Context `{NpPower}.
Variable deci_num : nat.
Variable connection_lists : list (list nat).
Variable deci_domi : list nat.
Variable subsizes : list nat.

(** Lines 272-276: [converged] stays [True] unless a neighbour's dominant
    decision differs, where the loop breaks. *)
Fixpoint all_converged (host_domi : nat) (nbrs : list nat) : res bool :=
  match nbrs with
  | [] => Ok true
  | neighbor :: rest =>
      let! d := py_get deci_domi neighbor in
      if decide (host_domi = d) then all_converged host_domi rest else Ok false
  end.

(** One comparison of the bubble sort, lines 318-326: on [dist_temp[k] >
    dist_temp[k+1]] both arrays exchange entries [k] and [k+1]. *)
Definition bubble_step (st : dist * list nat) (k : nat) : res (dist * list nat) :=
  let '(dist_temp, sort_index) := st in
  let! a := py_get dist_temp k in
  let! b := py_get dist_temp (S k) in
  if Qlt_le_dec b a then
    let! dist_temp' := py_swap k dist_temp in
    let! sort_index' := py_swap k sort_index in
    Ok (dist_temp', sort_index')
  else Ok st.

(** Lines 314-326: [sort_index = range(deci_num)], then the passes
    [j in range(deci_num-1)], each over [k in range(deci_num-1-j)]. *)
Definition bubble_sort (row : dist) : res (dist * list nat) :=
  res_foldl
    (fun st j => res_foldl bubble_step st (seq 0 (deci_num - 1 - j)))
    (row, seq 0 deci_num) (seq 0 (deci_num - 1)).

(** The multiplier of rank [j], line 329; [float(j)/(deci_num-1)] raises
    ZeroDivisionError when [deci_num] is 1. *)
Definition multiplier (small_end large_end : Q) (j : nat) : res Q :=
  let! f := py_fdiv (Q_of_nat j) (inject_Z (Z.of_nat deci_num - 1)) in
  Ok (small_end + f * (large_end - small_end)).

(** Line 330: [deci_dist[i][sort_index[j]] *= multiplier]. *)
Definition apply_multiplier (small_end large_end : Q) (sort_index : list nat)
    (row : dist) (j : nat) : res dist :=
  let! m := multiplier small_end large_end j in
  let! s := py_get sort_index j in
  let! x := py_get row s in
  py_set row s (x * m).

(** Lines 305-333, on the current row [row] of node [i]. *)
Definition sharpen (dist_diff_max : Q) (row : dist) : res dist :=
  let dist_diff_ratio := dist_diff_max / dist_diff_thres in
  let! inv := py_fdiv 1 (Q_of_nat deci_num) in
  let small_end := inv * np_power dist_diff_ratio dist_diff_power in
  let! two := py_fdiv 2 (Q_of_nat deci_num) in
  let large_end := two - small_end in
  let! '(_, sort_index) := bubble_sort row in
  let! row' := res_foldl (apply_multiplier small_end large_end sort_index)
                 row (seq 0 deci_num) in
  normalize row'.

(** Lines 296-300: the differences of the pairs of [comb_pool], read from
    the live array [dd]. *)
Definition dist_diffs (dd : list dist) (comb_pool : list nat) : res (list Q) :=
  res_foldl (fun acc '(j_node, k_node) =>
      let! a := py_get dd j_node in
      let! b := py_get dd k_node in
      Ok (acc ++ [l1_diff a b]))
    [] (comb_pairs comb_pool).

(** Line 284, one neighbour: [deci_dist[i] = deci_dist[i] + deci_dist_t[neighbor]]. *)
Definition add_equal (dt : list dist) (i : nat) (dd : list dist) (neighbor : nat)
    : res (list dist) :=
  let! cur := py_get dd i in
  let! v := py_get dt neighbor in
  py_set dd i (vadd cur v).

(** Line 342, one neighbour: the same with the neighbour's row scaled by
    its subgroup size. *)
Definition add_weighted (dt : list dist) (i : nat) (dd : list dist) (neighbor : nat)
    : res (list dist) :=
  let! cur := py_get dd i in
  let! v := py_get dt neighbor in
  let! s := py_get subsizes neighbor in
  py_set dd i (vadd cur (vscale v (Q_of_nat s))).

(** Lines 286-287 / 344-345: [deci_dist[i] = deci_dist[i] / np.sum(deci_dist[i])]. *)
Definition normalize_row (dd : list dist) (i : nat) : res (list dist) :=
  let! cur := py_get dd i in
  let! row := normalize cur in
  py_set dd i row.

(** Lines 281-336, the node's neighbours being [nbrs]. *)
Definition converged_update (dt dd : list dist) (i : nat) (nbrs : list nat)
    : res (list dist) :=
  let! host := py_get dt i in
  let! dd1 := py_set dd i (vscale host 1) in
  let! dd2 := res_foldl (add_equal dt i) dd1 nbrs in
  let! dd3 := normalize_row dd2 i in
  let! dist_diff := dist_diffs dd3 (i :: nbrs) in
  let! dist_diff_max := py_max dist_diff in
  if Qlt_le_dec dist_diff_max dist_diff_thres then
    let! cur := py_get dd3 i in
    let! row := sharpen dist_diff_max cur in
    py_set dd3 i row
  else Ok dd3.

(** Lines 339-345. *)
Definition divergent_update (dt dd : list dist) (i : nat) (nbrs : list nat)
    : res (list dist) :=
  let! host := py_get dt i in
  let! si := py_get subsizes i in
  let! dd1 := py_set dd i (vscale host (Q_of_nat si)) in
  let! dd2 := res_foldl (add_weighted dt i) dd1 nbrs in
  normalize_row dd2 i.

(** The body of the loop of line 270 for node [i]. *)
Definition update_node (dt dd : list dist) (i : nat) : res (list dist) :=
  let! host_domi := py_get deci_domi i in
  let! nbrs := py_get connection_lists i in
  let! converged := all_converged host_domi nbrs in
  if converged then converged_update dt dd i nbrs
  else divergent_update dt dd i nbrs.

(** Lines 269-270: the snapshot is the array before the loop. *)
Definition update_all (net_size : nat) (deci_dist : list dist) : res (list dist) :=
  res_foldl (update_node deci_dist) deci_dist (seq 0 net_size).

End Node.
End Update.

Module UpdateFacts.
Import Dist DistFacts Update.
Local Open Scope Q_scope.
#[local] Set Warnings "-clear-no-such-hyp".

(** ** The exchange of two adjacent entries *)

Lemma lookup_swap {A} (l : list A) k a b p :
  l !! k = Some a -> l !! S k = Some b ->
  (<[S k:=a]> (<[k:=b]> l)) !! p =
    if decide (p = S k) then Some a else if decide (p = k) then Some b else l !! p.
Proof.
  intros Ha Hb. pose proof (lookup_lt_Some _ _ _ Hb).
  rewrite !list_lookup_insert, length_insert.
  repeat case_decide; subst; done || lia.
Qed.

Lemma swap_perm {A} (l : list A) k a b :
  l !! k = Some a -> l !! S k = Some b -> <[S k:=a]> (<[k:=b]> l) ≡ₚ l.
Proof.
  intros Ha Hb.
  assert (Hl : l = take k l ++ a :: b :: drop (S (S k)) l).
  { rewrite <- (take_drop_middle l k a Ha) at 1. f_equal. f_equal.
    by apply drop_S. }
  pose proof (lookup_lt_Some _ _ _ Ha) as Hk.
  assert (Hlen : length (take k l) = k) by (rewrite length_take; lia).
  rewrite Hl at 1 2.
  rewrite insert_app_r_alt by lia. rewrite Hlen, Nat.sub_diag. simpl.
  rewrite insert_app_r_alt by lia. rewrite Hlen. rewrite Nat.sub_succ_l by lia.
  rewrite Nat.sub_diag. simpl. apply Permutation_app_head, perm_swap.
Qed.

Lemma Q_of_nat_pos n : (0 < n)%nat -> 0 < Q_of_nat n.
Proof. intros. unfold Qlt, Q_of_nat. simpl. lia. Qed.

(** ** The accumulation loops of lines 282-287 and 340-345 *)

Lemma row_loop (step : list dist -> nat -> res (list dist)) (g : nat -> dist) i nbrs dd r0 :
  dd !! i = Some r0 ->
  (forall dd' cur nb, nb ∈ nbrs -> dd' !! i = Some cur ->
     step dd' nb = Ok (<[i:=vadd cur (g nb)]> dd')) ->
  res_foldl step dd nbrs = Ok (<[i:=foldl (fun acc nb => vadd acc (g nb)) r0 nbrs]> dd).
Proof.
  revert dd r0. induction nbrs as [|nb nbrs IH]; intros dd r0 Hr0 Hstep; simpl.
  - by rewrite list_insert_id.
  - pose proof (lookup_lt_Some _ _ _ Hr0).
    rewrite (Hstep dd r0 nb ltac:(set_solver) Hr0). simpl.
    rewrite (IH _ (vadd r0 (g nb))).
    + by rewrite list_insert_insert_eq.
    + rewrite list_lookup_insert. rewrite decide_True; [done|lia].
    + intros. apply Hstep; [set_solver|done].
Qed.

Section Sums.
Variables (D : nat) (g : nat -> dist).

Lemma length_sum_rows pool :
  (forall j, j ∈ pool -> length (g j) = D) -> length (sum_rows D g pool) = D.
Proof.
  induction pool as [|j pool IH]; intros Hl; simpl; [apply length_replicate|].
  rewrite length_vadd; [apply Hl; set_solver|]. rewrite IH; [|set_solver]. apply Hl; set_solver.
Qed.

Lemma foldl_vadd pool r0 :
  length r0 = D -> (forall j, j ∈ pool -> length (g j) = D) ->
  veq (foldl (fun acc nb => vadd acc (g nb)) r0 pool) (vadd r0 (sum_rows D g pool)).
Proof.
  revert r0. induction pool as [|j pool IH]; intros r0 Hr0 Hl; simpl.
  - rewrite <- Hr0. symmetry. apply vadd_zero_r.
  - rewrite IH; [apply vadd_assoc| |set_solver].
    rewrite length_vadd; [done|]. rewrite Hl; [done|set_solver].
Qed.

Lemma vsum_sum_rows pool :
  (forall j, j ∈ pool -> length (g j) = D) ->
  vsum (sum_rows D g pool) == foldr (fun j acc => vsum (g j) + acc) 0 pool.
Proof.
  induction pool as [|j pool IH]; intros Hl; simpl.
  - clear. induction D; simpl; [done|]. rewrite IHn. ring.
  - rewrite vsum_vadd.
    + rewrite IH; [done|set_solver].
    + rewrite length_sum_rows; [apply Hl; set_solver|set_solver].
Qed.

Lemma nonneg_sum_rows pool :
  (forall j, j ∈ pool -> Forall (Qle 0) (g j)) -> Forall (Qle 0) (sum_rows D g pool).
Proof.
  induction pool as [|j pool IH]; intros Hn; simpl.
  - apply Forall_replicate. done.
  - apply nonneg_vadd; [apply Hn; set_solver|apply IH; set_solver].
Qed.
End Sums.

Lemma normalize_row_Ok dd i r :
  dd !! i = Some r -> Forall (Qle 0) r -> 0 < vsum r ->
  normalize_row dd i = Ok (<[i:=vdiv r (vsum r)]> dd).
Proof.
  intros Hr Hn Hs. unfold normalize_row, py_get. rewrite Hr. simpl.
  rewrite (proj1 (normalize_wf r Hn Hs)). simpl.
  apply py_set_Ok. by apply lookup_lt_Some in Hr.
Qed.

Lemma foldr_Qplus_ext (f h : nat -> Q) pool :
  (forall j, j ∈ pool -> f j == h j) ->
  foldr (fun j acc => f j + acc) 0 pool == foldr (fun j acc => h j + acc) 0 pool.
Proof.
  induction pool as [|j pool IH]; intros Hfh; simpl; [done|].
  rewrite Hfh, IH; [done|set_solver|set_solver].
Qed.

Lemma sum_weights_nonneg (w : nat -> Q) pool :
  (forall k, k ∈ pool -> 0 <= w k) -> 0 <= sum_weights w pool.
Proof.
  induction pool as [|k pool IH]; intros Hk; simpl; [done|].
  pose proof (Hk k ltac:(set_solver)). pose proof (IH ltac:(set_solver)). lra.
Qed.

Lemma add_weighted_Ok subsizes dt i dd cur nb v s :
  dd !! i = Some cur -> dt !! nb = Some v -> subsizes !! nb = Some s ->
  add_weighted subsizes dt i dd nb = Ok (<[i:=vadd cur (vscale v (Q_of_nat s))]> dd).
Proof.
  intros Hc Hv Hs. unfold add_weighted, py_get. rewrite Hc, Hv, Hs. simpl.
  apply py_set_Ok. by apply lookup_lt_Some in Hc.
Qed.

Lemma add_equal_Ok dt i dd cur nb v :
  dd !! i = Some cur -> dt !! nb = Some v ->
  add_equal dt i dd nb = Ok (<[i:=vadd cur v]> dd).
Proof.
  intros Hc Hv. unfold add_equal, py_get. rewrite Hc, Hv. simpl.
  apply py_set_Ok. by apply lookup_lt_Some in Hc.
Qed.

(** The rows that are averaged, scaled by their weights, are nonnegative
    rows of length [D] whose sums are the weights. *)
Definition scaled_rows_ok (D : nat) (g : nat -> dist) (w : nat -> Q) (pool : list nat) : Prop :=
  forall j, j ∈ pool -> length (g j) = D /\ Forall (Qle 0) (g j) /\ vsum (g j) == w j /\ 0 <= w j.

(** The accumulation from the host's row [r0] followed by
    [normalize_row], for both branches: row [i] becomes the normalised
    sum of [r0] and the neighbours' scaled rows. *)
Lemma accumulate_normalize (step : list dist -> nat -> res (list dist)) D g w i nbrs dd r0 w0 :
  (i < length dd)%nat -> scaled_rows_ok D g w nbrs ->
  length r0 = D -> Forall (Qle 0) r0 -> vsum r0 == w0 -> 0 < w0 ->
  (forall dd' cur nb, nb ∈ nbrs -> dd' !! i = Some cur ->
     step dd' nb = Ok (<[i:=vadd cur (g nb)]> dd')) ->
  exists r, (let! dd2 := res_foldl step (<[i:=r0]> dd) nbrs in normalize_row dd2 i)
              = Ok (<[i:=r]> dd) /\ wf_dist D r /\
    veq r (vdiv (vadd r0 (sum_rows D g nbrs)) (w0 + sum_weights w nbrs)).
Proof.
  intros Hi Hg Hl0 Hn0 Hs0 Hw0 Hstep.
  assert (Hlen : forall j, j ∈ nbrs -> length (g j) = D) by (intros j Hj; apply (Hg j Hj)).
  rewrite (row_loop step g i nbrs _ r0); [|by rewrite list_lookup_insert, decide_True|done].
  cbn [res_bind]. set (F := foldl _ r0 nbrs).
  assert (HF : veq F (vadd r0 (sum_rows D g nbrs))) by (apply (foldl_vadd D g); done).
  assert (HW : vsum F == w0 + sum_weights w nbrs).
  { rewrite HF, vsum_vadd, vsum_sum_rows, Hs0 by (rewrite ?length_sum_rows; done).
    apply Qplus_inj_l, foldr_Qplus_ext. intros j Hj. apply (Hg j Hj). }
  assert (HFn : Forall (Qle 0) F).
  { rewrite HF. apply nonneg_vadd; [done|]. apply nonneg_sum_rows. intros j Hj. apply (Hg j Hj). }
  assert (HWp : 0 < vsum F).
  { rewrite HW. pose proof (sum_weights_nonneg w nbrs ltac:(intros k Hk; apply (Hg k Hk))). lra. }
  rewrite (normalize_row_Ok _ i F); [|by rewrite list_lookup_insert, decide_True by (rewrite length_insert; lia)|done|done].
  rewrite !list_insert_insert_eq. eexists; split_and!; [done| |].
  - destruct (normalize_wf F HFn HWp) as [_ Hwf]. rewrite (veq_length _ _ HF) in Hwf.
    rewrite length_vadd in Hwf; [by rewrite Hl0 in Hwf|]. by rewrite length_sum_rows.
  - apply vdiv_proper; [exact HF|exact HW].
Qed.

(** The row that [divergent_update] writes. *)
Lemma divergent_update_row D subsizes dt dd i nbrs :
  (i < length dd)%nat ->
  (forall j, j ∈ i :: nbrs -> exists r s, dt !! j = Some r /\ wf_dist D r /\
      subsizes !! j = Some s /\ (0 < s)%nat) ->
  exists r, divergent_update subsizes dt dd i nbrs = Ok (<[i:=r]> dd) /\ wf_dist D r /\
    veq r (vdiv (sum_rows D (fun j => vscale (row_of dt j) (weight subsizes j)) (i :: nbrs))
                (sum_weights (weight subsizes) (i :: nbrs))).
Proof.
  intros Hi Hpool.
  set (g := fun j => vscale (row_of dt j) (weight subsizes j)).
  assert (Hgj : forall j r s, dt !! j = Some r -> subsizes !! j = Some s ->
                  g j = vscale r (Q_of_nat s)).
  { intros j r s Hr Hs. unfold g, row_of, weight. by rewrite Hr, Hs. }
  assert (Hg : scaled_rows_ok D g (weight subsizes) (i :: nbrs)).
  { intros j Hj. destruct (Hpool j Hj) as (r & s & Hr & (Hl & Hn & Hs1) & Hs & _).
    rewrite (Hgj j r s Hr Hs). split_and!.
    - by rewrite length_vscale.
    - apply nonneg_vscale; [|done]. unfold Qle, Q_of_nat. simpl. lia.
    - rewrite vsum_vscale, Hs1. unfold weight. rewrite Hs. simpl. ring.
    - unfold weight. rewrite Hs. unfold Qle, Q_of_nat. simpl. lia. }
  destruct (Hpool i ltac:(set_solver)) as (ri & si & Hri & _ & Hsi & Hsi0).
  assert (Hwi : 0 < weight subsizes i).
  { unfold weight. rewrite Hsi. apply Q_of_nat_pos. done. }
  destruct (Hg i ltac:(set_solver)) as (Hl0 & Hn0 & Hs0 & _).
  destruct (accumulate_normalize (add_weighted subsizes dt i) D g (weight subsizes) i nbrs dd
              (g i) (weight subsizes i) Hi ltac:(intros j Hj; apply Hg; set_solver)
              Hl0 Hn0 Hs0 Hwi) as (r & Hr & Hwf & Heq).
  { intros dd' cur nb Hnb Hcur.
    destruct (Hpool nb ltac:(set_solver)) as (v & s & Hv & _ & Hs & _).
    rewrite (Hgj nb v s Hv Hs). by apply add_weighted_Ok. }
  exists r. split_and!; [|done|done].
  unfold divergent_update, py_get at 1 2. rewrite Hri, Hsi. cbn [res_bind].
  rewrite py_set_Ok by done. cbn [res_bind]. by rewrite <- (Hgj i ri si Hri Hsi).
Qed.

(** C8: the divergent branch (lines 339-345, spec 4.3): row [i] becomes
    the average of the snapshot rows of [i] and its neighbours weighted
    by their subgroup sizes, a distribution again; no other row changes. *)
Theorem divergent_update_spec D subsizes dt dd i nbrs :
  (i < length dd)%nat ->
  (forall j, j ∈ i :: nbrs -> exists r s, dt !! j = Some r /\ wf_dist D r /\
      subsizes !! j = Some s /\ (0 < s)%nat) ->
  exists r, divergent_update subsizes dt dd i nbrs = Ok (<[i:=r]> dd) /\ wf_dist D r /\
    veq r (vdiv (sum_rows D (fun j => vscale (row_of dt j) (weight subsizes j)) (i :: nbrs))
                (sum_weights (weight subsizes) (i :: nbrs))).
Proof. apply divergent_update_row. Qed.

(** ** The convergence test and the pairwise differences *)

(** [all_converged] decides agreement with the neighbours. *)
Lemma all_converged_iff deci_domi host_domi nbrs :
  (forall nb, nb ∈ nbrs -> (nb < length deci_domi)%nat) ->
  exists b, all_converged deci_domi host_domi nbrs = Ok b /\
    (b = true <-> forall nb, nb ∈ nbrs -> deci_domi !! nb = Some host_domi).
Proof.
  induction nbrs as [|nb nbrs IH]; intros Hnb; simpl.
  - exists true. split; [done|]. split; [|done]. intros _ nb Hnb'. by apply not_elem_of_nil in Hnb'.
  - destruct (lookup_lt_is_Some_2 deci_domi nb (Hnb nb ltac:(set_solver))) as [d Hd].
    unfold py_get at 1. rewrite Hd. cbn [res_bind].
    destruct (decide (host_domi = d)) as [<-|Hne].
    + destruct IH as (b & Hb & Hiff); [intros; apply Hnb; set_solver|].
      exists b. split; [done|]. rewrite Hiff. split.
      * intros Hall nb' [->|Hnb']%elem_of_cons; [done|auto].
      * intros Hall nb' Hnb'. apply Hall. set_solver.
    + exists false. split; [done|]. split; [done|]. intros Hall.
      specialize (Hall nb ltac:(set_solver)). congruence.
Qed.

(** C19: the test of lines 271-276 (spec 4.2): it answers [True] exactly
    when every neighbour has the host's dominant decision, vacuously for
    a node without neighbours. *)
Theorem all_converged_spec deci_domi host_domi nbrs :
  (forall nb, nb ∈ nbrs -> (nb < length deci_domi)%nat) ->
  exists b, all_converged deci_domi host_domi nbrs = Ok b /\
    (b = true <-> forall nb, nb ∈ nbrs -> deci_domi !! nb = Some host_domi).
Proof. apply all_converged_iff. Qed.

Lemma comb_pairs_elem_of l j k : (j, k) ∈ comb_pairs l -> j ∈ l /\ k ∈ l.
Proof.
  induction l as [|x l IH]; simpl; intros Hjk; [by apply not_elem_of_nil in Hjk|].
  apply elem_of_app in Hjk as [Hjk|Hjk].
  - apply list_elem_of_In, in_map_iff in Hjk as (y & [= -> ->] & Hy).
    apply list_elem_of_In in Hy. set_solver.
  - destruct (IH Hjk). set_solver.
Qed.

Lemma length_comb_pairs x l : (length l <= length (comb_pairs (x :: l)))%nat.
Proof. simpl. rewrite length_app, length_map. lia. Qed.

(** The differences of lines 296-300 exist for indices in range, one per
    pair, all nonnegative. *)
Lemma dist_diffs_ok dd pool :
  (forall j, j ∈ pool -> (j < length dd)%nat) ->
  exists l, dist_diffs dd pool = Ok l /\ Forall (Qle 0) l /\ length l = length (comb_pairs pool) /\
    Forall (fun d => exists j k a b, j ∈ pool /\ k ∈ pool /\ dd !! j = Some a /\ dd !! k = Some b /\
                       d = l1_diff a b) l.
Proof.
  intros Hpool. unfold dist_diffs.
  destruct (res_foldl_ok (fun acc '(j_node, k_node) =>
      let! a := py_get dd j_node in let! b := py_get dd k_node in Ok (acc ++ [l1_diff a b]))
              (fun pre acc => Forall (Qle 0) acc /\ length acc = length pre /\
                 Forall (fun d => exists j k a b, j ∈ pool /\ k ∈ pool /\ dd !! j = Some a /\
                                    dd !! k = Some b /\ d = l1_diff a b) acc)
              (comb_pairs pool) []) as (l & Hl & Hn & Hlen & Hfrom); [done| |by exists l].
  intros l1 [j k] l2 acc Hsplit (Hn & Hlen & Hfrom).
  assert (Hjk : (j, k) ∈ comb_pairs pool) by (rewrite Hsplit; set_solver).
  destruct (comb_pairs_elem_of _ _ _ Hjk) as [Hj Hk].
  destruct (lookup_lt_is_Some_2 dd j (Hpool j Hj)) as [a Ha].
  destruct (lookup_lt_is_Some_2 dd k (Hpool k Hk)) as [b Hb].
  unfold py_get. rewrite Ha, Hb. simpl. eexists; split; [done|]. split_and!.
  - apply Forall_app. split; [done|]. constructor; [apply l1_diff_nonneg|done].
  - rewrite !length_app. simpl. lia.
  - apply Forall_app. split; [done|]. constructor; [|done]. eexists _, _, _, _. eauto.
Qed.

(** ** The bubble sort of lines 314-326 *)

Section Bubble.
Variable row : dist.

(** [dist_temp] and [sort_index] stay paired: entry [p] of [dist_temp] is
    the entry of [row] that [sort_index[p]] names, and [sort_index] is a
    permutation of [range(len(row))]. *)
Definition paired (st : dist * list nat) : Prop :=
  length st.1 = length row /\ st.2 ≡ₚ seq 0 (length row) /\
  forall p, st.1 !! p = st.2 !! p ≫= (fun s => row !! s).

Lemma paired_start : paired (row, seq 0 (length row)).
Proof.
  split_and!; [done|done|]. intros p. simpl.
  destruct (decide (p < length row)%nat).
  - rewrite lookup_seq_lt by done. simpl.
    destruct (row !! p) eqn:E; [done|]. apply lookup_ge_None in E. lia.
  - rewrite lookup_seq_ge by lia. simpl. apply lookup_ge_None. lia.
Qed.

Lemma paired_index st p x :
  paired st -> st.1 !! p = Some x -> exists s, st.2 !! p = Some s /\ row !! s = Some x.
Proof.
  intros (_ & _ & Hl) Hx. rewrite Hl in Hx.
  destruct (st.2 !! p); simpl in Hx; [eauto|done].
Qed.

(** One comparison keeps the pairing, touches only [k] and [k+1], and
    leaves them in order. *)
Lemma bubble_step_spec st k a b :
  paired st -> st.1 !! k = Some a -> st.1 !! S k = Some b ->
  exists st', bubble_step st k = Ok st' /\ paired st' /\
    (forall p, p <> k -> p <> S k -> st'.1 !! p = st.1 !! p) /\
    ((st'.1 !! k = Some a /\ st'.1 !! S k = Some b /\ a <= b) \/
     (st'.1 !! k = Some b /\ st'.1 !! S k = Some a /\ b < a)).
Proof.
  destruct st as [v idx]. simpl. intros Hp Ha Hb.
  unfold bubble_step. unfold py_get at 1 2. rewrite Ha, Hb. cbn [res_bind].
  destruct (Qlt_le_dec b a) as [Hlt|Hle].
  - destruct (paired_index _ _ _ Hp Ha) as (sa & Hsa & _).
    destruct (paired_index _ _ _ Hp Hb) as (sb & Hsb & _). simpl in Hsa, Hsb.
    rewrite (py_swap_Ok _ _ _ _ Ha Hb), (py_swap_Ok _ _ _ _ Hsa Hsb). cbn [res_bind].
    eexists; split; [done|]. destruct Hp as (Hlen & Hperm & Hl). unfold paired. cbn [fst snd] in *. split_and!.
    + cbn [fst snd]. by rewrite !length_insert.
    + by rewrite swap_perm.
    + intros p. cbn [fst snd]. rewrite (lookup_swap _ _ _ _ _ Ha Hb), (lookup_swap _ _ _ _ _ Hsa Hsb).
      rewrite (Hl k) in Ha. rewrite (Hl (S k)) in Hb. rewrite Hsa in Ha. rewrite Hsb in Hb.
      repeat case_decide; [done|done|apply Hl].
    + intros p Hk HSk. cbn [fst snd]. rewrite (lookup_swap _ _ _ _ _ Ha Hb).
      by repeat case_decide.
    + right. cbn [fst snd]. rewrite !(lookup_swap _ _ _ _ _ Ha Hb).
      repeat case_decide; try lia. done.
  - exists (v, idx). split_and!; [done|done|done|]. left. split_and!; done.
Qed.

(** After the comparisons [k' < k] of a pass that started from [v0]:
    entry [k] is the largest of the first [k+1], the entries after [k]
    are those of [v0], and each of the first [k+1] entries is one of the
    first [k+1] entries of [v0]. *)
Definition pass_inv (v0 : dist) (k : nat) (st : dist * list nat) : Prop :=
  paired st /\
  (forall p, (k < p)%nat -> st.1 !! p = v0 !! p) /\
  (forall p x, (p <= k)%nat -> st.1 !! p = Some x ->
     exists r, (r <= k)%nat /\ v0 !! r = Some x) /\
  (forall p x y, (p <= k)%nat -> st.1 !! p = Some x -> st.1 !! k = Some y -> x <= y).

Lemma paired_lookup st p : paired st -> (p < length row)%nat -> exists x, st.1 !! p = Some x.
Proof.
  intros (Hlen & _) Hp. apply lookup_lt_is_Some_2. lia.
Qed.

Lemma pass_spec st0 m :
  paired st0 -> (m < length row)%nat ->
  exists st, res_foldl bubble_step st0 (seq 0 m) = Ok st /\ pass_inv st0.1 m st.
Proof.
  intros H0 Hm.
  destruct (res_foldl_seq bubble_step (pass_inv st0.1) 0 m st0) as (st & Hst & Hinv).
  - split_and!; [done|done| |].
    + intros p x Hp Hx. exists p. split; [lia|done].
    + intros p x y Hp Hx Hy. assert (p = 0%nat) as -> by lia. rewrite Hx in Hy. injection Hy as ->. lra.
  - intros k st Hk (Hp & Hsame & Hfrom & Hmax).
    destruct (paired_lookup st k Hp ltac:(lia)) as [a Ha].
    destruct (paired_lookup st (S k) Hp ltac:(lia)) as [b Hb].
    destruct (bubble_step_spec st k a b Hp Ha Hb) as (st' & Hstep & Hp' & Hout & Hkk).
    exists st'. split; [done|]. split_and!; [done| | |].
    + intros p Hkp. rewrite Hout by lia. apply Hsame. lia.
    + assert (HSk : st0.1 !! S k = Some b) by (rewrite <- Hsame by lia; done).
      intros p x Hpk Hx.
      destruct (decide (p = S k)) as [->|Hp1]; [|destruct (decide (p = k)) as [->|Hp2]].
      * destruct Hkk as [(_ & Hy & _)|(_ & Hy & _)]; rewrite Hy in Hx; injection Hx as <-;
          [exists (S k); split; [lia|done]|].
        destruct (Hfrom k a ltac:(lia) Ha) as (r & ? & ?). exists r. split; [lia|done].
      * destruct Hkk as [(Hy & _)|(Hy & _)]; rewrite Hy in Hx; injection Hx as <-;
          [|exists (S k); split; [lia|done]].
        destruct (Hfrom k a ltac:(lia) Ha) as (r & ? & ?). exists r. split; [lia|done].
      * rewrite Hout in Hx by done.
        destruct (Hfrom p x ltac:(lia) Hx) as (r & ? & ?). exists r. split; [lia|done].
    + intros p x y Hpk Hx Hy.
      assert (Hab : a <= y /\ b <= y).
      { destruct Hkk as [(_ & Hz & ?)|(_ & Hz & ?)]; rewrite Hz in Hy; injection Hy as <-;
          split; lra. }
      destruct (decide (p = S k)) as [->|Hp1]; [|destruct (decide (p = k)) as [->|Hp2]].
      * rewrite Hy in Hx. injection Hx as ->. lra.
      * destruct Hkk as [(Hz & _)|(Hz & _)]; rewrite Hz in Hx; injection Hx as <-; lra.
      * rewrite Hout in Hx by done.
        pose proof (Hmax p x a ltac:(lia) Hx Ha). lra.
  - exists st. split; [done|]. by rewrite Nat.add_0_l in Hinv.
Qed.

(** After [j] passes, every entry at a position [q >= len(row) - j] is at
    least every entry before it. *)
Definition upper_sorted (j : nat) (v : dist) : Prop :=
  forall p q x y, (p < q)%nat -> (length row - j <= q)%nat ->
    v !! p = Some x -> v !! q = Some y -> x <= y.

Lemma pass_upper_sorted (st0 st : dist * list nat) j :
  (j < length row - 1)%nat -> upper_sorted j st0.1 ->
  pass_inv st0.1 (length row - 1 - j) st -> upper_sorted (S j) st.1.
Proof.
  intros Hj Hup (Hp & Hsame & Hfrom & Hmax) p q x y Hpq Hq Hx Hy.
  set (m := (length row - 1 - j)%nat) in *.
  destruct (decide (q = m)) as [->|Hqm].
  - exact (Hmax p x y ltac:(lia) Hx Hy).
  - rewrite Hsame in Hy by lia.
    destruct (decide (p <= m)%nat) as [Hpm|Hpm].
    + destruct (Hfrom p x Hpm Hx) as (r & Hr & Hx0).
      exact (Hup r q x y ltac:(lia) ltac:(lia) Hx0 Hy).
    + rewrite Hsame in Hx by lia. exact (Hup p q x y Hpq ltac:(lia) Hx Hy).
Qed.

Lemma upper_sorted_start : upper_sorted 0 row.
Proof.
  intros p q x y _ Hq _ Hy. apply lookup_lt_Some in Hy. lia.
Qed.

Lemma upper_sorted_ascending v :
  length v = length row -> upper_sorted (length row - 1) v -> ascending v.
Proof.
  intros Hlen Hup p q x y Hpq Hx Hy. exact (Hup p q x y Hpq ltac:(lia) Hx Hy).
Qed.

(** The bubble sort runs to completion with a sorted, paired result. *)
Lemma bubble_sort_ok :
  exists dist_temp sort_index,
    bubble_sort (length row) row = Ok (dist_temp, sort_index) /\
    sort_index ≡ₚ seq 0 (length row) /\
    (forall p, dist_temp !! p = sort_index !! p ≫= fun s => row !! s) /\
    ascending dist_temp.
Proof.
  unfold bubble_sort.
  destruct (res_foldl_seq (fun st j => res_foldl bubble_step st (seq 0 (length row - 1 - j)))
              (fun j st => paired st /\ upper_sorted j st.1) 0 (length row - 1)
              (row, seq 0 (length row))) as ([v idx] & Hr & (Hlen & Hperm & Hl) & Hup).
  - split; [apply paired_start|apply upper_sorted_start].
  - intros j st Hj [Hp Hup].
    destruct (pass_spec st (length row - 1 - j) Hp ltac:(lia)) as (st' & Hst' & Hinv).
    exists st'. split; [done|]. split; [apply Hinv|].
    exact (pass_upper_sorted st st' j ltac:(lia) Hup Hinv).
  - exists v, idx. split_and!; [done|done|done|].
    by apply upper_sorted_ascending.
Qed.


(** C14: the bubble sort of lines 314-326 never raises, returns in
    [sort_index] a permutation of [range(deci_num)] with [dist_temp] the
    row read along it, and [dist_temp] is in ascending order: entry [j]
    of [sort_index] is the decision of rank [j]. *)
Theorem bubble_sort_spec :
  exists dist_temp sort_index,
    bubble_sort (length row) row = Ok (dist_temp, sort_index) /\
    sort_index ≡ₚ seq 0 (length row) /\
    (forall p, dist_temp !! p = sort_index !! p ≫= fun s => row !! s) /\
    ascending dist_temp.
Proof. apply bubble_sort_ok. Qed.

End Bubble.

(** ** The linear multiplier of lines 328-330 *)

(** The value line 329 computes for rank [j] when [deci_num >= 2]. *)
Definition mult_at (D : nat) (small_end large_end : Q) (j : nat) : Q :=
  small_end + Q_of_nat j / inject_Z (Z.of_nat D - 1) * (large_end - small_end).

Lemma multiplier_Ok D small_end large_end j :
  (2 <= D)%nat -> multiplier D small_end large_end j = Ok (mult_at D small_end large_end j).
Proof.
  intros HD. unfold multiplier, py_fdiv.
  destruct (Qeq_bool _ 0) eqn:E; [|done].
  apply Qeq_bool_eq in E. unfold Qeq in E. simpl in E. lia.
Qed.

Lemma perm_seq_NoDup (idx : list nat) D : idx ≡ₚ seq 0 D -> NoDup idx.
Proof. intros ->. apply NoDup_seq. Qed.

Lemma perm_seq_elem_of (idx : list nat) D s : idx ≡ₚ seq 0 D -> s ∈ idx <-> (s < D)%nat.
Proof. intros ->. rewrite elem_of_seq. lia. Qed.

Lemma perm_seq_rank (idx : list nat) D s :
  idx ≡ₚ seq 0 D -> (s < D)%nat -> exists j, idx !! j = Some s.
Proof. intros Hp Hs. apply list_elem_of_lookup_1. by apply (perm_seq_elem_of idx D). Qed.

(** Along an ascending ranking, a lower rank never holds a larger value. *)
Lemma rank_le (idx : list nat) (dist_temp row : dist) j1 j2 s1 s2 y1 y2 :
  (forall p, dist_temp !! p = idx !! p ≫= fun s => row !! s) -> ascending dist_temp ->
  (j1 <= j2)%nat -> idx !! j1 = Some s1 -> idx !! j2 = Some s2 ->
  row !! s1 = Some y1 -> row !! s2 = Some y2 -> y1 <= y2.
Proof.
  intros Hl Hasc Hj H1 H2 Hy1 Hy2.
  assert (E1 : dist_temp !! j1 = Some y1) by (by rewrite Hl, H1).
  assert (E2 : dist_temp !! j2 = Some y2) by (by rewrite Hl, H2).
  destruct (decide (j1 = j2)) as [->|Hne].
  - rewrite E1 in E2. injection E2 as ->. lra.
  - exact (Hasc j1 j2 y1 y2 ltac:(lia) E1 E2).
Qed.

(** A strict maximum of the row is ranked last by an ascending ranking. *)
Lemma strict_top_rank (idx : list nat) (dist_temp row : dist) D t x :
  idx ≡ₚ seq 0 D -> (forall p, dist_temp !! p = idx !! p ≫= fun s => row !! s) ->
  ascending dist_temp -> length row = D ->
  row !! t = Some x -> (forall s y, s <> t -> row !! s = Some y -> y < x) ->
  idx !! (D - 1)%nat = Some t.
Proof.
  intros Hperm Hl Hasc Hlen Hx Hstrict.
  pose proof (Permutation_length Hperm) as Hil. rewrite length_seq in Hil.
  pose proof (lookup_lt_Some _ _ _ Hx) as Ht.
  destruct (lookup_lt_is_Some_2 idx (D - 1) ltac:(lia)) as [st Hst].
  destruct (decide (st = t)) as [->|Hne]; [done|exfalso].
  assert (Hstl : (st < D)%nat).
  { apply (perm_seq_elem_of idx D st Hperm). by eapply list_elem_of_lookup_2. }
  destruct (lookup_lt_is_Some_2 row st ltac:(lia)) as [xt Hxt].
  destruct (perm_seq_rank idx D t Hperm ltac:(lia)) as [jt Hjt].
  pose proof (lookup_lt_Some _ _ _ Hjt) as Hjl.
  pose proof (rank_le idx dist_temp row jt (D - 1) t st x xt Hl Hasc ltac:(lia) Hjt Hst Hx Hxt).
  pose proof (Hstrict st xt Hne Hxt). lra.
Qed.

(** [j/(D-1)] lies in [[0,1]] for a rank [j <= D-1], below [1] for
    [j < D-1], and is [1] at [j = D-1]. *)
Lemma rank_fraction D j :
  (2 <= D)%nat -> (j <= D - 1)%nat ->
  0 <= Q_of_nat j / inject_Z (Z.of_nat D - 1) /\
  Q_of_nat j / inject_Z (Z.of_nat D - 1) <= 1 /\
  ((j < D - 1)%nat -> Q_of_nat j / inject_Z (Z.of_nat D - 1) < 1) /\
  (j = (D - 1)%nat -> Q_of_nat j / inject_Z (Z.of_nat D - 1) == 1).
Proof.
  intros HD Hj.
  assert (Hd : 0 < inject_Z (Z.of_nat D - 1)) by (unfold Qlt; simpl; lia).
  split_and!.
  - apply Qle_shift_div_l; [done|]. unfold Qle, Q_of_nat. simpl. lia.
  - apply Qle_shift_div_r; [done|]. unfold Qle, Q_of_nat. simpl. lia.
  - intros Hlt. apply Qlt_shift_div_r; [done|]. unfold Qlt, Q_of_nat. simpl. lia.
  - intros ->. assert (E : Q_of_nat (D - 1) == inject_Z (Z.of_nat D - 1))
      by (unfold Qeq, Q_of_nat; simpl; lia).
    rewrite E. field. lra.
Qed.

(** The multipliers run from [small_end] at rank [0] to [large_end] at
    rank [D-1], strictly below [large_end] before. *)
Lemma mult_at_range D s L j :
  (2 <= D)%nat -> 0 <= s -> s < L -> (j <= D - 1)%nat ->
  s <= mult_at D s L j /\ mult_at D s L j <= L /\
  ((j < D - 1)%nat -> mult_at D s L j < L) /\ (j = (D - 1)%nat -> mult_at D s L j == L).
Proof.
  intros HD Hs HsL Hj. unfold mult_at.
  destruct (rank_fraction D j HD Hj) as (H0 & H1 & H2 & H3).
  set (f := Q_of_nat j / inject_Z (Z.of_nat D - 1)) in *.
  split_and!; [nra|nra| |].
  - intros Hlt. specialize (H2 Hlt). nra.
  - intros Heq. rewrite (H3 Heq). ring.
Qed.

Section Multiply.
Variables (D : nat) (small_end large_end : Q) (idx : list nat) (row : dist).
Hypothesis Hperm : idx ≡ₚ seq 0 D.
Hypothesis Hlen : length row = D.
Hypothesis HD : (2 <= D)%nat.

Lemma idx_lookup_lt j s : idx !! j = Some s -> (s < D)%nat.
Proof. intros Hs. apply (perm_seq_elem_of idx D s Hperm). by eapply list_elem_of_lookup_2. Qed.

(** The loop multiplies the entry of rank [j] by [mult_at j] and nothing
    else: each decision has exactly one rank. *)
Lemma apply_multiplier_all :
  exists row', res_foldl (apply_multiplier D small_end large_end idx) row (seq 0 D) = Ok row' /\
    length row' = D /\
    forall j s x, idx !! j = Some s -> row !! s = Some x ->
      row' !! s = Some (x * mult_at D small_end large_end j).
Proof.
  pose proof (perm_seq_NoDup idx D Hperm) as Hnd.
  pose proof (Permutation_length Hperm) as Hli. rewrite length_seq in Hli.
  destruct (res_foldl_seq (apply_multiplier D small_end large_end idx)
    (fun n r => length r = D /\ forall j s x, idx !! j = Some s -> row !! s = Some x ->
        r !! s = Some (if decide (j < n)%nat then x * mult_at D small_end large_end j else x))
    0 D row) as (r & Hr & Hrlen & Hrv).
  - split; [done|]. intros j s x _ Hx. by rewrite decide_False by lia.
  - intros n r Hn [Hrl Hv].
    destruct (lookup_lt_is_Some_2 idx n ltac:(lia)) as [sn Hsn].
    pose proof (idx_lookup_lt n sn Hsn) as Hsnlt.
    destruct (lookup_lt_is_Some_2 row sn ltac:(lia)) as [xn Hxn].
    pose proof (Hv n sn xn Hsn Hxn) as Hrn. rewrite decide_False in Hrn by lia.
    unfold apply_multiplier. rewrite multiplier_Ok by done. cbn [res_bind].
    unfold py_get at 1 2. rewrite Hsn. cbn [res_bind]. rewrite Hrn. cbn [res_bind].
    rewrite py_set_Ok by lia. eexists; split; [done|].
    split; [by rewrite length_insert|].
    intros j s x Hs Hx. rewrite list_lookup_insert. rewrite Hrl.
    destruct (decide (sn = s)) as [<-|Hne].
    + assert (j = n) as -> by (eapply NoDup_lookup; eauto).
      rewrite decide_True by lia. rewrite decide_True by lia.
      rewrite Hxn in Hx. by injection Hx as ->.
    + rewrite decide_False by naive_solver. rewrite (Hv j s x Hs Hx).
      assert (j <> n) by congruence.
      destruct (decide (j < n)%nat), (decide (j < S n)%nat); done || lia.
  - exists r. split_and!; [done|done|]. intros j s x Hs Hx.
    rewrite (Hrv j s x Hs Hx). rewrite decide_True; [done|].
    apply lookup_lt_Some in Hs. lia.
Qed.

End Multiply.

(** ** The sharpening of lines 305-333 *)

Section Sharpen.
Context `{NpPowerLaws}.
Variables (D : nat) (dist_diff_max : Q) (row : dist).
Hypothesis Hwf : wf_dist D row.
Hypothesis HD : (2 <= D)%nat.
Hypothesis Hmax0 : 0 <= dist_diff_max.
Hypothesis Hmax1 : dist_diff_max < dist_diff_thres.

Let small_end := 1 / Q_of_nat D * np_power (dist_diff_max / dist_diff_thres) dist_diff_power.
Let large_end := 2 / Q_of_nat D - small_end.

Lemma small_large : 0 <= small_end /\ small_end < large_end /\ 0 < large_end.
Proof.
  assert (Hr : 0 <= dist_diff_max / dist_diff_thres < 1).
  { assert (E : dist_diff_max / dist_diff_thres == dist_diff_max * (10 # 3)) by reflexivity.
    rewrite E. unfold dist_diff_thres in Hmax1. split; lra. }
  destruct (np_power_range (dist_diff_max / dist_diff_thres) dist_diff_power
              ltac:(apply Hr) ltac:(apply Hr) ltac:(unfold dist_diff_power; lra)) as [Hp0 Hp1].
  assert (HqD : 0 < Q_of_nat D) by (apply Q_of_nat_pos; lia).
  assert (Hinv : 0 < 1 / Q_of_nat D) by (apply Qlt_shift_div_l; lra).
  assert (E2 : 2 / Q_of_nat D == 2 * (1 / Q_of_nat D)) by (field; lra).
  unfold large_end, small_end. rewrite E2.
  set (u := 1 / Q_of_nat D) in *. set (w := np_power _ _) in *.
  split_and!; nra.
Qed.

(** [sharpen] returns the row whose entry of rank [j] is multiplied by
    [mult_at j], normalised; the product has a positive sum, so the
    normalisation never divides by zero. *)
Lemma sharpen_spec :
  exists idx dist_temp row_m,
    bubble_sort D row = Ok (dist_temp, idx) /\ idx ≡ₚ seq 0 D /\
    (forall p, dist_temp !! p = idx !! p ≫= fun s => row !! s) /\
    ascending dist_temp /\
    length row_m = D /\
    (forall j s x, idx !! j = Some s -> row !! s = Some x ->
       row_m !! s = Some (x * mult_at D small_end large_end j)) /\
    Forall (Qle 0) row_m /\ 0 < vsum row_m /\
    sharpen D dist_diff_max row = Ok (vdiv row_m (vsum row_m)).
Proof.
  destruct Hwf as (Hlen & Hnn & Hsum).
  destruct small_large as (Hs0 & Hsl & HL).
  destruct (bubble_sort_ok row) as (dt & idx & Hb & Hperm & Hl & Hasc).
  rewrite Hlen in Hb, Hperm.
  destruct (apply_multiplier_all D small_end large_end idx row Hperm Hlen HD)
    as (row_m & Hm & Hmlen & Hmv).
  assert (Hrank : forall s, (s < D)%nat -> exists j x, (j <= D - 1)%nat /\
            idx !! j = Some s /\ row !! s = Some x /\ row_m !! s = Some (x * mult_at D small_end large_end j)).
  { intros s Hs. destruct (perm_seq_rank idx D s Hperm Hs) as [j Hj].
    destruct (lookup_lt_is_Some_2 row s ltac:(lia)) as [x Hx].
    pose proof (lookup_lt_Some _ _ _ Hj) as Hjl. rewrite (Permutation_length Hperm), length_seq in Hjl.
    exists j, x. split_and!; [lia|done|done|]. by apply Hmv. }
  assert (Hnn' : Forall (Qle 0) row_m).
  { apply Forall_lookup. intros s y Hy. pose proof (lookup_lt_Some _ _ _ Hy) as Hs.
    destruct (Hrank s ltac:(lia)) as (j & x & Hj & _ & Hx & Hy').
    rewrite Hy in Hy'. injection Hy' as ->.
    pose proof (Forall_lookup_1 _ _ _ _ Hnn Hx).
    destruct (mult_at_range D small_end large_end j HD Hs0 Hsl Hj) as (Hm1 & _). nra. }
  assert (Hpos : 0 < vsum row_m).
  { pose proof (Permutation_length Hperm) as Hil. rewrite length_seq in Hil.
    destruct (lookup_lt_is_Some_2 idx (D - 1) ltac:(lia)) as [st Hst].
    pose proof (idx_lookup_lt D idx Hperm _ _ Hst) as Hstl.
    destruct (Hrank st Hstl) as (j & xt & _ & Hj & Hxt & Hyt).
    assert (j = D - 1)%nat as -> by (eapply NoDup_lookup; [apply (perm_seq_NoDup idx D Hperm)|done|done]).
    destruct (mult_at_range D small_end large_end (D - 1) HD Hs0 Hsl ltac:(lia)) as (_ & _ & _ & Htop).
    assert (Hle : forall s y, row !! s = Some y -> y <= xt).
    { intros s y Hy. pose proof (lookup_lt_Some _ _ _ Hy) as Hs.
      destruct (Hrank s ltac:(lia)) as (j' & y' & Hj' & Hs' & Hy' & _).
      rewrite Hy in Hy'. injection Hy' as <-.
      exact (rank_le idx dt row j' (D - 1) s st y xt Hl Hasc Hj' Hs' Hj Hy Hxt). }
    assert (Hxt0 : 0 < xt).
    { destruct (Qlt_le_dec 0 xt) as [?|Hxt0]; [done|].
      assert (vsum row <= 0); [|lra].
      apply vsum_nonpos, Forall_lookup. intros s y Hy. pose proof (Hle s y Hy). lra. }
    pose proof (vsum_ge_lookup row_m st _ Hnn' Hyt).
    set (m := mult_at D small_end large_end (D - 1)) in *.
    specialize (Htop eq_refl). assert (0 < m) by lra. assert (0 < xt * m) by (apply Qmult_lt_0_compat; lra). lra. }
  exists idx, dt, row_m. split_and!; try done.
  unfold sharpen.
  assert (HqD : ~ Q_of_nat D == 0) by (pose proof (Q_of_nat_pos D ltac:(lia)); lra).
  rewrite !py_fdiv_Ok by done. cbn [res_bind].
  rewrite Hb. cbn [res_bind]. fold small_end. fold large_end. rewrite Hm. cbn [res_bind].
  apply (normalize_wf row_m Hnn' Hpos).
Qed.

(** The sharpened row is again a distribution over [D] decisions. *)
Lemma sharpen_wf : exists row', sharpen D dist_diff_max row = Ok row' /\ wf_dist D row'.
Proof.
  destruct sharpen_spec as (idx & dt & row_m & _ & _ & _ & _ & Hlen & _ & Hnn & Hpos & Hs).
  exists (vdiv row_m (vsum row_m)). split; [done|].
  destruct (normalize_wf row_m Hnn Hpos) as [_ Hwf']. by rewrite Hlen in Hwf'.
Qed.

(** C10: spec 8.4 when the dominant decision [t] is a strict maximum of
    the row and holds less than all the mass: sharpening strictly raises
    its probability.  Its rank is [D-1], so it gets [large_end], the
    largest multiplier, and some other positive entry gets a smaller one. *)
Theorem sharpen_dominant_increases t x :
  row !! t = Some x ->
  (forall s y, s <> t -> row !! s = Some y -> y < x) ->
  x < 1 ->
  exists row' x', sharpen D dist_diff_max row = Ok row' /\ row' !! t = Some x' /\ x < x'.
Proof.
  intros Hx Hstrict Hx1.
  pose proof Hwf as (Hlen & Hnn & Hsum).
  destruct small_large as (Hs0 & Hsl & HL).
  destruct sharpen_spec as (idx & dt & row_m & _ & Hperm & Hl & Hasc & Hmlen & Hmv & Hnn' & Hpos & Hs).
  pose proof (perm_seq_NoDup idx D Hperm) as Hnd.
  pose proof (Permutation_length Hperm) as Hil. rewrite length_seq in Hil.
  assert (Hrank : forall s, (s < D)%nat -> exists j, (j <= D - 1)%nat /\ idx !! j = Some s).
  { intros s Hsd. destruct (perm_seq_rank idx D s Hperm Hsd) as [j Hj].
    exists j. split; [|done]. apply lookup_lt_Some in Hj. lia. }
  pose proof (strict_top_rank idx dt row D t x Hperm Hl Hasc Hlen Hx Hstrict) as Ht.
  destruct (mult_at_range D small_end large_end (D - 1) HD Hs0 Hsl ltac:(lia))
    as (_ & _ & _ & Htop). specialize (Htop eq_refl).
  assert (Hle : Forall2 (fun a b => b <= large_end * a) row row_m).
  { apply Forall2_same_length_lookup. split; [lia|]. intros s y z Hy Hz.
    destruct (Hrank s ltac:(apply lookup_lt_Some in Hy; lia)) as (j & Hj & Hjs).
    rewrite (Hmv j s y Hjs Hy) in Hz. injection Hz as <-.
    pose proof (Forall_lookup_1 _ _ _ _ Hnn Hy).
    destruct (mult_at_range D small_end large_end j HD Hs0 Hsl Hj) as (_ & Hm & _). nra. }
  destruct (vsum_pos_other row t x Hnn Hx ltac:(lra)) as (s & y & Hst & Hy & Hy0).
  destruct (Hrank s ltac:(apply lookup_lt_Some in Hy; lia)) as (js & Hjs & Hjss).
  assert (Hjs' : js <> (D - 1)%nat) by (intros ->; congruence).
  destruct (mult_at_range D small_end large_end js HD Hs0 Hsl Hjs) as (_ & _ & Hlt & _).
  specialize (Hlt ltac:(lia)).
  pose proof (vsum_lt_scaled row row_m large_end s y _ Hle Hy (Hmv js s y Hjss Hy)
                ltac:(nra)) as HS.
  assert (Hx0 : 0 < x) by (pose proof (Hstrict s y Hst Hy); lra).
  eexists _, _. split_and!; [exact Hs| |].
  - rewrite lookup_vdiv, (Hmv (D - 1)%nat t x Ht Hx). reflexivity.
  - apply Qlt_shift_div_l; [done|].
    set (m := mult_at D small_end large_end (D - 1)) in *.
    rewrite Hsum, Qmult_1_r, <- Htop in HS. rewrite !(Qmult_comm x). by apply Qmult_lt_r.
Qed.

End Sharpen.

(** ** The two branches of the node update *)

Lemma rows_ok_equal D dt pool :
  (forall j, j ∈ pool -> exists r, dt !! j = Some r /\ wf_dist D r) ->
  scaled_rows_ok D (row_of dt) (fun _ => 1) pool.
Proof.
  intros Hpool j Hj. destruct (Hpool j Hj) as (r & Hr & Hl & Hn & Hs).
  unfold row_of. rewrite Hr. simpl. split_and!; try done; lra.
Qed.

(** C: the converged branch (lines 281-336, spec 4.3).  Row [i] first
    becomes [avg], the equal-weight average of the snapshot rows of [i]
    and its neighbours; the differences are then taken on the live array
    where row [i] already holds [avg] (and earlier nodes their new rows);
    when their maximum [m] is below [dist_diff_thres] the row is
    sharpened, otherwise it stays [avg].  The result is a distribution. *)
Lemma converged_update_unfold `{NpPower} D dt dd i nbrs :
  nbrs <> [] -> (i < length dd)%nat ->
  (forall j, j ∈ i :: nbrs -> exists r, dt !! j = Some r /\ wf_dist D r) ->
  (forall j, j ∈ nbrs -> (j < length dd)%nat) ->
  exists avg diffs m,
    veq avg (vdiv (sum_rows D (row_of dt) (i :: nbrs)) (sum_weights (fun _ => 1) (i :: nbrs))) /\
    wf_dist D avg /\
    dist_diffs (<[i:=avg]> dd) (i :: nbrs) = Ok diffs /\ py_max diffs = Ok m /\ 0 <= m /\
    converged_update D dt dd i nbrs =
      if Qlt_le_dec m dist_diff_thres then
        let! row := sharpen D m avg in py_set (<[i:=avg]> dd) i row
      else Ok (<[i:=avg]> dd).
Proof.
  intros Hne Hi Hpool Hnb.
  destruct (Hpool i ltac:(set_solver)) as (hi & Hhi & Hwfi).
  pose proof Hwfi as (Hli & Hni & Hsi).
  destruct (accumulate_normalize (add_equal dt i) D (row_of dt) (fun _ => 1) i nbrs dd
              (vscale hi 1) 1 Hi (rows_ok_equal D dt nbrs ltac:(intros; apply Hpool; set_solver)))
    as (avg & Havg & Hwfa & Heqa).
  { by rewrite length_vscale. }
  { apply nonneg_vscale; [lra|done]. }
  { by rewrite vsum_vscale, Hsi. }
  { lra. }
  { intros dd' cur nb Hnb' Hcur. destruct (Hpool nb ltac:(set_solver)) as (v & Hv & _).
    unfold row_of. rewrite Hv. by apply add_equal_Ok. }
  apply res_bind_Ok in Havg as (dd2 & Hfold & Hnorm).
  destruct (dist_diffs_ok (<[i:=avg]> dd) (i :: nbrs)) as (diffs & Hd & Hdn & Hdl & _).
  { intros j Hj. rewrite length_insert. apply elem_of_cons in Hj as [->|Hj]; auto. }
  destruct diffs as [|d0 diffs'] eqn:Ediffs.
  { pose proof (length_comb_pairs i nbrs). destruct nbrs; [done|]. simpl in *. lia. }
  rewrite <- Ediffs in *. set (m := foldl (fun m y => if Qlt_le_dec m y then y else m) d0 diffs').
  assert (Hm : py_max diffs = Ok m) by (by rewrite Ediffs).
  exists avg, diffs, m. split_and!; [| |done|done| |].
  - rewrite Heqa. apply vdiv_proper; [|reflexivity].
    change (sum_rows D (row_of dt) (i :: nbrs)) with (vadd (row_of dt i) (sum_rows D (row_of dt) nbrs)).
    unfold row_of at 2. rewrite Hhi. simpl. apply vadd_proper; [apply vscale_1|reflexivity].
  - done.
  - destruct (py_max_spec _ _ Hm) as [Hin _]. rewrite Forall_forall in Hdn. by apply Hdn.
  - unfold converged_update, py_get at 1. rewrite Hhi. cbn [res_bind].
    rewrite py_set_Ok by done. cbn [res_bind]. rewrite Hfold. cbn [res_bind].
    rewrite Hnorm. cbn [res_bind]. rewrite Hd. cbn [res_bind]. rewrite Hm. cbn [res_bind].
    destruct (Qlt_le_dec m dist_diff_thres); [|done].
    unfold py_get. rewrite list_lookup_insert, decide_True by lia. done.
Qed.

(** The row that [converged_update] writes. *)
Lemma converged_update_row `{NpPowerLaws} D dt dd i nbrs :
  (2 <= D)%nat -> nbrs <> [] -> (i < length dd)%nat ->
  (forall j, j ∈ i :: nbrs -> exists r, dt !! j = Some r /\ wf_dist D r) ->
  (forall j, j ∈ nbrs -> (j < length dd)%nat) ->
  exists avg diffs m r,
    veq avg (vdiv (sum_rows D (row_of dt) (i :: nbrs)) (sum_weights (fun _ => 1) (i :: nbrs))) /\
    wf_dist D avg /\
    dist_diffs (<[i:=avg]> dd) (i :: nbrs) = Ok diffs /\ py_max diffs = Ok m /\
    (m < dist_diff_thres -> sharpen D m avg = Ok r) /\ (dist_diff_thres <= m -> r = avg) /\
    converged_update D dt dd i nbrs = Ok (<[i:=r]> dd) /\ wf_dist D r.
Proof.
  intros HD Hne Hi Hpool Hnb.
  destruct (converged_update_unfold D dt dd i nbrs Hne Hi Hpool Hnb)
    as (avg & diffs & m & Havg & Hwfa & Hd & Hm & Hm0 & Hconv).
  destruct (Qlt_le_dec m dist_diff_thres) as [Hlt|Hge].
  - destruct (sharpen_wf D m avg Hwfa HD Hm0 Hlt) as (r & Hr & Hwfr).
    exists avg, diffs, m, r. split_and!; try done.
    + intros Hge. lra.
    + rewrite Hconv, Hr. cbn [res_bind]. rewrite py_set_Ok by (rewrite length_insert; lia).
      by rewrite list_insert_insert_eq.
  - exists avg, diffs, m, avg. split_and!; try done. intros Hlt. lra.
Qed.

(** C9: the converged branch (lines 281-336, spec 4.3).  Row [i] first
    becomes [avg], the equal-weight average of the snapshot rows of [i]
    and its neighbours; the differences are then taken on the live array
    where row [i] already holds [avg] (and earlier nodes their new rows);
    when their maximum [m] is below [dist_diff_thres] the row is
    sharpened, otherwise it stays [avg].  The result is a distribution. *)
Theorem converged_update_spec `{NpPowerLaws} D dt dd i nbrs :
  (2 <= D)%nat -> nbrs <> [] -> (i < length dd)%nat ->
  (forall j, j ∈ i :: nbrs -> exists r, dt !! j = Some r /\ wf_dist D r) ->
  (forall j, j ∈ nbrs -> (j < length dd)%nat) ->
  exists avg diffs m r,
    veq avg (vdiv (sum_rows D (row_of dt) (i :: nbrs)) (sum_weights (fun _ => 1) (i :: nbrs))) /\
    wf_dist D avg /\
    dist_diffs (<[i:=avg]> dd) (i :: nbrs) = Ok diffs /\ py_max diffs = Ok m /\
    (m < dist_diff_thres -> sharpen D m avg = Ok r) /\ (dist_diff_thres <= m -> r = avg) /\
    converged_update D dt dd i nbrs = Ok (<[i:=r]> dd) /\ wf_dist D r.
Proof. apply converged_update_row. Qed.

Lemma forallb_lookup {A} (f : A -> bool) l i x :
  forallb f l = true -> l !! i = Some x -> f x = true.
Proof.
  intros H Hx. apply forallb_forall with (x := x) in H; [done|].
  apply list_elem_of_In. by eapply list_elem_of_lookup_2.
Qed.

Lemma update_pre_b_sound D N conn domi subsizes dd :
  update_pre_b D N conn domi subsizes dd = true -> update_pre D N conn domi subsizes dd.
Proof.
  unfold update_pre_b. intros H. repeat apply andb_true_iff in H as [H ?].
  repeat match goal with Hb : (_ =? _)%nat = true |- _ => apply Nat.eqb_eq in Hb end.
  split_and!; try done.
  - intros j r Hj. apply wf_dist_b_sound. by eapply forallb_lookup.
  - intros i nbrs j Hc Hj.
    match goal with Hf : forallb (forallb _) conn = true |- _ =>
      pose proof (forallb_lookup _ _ _ _ Hf Hc) as Hn end.
    apply forallb_forall with (x := j) in Hn; [by apply Nat.ltb_lt|by apply list_elem_of_In].
  - intros j s' Hs. apply Nat.ltb_lt. by eapply forallb_lookup.
Qed.

Lemma no_isolated_b_sound conn :
  no_isolated_b conn = true -> forall i nbrs, conn !! i = Some nbrs -> nbrs <> [].
Proof.
  intros H i nbrs Hc. pose proof (forallb_lookup _ _ _ _ H Hc) as Hn.
  apply negb_true_iff, bool_decide_eq_false in Hn. done.
Qed.

(** With one decision, line 329 divides by [deci_num - 1 = 0]: the
    sharpening always raises, whatever the row. *)
Lemma sharpen_unit_err `{NpPower} m row : sharpen 1 m row = Err ZeroDivisionError.
Proof. reflexivity. Qed.

(** On a tie [[x; y]] with [x == y == 1/2], the stable bubble sort keeps
    the order, so decision 1 gets the larger multiplier. *)
Lemma sharpen_tie_pair `{NpPowerLaws} m x y :
  0 <= m -> m < dist_diff_thres -> x == 1 # 2 -> y == 1 # 2 ->
  exists a b, sharpen 2 m [x; y] = Ok [a; b] /\ a < x /\ y < b.
Proof.
  intros Hm0 Hm1 Hx Hy.
  assert (Hwf : wf_dist 2 [x; y]).
  { split_and!; [done| |simpl; lra]. repeat constructor; lra. }
  destruct (sharpen_spec 2 m [x; y] Hwf ltac:(lia) Hm0 Hm1)
    as (idx & dt & row_m & Hb & _ & _ & _ & Hlen & Hmv & _ & Hpos & Hs).
  assert (Hb' : bubble_sort 2 [x; y] = Ok ([x; y], [0%nat; 1%nat])).
  { unfold bubble_sort. simpl. unfold py_get. simpl.
    destruct (Qlt_le_dec y x); [lra|reflexivity]. }
  rewrite Hb' in Hb. injection Hb as <- <-.
  destruct (small_large 2 m ltac:(lia) Hm0 Hm1) as (Hs0 & Hsl & _).
  set (se := 1 / Q_of_nat 2 * np_power (m / dist_diff_thres) dist_diff_power) in *.
  set (le := 2 / Q_of_nat 2 - se) in *.
  destruct (mult_at_range 2 se le 0 ltac:(lia) Hs0 Hsl ltac:(lia)) as (_ & _ & Hlt0 & _).
  destruct (mult_at_range 2 se le 1 ltac:(lia) Hs0 Hsl ltac:(lia)) as (_ & _ & _ & Htop1).
  specialize (Hlt0 ltac:(lia)). specialize (Htop1 eq_refl).
  pose proof (Hmv 0%nat 0%nat x eq_refl eq_refl) as Hp.
  pose proof (Hmv 1%nat 1%nat y eq_refl eq_refl) as Hq.
  destruct row_m as [|p [|q [|]]]; simpl in Hlen; try lia.
  simpl in Hp, Hq. injection Hp as ->. injection Hq as ->.
  rewrite Hs. simpl in Hpos |- *. eexists _, _. split; [reflexivity|].
  set (m0 := mult_at 2 se le 0) in *. set (m1 := mult_at 2 se le 1) in *.
  rewrite Hx, Hy in Hpos |- *.
  split.
  - apply Qlt_shift_div_r; [done|]. lra.
  - apply Qlt_shift_div_l; [done|]. lra.
Qed.

(** C21: spec 8.4 fails on a tie.  For the row [[1/2; 1/2]] (dominant
    decision 0, as [np.argmax] picks the first maximum), sharpening with
    any admissible [diffMax] lowers the probability of decision 0: the
    bubble sort only swaps on [>], so the tied entry of higher index gets
    the rank [D-1] and the largest multiplier. *)
Theorem sharpen_tie_lowers_dominant `{NpPowerLaws} m :
  0 <= m -> m < dist_diff_thres ->
  np_argmax [1 # 2; 1 # 2] = Ok 0%nat /\
  exists a b, sharpen 2 m [1 # 2; 1 # 2] = Ok [a; b] /\ a < 1 # 2 /\ 1 # 2 < b.
Proof.
  intros Hm0 Hm1. split; [reflexivity|].
  apply sharpen_tie_pair; done.
Qed.

(** ** The loop of line 270 *)

Section Loop.
Context `{NpPowerLaws}.
Variables (D N : nat) (conn : list (list nat)) (domi subsizes : list nat) (dt : list dist).
Hypothesis HD : (2 <= D)%nat.
Hypothesis Hpre : update_pre D N conn domi subsizes dt.

Lemma pre_row j : (j < N)%nat -> exists r, dt !! j = Some r /\ wf_dist D r.
Proof.
  intros Hj. destruct Hpre as (Hl & Hw & _).
  destruct (lookup_lt_is_Some_2 dt j ltac:(lia)) as [r Hr]. eauto.
Qed.

Lemma pre_pool i nbrs j : (i < N)%nat -> conn !! i = Some nbrs -> j ∈ i :: nbrs -> (j < N)%nat.
Proof.
  intros Hi Hc [->|Hj]%elem_of_cons; [done|]. destruct Hpre as (_ & _ & _ & Hr & _). eauto.
Qed.

(** A node with neighbours is updated in place into a distribution. *)
Lemma update_node_ok dd i nbrs :
  length dd = N -> (i < N)%nat -> conn !! i = Some nbrs -> nbrs <> [] ->
  exists r, update_node D conn domi subsizes dt dd i = Ok (<[i:=r]> dd) /\ wf_dist D r.
Proof.
  intros Hdd Hi Hc Hne. pose proof Hpre as (Hl & Hw & Hlc & Hr & Hld & Hls & Hpos).
  destruct (lookup_lt_is_Some_2 domi i ltac:(lia)) as [h Hh].
  destruct (all_converged_iff domi h nbrs) as (b & Hb & _).
  { intros nb Hnb. rewrite Hld. eauto. }
  unfold update_node, py_get at 1 2. rewrite Hh, Hc. cbn [res_bind]. rewrite Hb. cbn [res_bind].
  destruct b.
  - destruct (converged_update_row D dt dd i nbrs HD Hne ltac:(lia))
      as (avg & diffs & m & r & _ & _ & _ & _ & _ & _ & Hr' & Hwf).
    + intros j Hj. apply pre_row. by apply (pre_pool i nbrs j).
    + intros j Hj. rewrite Hdd. eauto.
    + eauto.
  - destruct (divergent_update_row D subsizes dt dd i nbrs ltac:(lia)) as (r & Hr' & Hwf & _).
    + intros j Hj. pose proof (pre_pool i nbrs j Hi Hc Hj) as HjN.
      destruct (pre_row j HjN) as (rj & Hrj & Hwj).
      destruct (lookup_lt_is_Some_2 subsizes j ltac:(lia)) as [sj Hsj]. eauto 10.
    + eauto.
Qed.

(** The isolated node: vacuously converged, its average is its own row,
    and [max] of the empty list of differences raises. *)
Lemma update_node_isolated_err dd i :
  length dd = N -> (i < N)%nat -> conn !! i = Some [] ->
  update_node D conn domi subsizes dt dd i = Err ValueError.
Proof.
  intros Hdd Hi Hc. pose proof Hpre as (Hl & Hw & Hlc & Hr & Hld & Hls & Hpos).
  destruct (lookup_lt_is_Some_2 domi i ltac:(lia)) as [h Hh].
  destruct (pre_row i Hi) as (ri & Hri & Hli & Hni & Hsi).
  unfold update_node, py_get at 1 2. rewrite Hh, Hc. cbn [res_bind all_converged].
  unfold converged_update, py_get at 1. rewrite Hri. cbn [res_bind].
  rewrite py_set_Ok by lia. cbn [res_bind res_foldl].
  rewrite (normalize_row_Ok _ i (vscale ri 1)).
  - done.
  - by rewrite list_lookup_insert, decide_True by lia.
  - apply nonneg_vscale; [lra|done].
  - rewrite vsum_vscale, Hsi. lra.
Qed.

(** The state of the loop after any prefix of the nodes. *)
Definition rows_wf (dd : list dist) : Prop :=
  length dd = N /\ forall j r, dd !! j = Some r -> wf_dist D r.

Lemma rows_wf_insert dd i r : rows_wf dd -> wf_dist D r -> rows_wf (<[i:=r]> dd).
Proof.
  intros [Hl Hw] Hr. split; [by rewrite length_insert|].
  intros j r' Hj. rewrite list_lookup_insert in Hj.
  destruct (decide _) as [[-> _]|]; [by injection Hj as <-|eauto].
Qed.

(** The update loop keeps the rows well formed. *)
Lemma update_all_rows :
  (forall i nbrs, conn !! i = Some nbrs -> nbrs <> []) ->
  exists dd', update_all D conn domi subsizes N dt = Ok dd' /\ rows_wf dd'.
Proof.
  intros Hne. pose proof Hpre as (Hl & Hw & Hlc & _).
  destruct (res_foldl_seq (update_node D conn domi subsizes dt) (fun _ dd => rows_wf dd) 0 N dt)
    as (dd' & Hr & Hwf').
  - by split.
  - intros i dd [_ Hi] Hdd.
    destruct (lookup_lt_is_Some_2 conn i ltac:(lia)) as [nbrs Hc].
    destruct (update_node_ok dd i nbrs ltac:(apply Hdd) ltac:(lia) Hc (Hne i nbrs Hc))
      as (r & Hr & Hwr).
    exists (<[i:=r]> dd). split; [done|]. by apply rows_wf_insert.
  - by exists dd'.
Qed.

(** C5: spec 8.1 for one round of updates.  When every node has a
    neighbour, the loop of line 270 succeeds and leaves [N] rows that are
    distributions over the [D] decisions. *)
Theorem update_all_wf :
  (forall i nbrs, conn !! i = Some nbrs -> nbrs <> []) ->
  exists dd', update_all D conn domi subsizes N dt = Ok dd' /\ rows_wf dd'.
Proof. apply update_all_rows. Qed.

Lemma update_loop_isolated i n : forall k dd,
  (i - k = n)%nat -> (k <= i)%nat -> (i < N)%nat -> conn !! i = Some [] -> rows_wf dd ->
  res_foldl (update_node D conn domi subsizes dt) dd (seq k (N - k)) = Err ValueError.
Proof.
  pose proof Hpre as (Hl & Hw & Hlc & _).
  induction n as [|n IH]; intros k dd Hn Hki HiN Hc [Hdd Hwd];
    (replace (N - k)%nat with (S (N - S k)) by lia); simpl.
  - assert (k = i) as -> by lia. by rewrite update_node_isolated_err.
  - destruct (lookup_lt_is_Some_2 conn k ltac:(lia)) as [nbrs Hck].
    destruct (decide (nbrs = [])) as [->|Hne]; [by rewrite update_node_isolated_err by (done || lia)|].
    destruct (update_node_ok dd k nbrs Hdd ltac:(lia) Hck Hne) as (r & Hr & Hwr).
    rewrite Hr. simpl. apply IH; [lia|lia|done|done|]. by apply rows_wf_insert.
Qed.

(** C25: spec 8.6 against the code.  A node without neighbours is
    vacuously converged, but its list of pairwise differences is empty and
    [max(dist_diff)] (line 301) raises ValueError: the round aborts
    instead of keeping the node's distribution. *)
Theorem update_all_isolated i :
  (i < N)%nat -> conn !! i = Some [] ->
  update_all D conn domi subsizes N dt = Err ValueError.
Proof.
  intros Hi Hc. pose proof Hpre as (Hl & Hw & _).
  unfold update_all. replace (seq 0 N) with (seq 0 (N - 0)) by (f_equal; lia).
  apply (update_loop_isolated i (i - 0)); [lia|lia|done|done|by split].
Qed.

End Loop.
End UpdateFacts.

(** ** Witnesses *)

Module UpdateWitnesses.
Import Dist DistFacts Update UpdateFacts.
Local Open Scope Q_scope.

(** [r ** 1], an instance of the laws for concrete runs. *)
#[local] Instance np_power_id : NpPower := fun r _ => r.
#[local] Instance np_power_id_laws : NpPowerLaws.
Proof.
  split.
  - intros r r' Hr p p' Hp. exact Hr.
  - intros r p H0 H1 _. split; [exact H0|exact H1].
  - intros p _. reflexivity.
  - intros r p H0 _ _. exact H0.
Qed.

(** The small scenario of spec 8.7: the path 0-1-2 with two decisions. *)
Definition path_conn : list (list nat) := [[1%nat]; [0%nat; 2%nat]; [1%nat]].
Definition path_dist : list dist := [[9 # 10; 1 # 10]; [1 # 2; 1 # 2]; [1 # 2; 1 # 2]].

Lemma sharpen_dominant_increases_witness :
  exists row' x', sharpen 2 0 [3 # 4; 1 # 4] = Ok row' /\ row' !! 0%nat = Some x' /\ 3 # 4 < x'.
Proof.
  apply (sharpen_dominant_increases 2 0 [3 # 4; 1 # 4]).
  - apply wf_dist_b_sound. vm_compute. reflexivity.
  - lia.
  - vm_compute. intros Hc. discriminate Hc.
  - vm_compute. reflexivity.
  - reflexivity.
  - intros s y Hs Hy. destruct s as [|[|s]]; [done| |done].
    injection Hy as <-. vm_compute. reflexivity.
  - vm_compute. reflexivity.
Defined.

(** Spec 8.5: host of subgroup size 3, one neighbour of size 1. *)
Lemma divergent_update_spec_witness :
  exists r, divergent_update [3%nat; 1%nat] [[9 # 10; 1 # 10]; [1 # 5; 4 # 5]]
              [[9 # 10; 1 # 10]; [1 # 5; 4 # 5]] 0 [1%nat]
            = Ok (<[0%nat:=r]> [[9 # 10; 1 # 10]; [1 # 5; 4 # 5]]) /\ wf_dist 2 r /\
    veq r (vdiv (sum_rows 2 (fun j => vscale (row_of [[9 # 10; 1 # 10]; [1 # 5; 4 # 5]] j)
                                                (weight [3%nat; 1%nat] j)) [0%nat; 1%nat])
                (sum_weights (weight [3%nat; 1%nat]) [0%nat; 1%nat])).
Proof.
  apply divergent_update_spec.
  - simpl. lia.
  - intros j Hj. apply elem_of_cons in Hj as [->|Hj]; [|apply elem_of_cons in Hj as [->|Hj];
      [|by apply not_elem_of_nil in Hj]]; (eexists _, _; split_and!;
      [reflexivity|apply wf_dist_b_sound; vm_compute; reflexivity|reflexivity|lia]).
Defined.

Lemma converged_update_spec_witness :
  exists avg diffs m r,
    veq avg (vdiv (sum_rows 2 (row_of path_dist) [1%nat; 0%nat; 2%nat])
                  (sum_weights (fun _ => 1) [1%nat; 0%nat; 2%nat])) /\
    wf_dist 2 avg /\
    dist_diffs (<[1%nat:=avg]> path_dist) [1%nat; 0%nat; 2%nat] = Ok diffs /\ py_max diffs = Ok m /\
    (m < dist_diff_thres -> sharpen 2 m avg = Ok r) /\ (dist_diff_thres <= m -> r = avg) /\
    converged_update 2 path_dist path_dist 1 [0%nat; 2%nat] = Ok (<[1%nat:=r]> path_dist) /\
    wf_dist 2 r.
Proof.
  apply converged_update_spec.
  - lia.
  - discriminate.
  - simpl. lia.
  - intros j Hj. repeat (apply elem_of_cons in Hj as [->|Hj];
      [eexists; split; [reflexivity|apply wf_dist_b_sound; vm_compute; reflexivity]|]).
    by apply not_elem_of_nil in Hj.
  - intros j Hj. repeat (apply elem_of_cons in Hj as [->|Hj]; [simpl; lia|]).
    by apply not_elem_of_nil in Hj.
Defined.

Lemma all_converged_spec_witness :
  exists b, all_converged [0%nat; 0%nat; 1%nat] 0 [1%nat; 2%nat] = Ok b /\
    (b = true <-> forall nb, nb ∈ [1%nat; 2%nat] -> [0%nat; 0%nat; 1%nat] !! nb = Some 0%nat).
Proof.
  apply all_converged_spec.
  intros nb Hnb. repeat (apply elem_of_cons in Hnb as [->|Hnb]; [simpl; lia|]).
  by apply not_elem_of_nil in Hnb.
Defined.

Lemma update_all_wf_witness :
  exists dd', update_all 2 path_conn [0%nat; 0%nat; 0%nat] [3%nat; 3%nat; 3%nat] 3 path_dist = Ok dd' /\
    rows_wf 2 3 dd'.
Proof.
  apply update_all_wf.
  - lia.
  - apply update_pre_b_sound. vm_compute. reflexivity.
  - apply no_isolated_b_sound. vm_compute. reflexivity.
Defined.

Lemma update_all_isolated_witness :
  update_all 2 [[1%nat]; [0%nat]; []] [0%nat; 0%nat; 0%nat] [2%nat; 2%nat; 1%nat] 3 path_dist
  = Err ValueError.
Proof.
  apply (update_all_isolated 2 3 [[1%nat]; [0%nat]; []] [0%nat; 0%nat; 0%nat] [2%nat; 2%nat; 1%nat]
           path_dist ltac:(lia) ltac:(apply update_pre_b_sound; vm_compute; reflexivity) 2).
  - lia.
  - reflexivity.
Defined.

Lemma sharpen_tie_lowers_dominant_witness :
  np_argmax [1 # 2; 1 # 2] = Ok 0%nat /\
  exists a b, sharpen 2 0 [1 # 2; 1 # 2] = Ok [a; b] /\ a < 1 # 2 /\ 1 # 2 < b.
Proof.
  apply sharpen_tie_lowers_dominant.
  - vm_compute. intros Hc. discriminate Hc.
  - vm_compute. reflexivity.
Defined.

End UpdateWitnesses.
