(* ===== verification/Ranking.v ===== *)
(** * The ranking of [sharpen] is a stable sort (lines 314-326)

    The bubble sort of [sharpen] orders the decisions of a row by their
    probability.  It exchanges two neighbours only when the later one is
    strictly smaller, so decisions of equal probability keep their order:
    the permutation [sort_index] it returns is the stable sort of
    [range(deci_num)] by probability.  This file states that as an
    equivalence with a reference sort, stdpp's [merge_sort], under the
    order [stable_le] that compares probabilities and breaks ties by
    decision index. *)

From stdpp Require Import sorting.
From S2P Require Import Prelude Distribution Update.

Module Ranking.
Import Dist Update UpdateFacts.
Local Open Scope Q_scope.

(** The probability of decision [s] ([0] out of range). *)
Definition entry (row : dist) (s : nat) : Q := default 0 (row !! s).

(** Decision [s] ranks at or below [t]: smaller probability, or equal
    probability and an index not larger. *)
Definition stable_le (row : dist) (s t : nat) : Prop :=
  entry row s < entry row t \/ (entry row s == entry row t /\ (s <= t)%nat).

#[export] Instance stable_le_dec row : RelDecision (stable_le row).
Proof.
  intros s t. unfold stable_le.
  destruct (Qlt_le_dec (entry row s) (entry row t)) as [Hlt|Hge]; [left; by left|].
  destruct (Qeq_dec (entry row s) (entry row t)) as [Heq|Hne].
  - destruct (decide (s <= t)%nat); [left; by right|right; intros [?|[? ?]]; [lra|lia]].
  - right. intros [?|[? ?]]; lra.
Defined.

(** The reference ranking: the decisions sorted by [stable_le]. *)
Definition rank_order (row : dist) : list nat := merge_sort (stable_le row) (seq 0 (length row)).

End Ranking.

Module RankingFacts.
Import Dist Update UpdateFacts Ranking.
Local Open Scope Q_scope.

#[export] Instance stable_le_trans row : Transitive (stable_le row).
Proof. intros s t u [?|[? ?]] [?|[? ?]]; unfold stable_le; [left; lra|left; lra|left; lra|right; split; [lra|lia]]. Qed.

#[export] Instance stable_le_total row : Total (stable_le row).
Proof.
  intros s t. unfold stable_le.
  destruct (Qlt_le_dec (entry row s) (entry row t)); [by left; left|].
  destruct (Qeq_dec (entry row s) (entry row t)) as [Heq|Hne].
  - destruct (decide (s <= t)%nat); [left; right; split; [done|lia]|right; right; split; [lra|lia]].
  - right. left. apply Qle_lteq in q as [?|?]; [done|]. exfalso. apply Hne. lra.
Qed.

#[export] Instance stable_le_antisymm row : AntiSymm (=) (stable_le row).
Proof. intros s t [?|[? ?]] [?|[? ?]]; try lra; lia. Qed.

(** ** The exchanges keep equal entries in order *)

(** The position an entry comes from after [py_swap k]. *)
Definition swap_pos (k p : nat) : nat :=
  if decide (p = k) then S k else if decide (p = S k) then k else p.

Lemma py_swap_lookup {A} k (l l' : list A) :
  py_swap k l = Ok l' -> forall p, l' !! p = l !! swap_pos k p.
Proof.
  intros Hs p. destruct (l !! k) as [a|] eqn:Ha; [|unfold py_swap, py_get in Hs; by rewrite Ha in Hs].
  destruct (l !! S k) as [b|] eqn:Hb;
    [|unfold py_swap, py_get in Hs; rewrite Ha in Hs; simpl in Hs; by rewrite Hb in Hs].
  rewrite (py_swap_Ok _ _ a b Ha Hb) in Hs. injection Hs as <-.
  rewrite (lookup_swap _ _ _ _ _ Ha Hb). unfold swap_pos.
  repeat case_decide; subst; done || lia.
Qed.

Lemma swap_pos_lt k p q :
  (p < q)%nat -> ~ (p = k /\ q = S k) -> (swap_pos k p < swap_pos k q)%nat.
Proof. intros Hpq Hne. unfold swap_pos. repeat case_decide; lia. Qed.

(** Entries that compare equal appear with increasing decisions. *)
Definition stable (st : dist * list nat) : Prop :=
  forall p q x y s t, (p < q)%nat -> st.1 !! p = Some x -> st.1 !! q = Some y -> x == y ->
    st.2 !! p = Some s -> st.2 !! q = Some t -> (s < t)%nat.

Lemma stable_start row : stable (row, seq 0 (length row)).
Proof.
  intros p q x y s t Hpq _ _ _ Hs Ht. simpl in *.
  apply lookup_seq in Hs as [-> _], Ht as [-> _]. lia.
Qed.

Lemma bubble_step_stable st k st' : stable st -> bubble_step st k = Ok st' -> stable st'.
Proof.
  destruct st as [v idx]. unfold bubble_step.
  destruct (py_get v k) as [a|] eqn:Ha; simpl; [|done].
  destruct (py_get v (S k)) as [b|] eqn:Hb; simpl; [|done].
  destruct (Qlt_le_dec b a) as [Hlt|Hle]; [|by intros ? [= <-]].
  destruct (py_swap k v) as [v'|] eqn:Hv; simpl; [|done].
  destruct (py_swap k idx) as [idx'|] eqn:Hi; simpl; [|done].
  intros Hst [= <-]. apply py_get_Ok in Ha, Hb.
  intros p q x y s t Hpq Hx Hy Hxy Hs Ht. simpl in *.
  rewrite (py_swap_lookup k v v' Hv) in Hx, Hy.
  rewrite (py_swap_lookup k idx idx' Hi) in Hs, Ht.
  destruct (decide (p = k /\ q = S k)) as [[-> ->]|Hne].
  - assert (swap_pos k k = S k /\ swap_pos k (S k) = k) as [Ek ESk]
      by (unfold swap_pos; split; repeat case_decide; lia).
    rewrite Ek, Hb in Hx. rewrite ESk, Ha in Hy. injection Hx as <-. injection Hy as <-. lra.
  - exact (Hst _ _ x y s t (swap_pos_lt k p q Hpq Hne) Hx Hy Hxy Hs Ht).
Qed.

Lemma bubble_sort_stable row v idx :
  bubble_sort (length row) row = Ok (v, idx) -> stable (v, idx).
Proof.
  unfold bubble_sort. intros Hb.
  apply (res_foldl_seq_inv _ (fun _ st => stable st) 0 _ _ _ Hb); [apply stable_start|].
  intros j st st' _ Hst Hpass.
  apply (res_foldl_seq_inv _ (fun _ st => stable st) 0 _ _ _ Hpass); [done|].
  intros k b b' _ Hb' Hstep. exact (bubble_step_stable b k b' Hb' Hstep).
Qed.

(** ** The equivalence *)

(** A list is strongly sorted when every earlier entry is related to
    every later one. *)
Lemma StronglySorted_lookup_2 {A} (R : relation A) (l : list A) :
  (forall p q x y, (p < q)%nat -> l !! p = Some x -> l !! q = Some y -> R x y) ->
  StronglySorted R l.
Proof.
  induction l as [|x l IH]; intros Hl; constructor.
  - apply IH. intros p q a b Hpq Ha Hb. apply (Hl (S p) (S q)); [lia|done|done].
  - apply Forall_lookup. intros q y Hy. apply (Hl 0%nat (S q)); [lia|done|done].
Qed.

Lemma entry_lookup row s x : row !! s = Some x -> entry row s = x.
Proof. unfold entry. by intros ->. Qed.

(** C11: Lines 314-326 compute a stable sort: the [sort_index] that the
    bubble sort returns is the reference ranking [rank_order], stdpp's
    [merge_sort] of [range(deci_num)] by probability with ties kept in
    index order, and [dist_temp] is the row read along it. *)
Theorem bubble_sort_merge_sort (row : dist) :
  exists dist_temp,
    bubble_sort (length row) row = Ok (dist_temp, rank_order row) /\
    dist_temp = map (entry row) (rank_order row).
Proof.
  destruct (bubble_sort_ok row) as (v & idx & Hb & Hperm & Hl & Hasc).
  pose proof (bubble_sort_stable row v idx Hb) as Hst.
  assert (Hin : forall p s, idx !! p = Some s -> exists x, row !! s = Some x /\ v !! p = Some x).
  { intros p s Hs. rewrite Hl, Hs. simpl. destruct (row !! s) as [x|] eqn:Hx; [eauto|].
    apply list_elem_of_lookup_2 in Hs. rewrite Hperm, elem_of_seq in Hs.
    apply lookup_ge_None in Hx. lia. }
  assert (Hidx : idx = rank_order row).
  { apply (StronglySorted_unique (stable_le row)).
    - apply StronglySorted_lookup_2. intros p q s t Hpq Hs Ht.
      destruct (Hin p s Hs) as (x & Hx & Hvx). destruct (Hin q t Ht) as (y & Hy & Hvy).
      pose proof (Hasc p q x y Hpq Hvx Hvy) as Hxy. unfold stable_le.
      rewrite (entry_lookup _ _ _ Hx), (entry_lookup _ _ _ Hy).
      apply Qle_lteq in Hxy as [Hlt|Heq]; [by left|right].
      split; [done|]. pose proof (Hst p q x y s t Hpq Hvx Hvy Heq Hs Ht). lia.
    - apply StronglySorted_merge_sort; apply _.
    - unfold rank_order. by rewrite merge_sort_Permutation. }
  subst idx. exists v. split; [done|].
  apply list_eq. intros p. rewrite list_lookup_fmap.
  destruct (rank_order row !! p) as [s|] eqn:Hs; simpl.
  - destruct (Hin p s Hs) as (x & Hx & Hvx). rewrite Hvx, (entry_lookup _ _ _ Hx). done.
  - rewrite Hl, Hs. done.
Qed.

End RankingFacts.
