(* ===== verification/Round.v ===== *)
(** * One iteration of the simulation loop (lines 143-206, 211-345, 386-387)

    [Round.round] is the body of [while not sim_exit] once the events are
    handled: the dominant decisions of line 212 ([dominant], numpy's
    [np.argmax(deci_dist, axis=1)]), the subgroup search and the sizes of
    [Subgroup], then the update loop of [Update].  [init_state] is the
    preparation of lines 146-155 from the random matrix of line 146.
    [handle_event] and [loop_iteration] are the event handling of lines
    196-206 and the iteration count of lines 386-387; [run_loop] is the
    loop [while not sim_exit] over the events of successive passes, from
    [loop_init] (lines 188-190), and [loop_step] the same loop as a step
    relation on [loop_state] (a pass on some events).

    The theorems: any number of rounds map a well-formed state to a
    well-formed one ([run_rounds_wf]); on given events the loop runs one
    round per running pass ([loop_runs_rounds]), a space key pauses it
    and freezes its state ([loop_pause_freezes]), and a close, Esc or Q
    ends it with the pass that receives it ([loop_quit_stops]); with a
    single decision the first round raises ZeroDivisionError
    ([round_unit_err]); and the small scenario of spec 8.7 is computed. *)

From stdpp Require Import sets relations.
From S2P Require Import Prelude Topology Distribution Subgroup Update.

Module Round.
Import Dist Subgroup Update.
Local Open Scope Q_scope.

(** The state the rounds carry from one to the next. *)
Record sim_state := mkState {
  deci_dist : list dist;
  subsizes : list nat
}.

(** Line 212 (and line 152): [np.argmax(deci_dist, axis=1)]. *)
Definition dominant (dd : list dist) : res (list nat) := res_mapM np_argmax dd.

(** Lines 146-155 from the random matrix [raw] of line 146: every row is
    divided by its sum, the dominant decisions are computed once (line
    152) and the subgroup sizes start at [0] (line 155). *)
Definition init_state (net_size : nat) (raw : list dist) : res sim_state :=
  let! deci_dist := res_mapM normalize raw in
  let! _ := dominant deci_dist in
  Ok (mkState deci_dist (replicate net_size 0%nat)).

Section Loop.
Context `{NpPower}.
Variable deci_num : nat.
Variable connection_lists : list (list nat).
Variable net_size : nat.

(** Lines 211-345. *)
Definition round (st : sim_state) : res sim_state :=
  let! deci_domi := dominant (deci_dist st) in
  let! subgroups := detect_subgroups connection_lists deci_domi net_size in
  let! subsizes' := update_subsizes net_size (subsizes st) subgroups in
  let! deci_dist' := update_all deci_num connection_lists deci_domi subsizes' net_size
                       (deci_dist st) in
  Ok (mkState deci_dist' subsizes').

(** [k] rounds in a row. *)
Fixpoint run_rounds (k : nat) (st : sim_state) : res sim_state :=
  match k with
  | 0%nat => Ok st
  | S k' => let! st' := round st in run_rounds k' st'
  end.

(** The pygame events the loop reacts to (lines 196-203). *)
Inductive key := K_SPACE | K_ESCAPE | K_q | K_other.
Inductive event := QUIT | KEYUP (k : key) | OTHER.

Record flags := mkFlags { sim_exit : bool; sim_pause : bool }.

(** Lines 197-203, one event. *)
Definition handle_event (f : flags) (e : event) : flags :=
  match e with
  | QUIT => mkFlags true (sim_pause f)
  | KEYUP k =>
      let f1 := match k with
                | K_SPACE => mkFlags (sim_exit f) (negb (sim_pause f))
                | _ => f
                end in
      match k with
      | K_ESCAPE | K_q => mkFlags true (sim_pause f1)
      | _ => f1
      end
  | OTHER => f
  end.

Record loop_state := mkLoop {
  ls_flags : flags;
  iter_count : nat;
  ls_sim : sim_state
}.

(** Lines 188-190: the loop starts paused. *)
Definition loop_init (st : sim_state) : loop_state :=
  mkLoop (mkFlags false true) 0 st.

(** One pass of [while not sim_exit] (lines 196-387) on the events
    [events] that arrived: when paused, [continue] skips the round;
    otherwise the round runs (also when an event of this pass has just
    set [sim_exit]) and [iter_count] grows. *)
Definition loop_iteration (events : list event) (ls : loop_state) : res loop_state :=
  let fl := foldl handle_event (ls_flags ls) events in
  if sim_pause fl then Ok (mkLoop fl (iter_count ls) (ls_sim ls))
  else
    let! st' := round (ls_sim ls) in
    Ok (mkLoop fl (S (iter_count ls)) st').

(** The loop: a pass happens while [sim_exit] is false. *)
Inductive loop_step : loop_state -> loop_state -> Prop :=
| loop_step_intro events ls ls' :
    sim_exit (ls_flags ls) = false ->
    loop_iteration events ls = Ok ls' ->
    loop_step ls ls'.

(** Lines 194-206 and 387-388 over the events of successive passes:
    [while not sim_exit], one pass per list of events. *)
Fixpoint run_loop (evss : list (list event)) (ls : loop_state) : res loop_state :=
  match evss with
  | [] => Ok ls
  | events :: rest =>
      if sim_exit (ls_flags ls) then Ok ls
      else let! ls' := loop_iteration events ls in run_loop rest ls'
  end.

End Loop.

(** A well-formed state: [N] distributions over [D] decisions and [N]
    subgroup sizes. *)
Definition state_wf (D N : nat) (st : sim_state) : Prop :=
  length (deci_dist st) = N /\ (forall j r, deci_dist st !! j = Some r -> wf_dist D r) /\
  length (subsizes st) = N.

(** The small scenario of spec 8.7: the path 0-1-2, two decisions, the
    rows [[0.9, 0.1]], [[0.5, 0.5]], [[0.5, 0.5]]. *)
Definition spec87_conn : list (list nat) := [[1%nat]; [0%nat; 2%nat]; [1%nat]].
Definition spec87_dist : list dist := [[9 # 10; 1 # 10]; [1 # 2; 1 # 2]; [1 # 2; 1 # 2]].

(** [state_wf] as a boolean test, for concrete states. *)
Definition state_wf_b (D N : nat) (st : sim_state) : bool :=
  (length (deci_dist st) =? N)%nat && forallb (wf_dist_b D) (deci_dist st) &&
  (length (subsizes st) =? N)%nat.

End Round.

Module RoundFacts.
Import Dist DistFacts Subgroup SubgroupFacts Update UpdateFacts Round.
Local Open Scope Q_scope.

Lemma np_argmax_ok (l : dist) : l <> [] -> exists k, np_argmax l = Ok k.
Proof. destruct l; [done|]. intros _. simpl. eauto. Qed.

Section Prepare.
Context `{NpPower}.
Context {N : nat} {conn : list (list nat)} `{!WfTopology N conn}.
Variables (D : nat) (st : sim_state).
Hypothesis HD : (1 <= D)%nat.
Hypothesis Hst : state_wf D N st.

(** The first three steps of a round succeed on a well-formed state and
    give the update loop a well-formed input: the round is the update
    loop with those dominant decisions and subgroup sizes. *)
Lemma round_prepare :
  exists deci_domi ss,
    Forall2 (fun r k => np_argmax r = Ok k) (deci_dist st) deci_domi /\
    update_pre D N conn deci_domi ss (deci_dist st) /\
    round D conn N st =
      (let! dd' := update_all D conn deci_domi ss N (deci_dist st) in Ok (mkState dd' ss)).
Proof.
  destruct Hst as (Hl & Hw & Hls).
  destruct (res_mapM_ok np_argmax (fun r k => np_argmax r = Ok k) (deci_dist st))
    as (domi & Hdomi & Hf2).
  { intros x Hx. apply list_elem_of_lookup_1 in Hx as [j Hj].
    destruct (Hw j x Hj) as (Hxl & _). destruct (np_argmax_ok x) as [k Hk].
    { intros ->. simpl in Hxl. lia. }
    eauto. }
  assert (Hdl : length domi = N) by (rewrite <- (Forall2_length _ _ _ Hf2); done).
  destruct (detect_subgroups_ok domi Hdl) as (gs & Hgs & [Hcov _]).
  pose proof (covers_perm_seq N _ Hcov) as Hperm. rewrite app_nil_l in Hperm.
  destruct (update_subsizes_sizes N (subsizes st) gs Hperm Hls) as (ss & Hss & Hssl & Hsz).
  exists domi, ss. split_and!; [done| |].
  - unfold update_pre. split_and!; try done.
    + apply topo_length.
    + intros i nbrs j Hc Hj. apply (topo_range i j). by rewrite (list_lookup_total_correct _ _ _ Hc).
    + intros j s Hs. assert (HjN : (j < N)%nat) by (apply lookup_lt_Some in Hs; lia).
      assert (Hjc : j ∈ concat gs) by (rewrite Hperm, elem_of_seq; lia).
      apply elem_of_concat_iff in Hjc as (g & Hjg & Hg).
      rewrite (Hsz g j Hg Hjg) in Hs. injection Hs as <-.
      destruct g; [by apply not_elem_of_nil in Hjg|simpl; lia].
  - unfold round, dominant. rewrite Hdomi. cbn [res_bind]. rewrite Hgs. cbn [res_bind].
    rewrite Hss. done.
Qed.

End Prepare.

Lemma state_wf_b_sound D N st : state_wf_b D N st = true -> state_wf D N st.
Proof.
  unfold state_wf_b. intros H. repeat apply andb_true_iff in H as [H ?].
  apply Nat.eqb_eq in H. split_and!; [done| |by apply Nat.eqb_eq].
  intros j r Hj. apply wf_dist_b_sound. by eapply forallb_lookup.
Qed.

Lemma state_wf_rows D N st : state_wf D N st -> rows_wf D N (deci_dist st).
Proof. intros (? & ? & _). by split. Qed.

(** Two distributions over a single decision do not differ. *)
Lemma l1_diff_unit a b : wf_dist 1 a -> wf_dist 1 b -> l1_diff a b == 0.
Proof.
  intros (Ha & _ & Hsa) (Hb & _ & Hsb).
  destruct a as [|x [|]]; simpl in Ha; try lia. destruct b as [|y [|]]; simpl in Hb; try lia.
  simpl in Hsa, Hsb. unfold l1_diff. cbn [zip_with map vsum foldr].
  assert (Hxy : x - y == 0) by lra. rewrite (Qabs_wd _ _ Hxy). reflexivity.
Qed.

Section Rounds.
Context `{NpPowerLaws}.
Context {N : nat} {conn : list (list nat)} `{!WfTopology N conn}.
Variable D : nat.
Hypothesis HD : (2 <= D)%nat.
Hypothesis Hiso : forall i, (i < N)%nat -> conn !!! i <> [].

Lemma conn_nonempty i nbrs : conn !! i = Some nbrs -> nbrs <> [].
Proof.
  intros Hc. rewrite <- (list_lookup_total_correct _ _ _ Hc). apply Hiso.
  apply lookup_lt_Some in Hc. rewrite topo_length in Hc. done.
Qed.

Lemma round_ok st :
  state_wf D N st -> exists st', round D conn N st = Ok st' /\ state_wf D N st'.
Proof.
  intros Hst.
  destruct (round_prepare D st ltac:(lia) Hst) as (domi & ss & _ & Hpre & ->).
  destruct (update_all_rows D N conn domi ss (deci_dist st) HD Hpre conn_nonempty)
    as (dd' & -> & Hl' & Hw').
  eexists. split; [reflexivity|]. split_and!; [done|done|]. apply Hpre.
Qed.

(** Rounds in a row keep the state well formed. *)
Lemma run_rounds_ok k st :
  state_wf D N st -> exists st', run_rounds D conn N k st = Ok st' /\ state_wf D N st'.
Proof.
  revert st. induction k as [|k IH]; intros st Hst; [by exists st|].
  destruct (round_ok st Hst) as (st1 & Hr & Hst1). simpl. rewrite Hr. cbn [res_bind].
  by apply IH.
Qed.

(** C1: spec 8.1 over any number of rounds.  On a well-formed topology
    where every node has a neighbour, with at least two decisions, [k]
    rounds from a well-formed state never raise and end in a well-formed
    state: [N] distributions over the [D] decisions. *)
Theorem run_rounds_wf k st :
  state_wf D N st -> exists st', run_rounds D conn N k st = Ok st' /\ state_wf D N st'.
Proof. apply run_rounds_ok. Qed.

Lemma loop_iteration_ok events ls :
  state_wf D N (ls_sim ls) ->
  exists ls', loop_iteration D conn N events ls = Ok ls' /\ state_wf D N (ls_sim ls').
Proof.
  intros Hst. unfold loop_iteration.
  destruct (sim_pause _); [by eexists|].
  destruct (round_ok _ Hst) as (st' & -> & Hst'). by eexists.
Qed.

(** ** Events and progress of the loop *)

Definition quit_event (e : event) : Prop :=
  e = QUIT \/ e = KEYUP K_ESCAPE \/ e = KEYUP K_q.

Lemma handle_event_exit f e :
  sim_exit f = true \/ quit_event e -> sim_exit (handle_event f e) = true.
Proof. intros [Hf|[->|[->| ->]]]; [destruct e as [| [] |]|..]; simpl; done. Qed.

Lemma foldl_handle_exit f events :
  sim_exit f = true \/ Exists quit_event events ->
  sim_exit (foldl handle_event f events) = true.
Proof.
  revert f. induction events as [|e events IH]; intros f Hf; simpl.
  - destruct Hf as [Hf|Hf]; [done|by apply Exists_nil in Hf].
  - apply IH. destruct Hf as [Hf|Hf%Exists_cons]; [left; apply handle_event_exit; auto|].
    destruct Hf as [Hq|Hq]; [left; apply handle_event_exit; auto|auto].
Qed.

(** Passes without events from the running flags run one round each. *)
Lemma running_loop k ls :
  state_wf D N (ls_sim ls) -> ls_flags ls = mkFlags false false ->
  exists ls', run_loop D conn N (replicate k []) ls = Ok ls' /\ ls_flags ls' = mkFlags false false /\
    iter_count ls' = (iter_count ls + k)%nat /\ run_rounds D conn N k (ls_sim ls) = Ok (ls_sim ls').
Proof.
  revert ls. induction k as [|k IH]; intros ls Hst Hfl.
  - exists ls. split_and!; [done|done|lia|done].
  - destruct (round_ok _ Hst) as (st1 & Hr & Hst1).
    destruct (IH (mkLoop (mkFlags false false) (S (iter_count ls)) st1) Hst1 eq_refl)
      as (ls' & Hn & Hfl' & Hc & Hrun).
    exists ls'. split_and!; [|done|simpl in Hc; lia|by simpl; rewrite Hr].
    simpl. rewrite Hfl. unfold loop_iteration. simpl. rewrite Hfl, Hr. exact Hn.
Qed.

(** C12: Progress of the loop of lines 194-387.  From the start (paused,
    count 0) on a well-formed state, the passes receiving a space key and
    then [k] passes without events run the rounds one per pass: after
    them the loop has not exited, [iter_count] is [k + 1], and its state
    is the one of [k + 1] rounds in a row. *)
Theorem loop_runs_rounds k st0 :
  state_wf D N st0 ->
  exists ls, run_loop D conn N ([KEYUP K_SPACE] :: replicate k []) (loop_init st0) = Ok ls /\
    sim_exit (ls_flags ls) = false /\ iter_count ls = S k /\
    run_rounds D conn N (S k) st0 = Ok (ls_sim ls).
Proof.
  intros Hst. destruct (round_ok _ Hst) as (st1 & Hr & Hst1).
  destruct (running_loop k (mkLoop (mkFlags false false) 1 st1) Hst1 eq_refl)
    as (ls & Hn & Hfl & Hc & Hrun).
  exists ls. split_and!.
  - simpl. unfold loop_iteration. simpl. rewrite Hr. exact Hn.
  - by rewrite Hfl.
  - simpl in Hc. lia.
  - simpl. rewrite Hr. done.
Qed.

(** C22: A window close, Esc or Q ends the loop with the pass that
    receives it: that pass completes on a well-formed state, running its
    round unless it is paused (the quit does not cancel the round), it
    sets [sim_exit], and the loop ends there whatever events would come
    next. *)
Theorem loop_quit_stops ls events rest :
  state_wf D N (ls_sim ls) -> sim_exit (ls_flags ls) = false -> Exists quit_event events ->
  exists ls', loop_iteration D conn N events ls = Ok ls' /\
    run_loop D conn N (events :: rest) ls = Ok ls' /\ sim_exit (ls_flags ls') = true /\
    (sim_pause (foldl handle_event (ls_flags ls) events) = false ->
     round D conn N (ls_sim ls) = Ok (ls_sim ls')).
Proof.
  intros Hst Hex Hq.
  destruct (loop_iteration_ok events ls Hst) as (ls' & Hit & _).
  pose proof (foldl_handle_exit (ls_flags ls) events (or_intror Hq)) as He.
  assert (Hexit : sim_exit (ls_flags ls') = true /\
            (sim_pause (foldl handle_event (ls_flags ls) events) = false ->
             round D conn N (ls_sim ls) = Ok (ls_sim ls'))).
  { revert Hit. unfold loop_iteration. destruct (sim_pause _); intros Hit.
    - injection Hit as <-. split; [exact He|discriminate].
    - destruct (round D conn N (ls_sim ls)) as [st'|]; simpl in Hit; [|discriminate].
      injection Hit as <-. split; [exact He|reflexivity]. }
  destruct Hexit as [Hexit Hround].
  exists ls'. split_and!; [exact Hit| |exact Hexit|exact Hround].
  simpl. rewrite Hex, Hit. cbn [res_bind]. destruct rest; simpl; [reflexivity|by rewrite Hexit].
Qed.

End Rounds.

(** C23: A space key while running pauses the simulation (lines 198-199
    and 206): the pass that receives it skips the round, and the passes
    without events that follow change neither the state nor the count,
    and do not end the loop. *)
Theorem loop_pause_freezes `{NpPower} D conn N ls k :
  ls_flags ls = mkFlags false false ->
  run_loop D conn N ([KEYUP K_SPACE] :: replicate k []) ls
  = Ok (mkLoop (mkFlags false true) (iter_count ls) (ls_sim ls)).
Proof.
  intros Hfl. destruct ls as [fl c st]. cbn in Hfl. subst fl.
  change (run_loop D conn N (replicate k []) (mkLoop (mkFlags false true) c st)
          = Ok (mkLoop (mkFlags false true) c st)).
  induction k as [|k IH]; [reflexivity|exact IH].
Qed.

Section Unit.
Context `{NpPower}.
Context {N : nat} {conn : list (list nat)} `{!WfTopology N conn}.
Hypothesis Hiso : forall i, (i < N)%nat -> conn !!! i <> [].
Hypothesis HN : (1 <= N)%nat.

Lemma domi_unit dd domi :
  (forall j r, dd !! j = Some r -> wf_dist 1 r) ->
  Forall2 (fun r k => np_argmax r = Ok k) dd domi ->
  forall j k, domi !! j = Some k -> k = 0%nat.
Proof.
  intros Hw Hf j k Hk. destruct (Forall2_lookup_r _ _ _ _ _ Hf Hk) as (r & Hr & Ha).
  destruct (Hw j r Hr) as (Hl & _). destruct r as [|x [|]]; simpl in Hl; try lia.
  simpl in Ha. by injection Ha as <-.
Qed.

(** C26: spec 6 allows any positive [decisionCount], but with one decision
    every node agrees with its neighbours, every difference is [0 < 0.3],
    and line 329 divides by [deci_num - 1 = 0]: the first round on a
    connected network raises ZeroDivisionError. *)
Theorem round_unit_err st :
  state_wf 1 N st -> round 1 conn N st = Err ZeroDivisionError.
Proof.
  intros Hst. pose proof Hst as (Hl & Hw & _).
  destruct (round_prepare 1 st ltac:(lia) Hst) as (domi & ss & Hf & Hpre & ->).
  pose proof Hpre as (_ & _ & Hlc & Hr & Hld & _).
  assert (Hd0 : forall j, (j < N)%nat -> domi !! j = Some 0%nat).
  { intros j Hj. destruct (lookup_lt_is_Some_2 domi j ltac:(lia)) as [k Hk].
    by rewrite (domi_unit _ _ Hw Hf j k Hk) in Hk. }
  destruct (lookup_lt_is_Some_2 conn 0 ltac:(lia)) as [nbrs Hc].
  assert (Hne : nbrs <> []) by (rewrite <- (list_lookup_total_correct _ _ _ Hc); apply Hiso; lia).
  assert (Hnb : forall j, j ∈ nbrs -> (j < N)%nat) by eauto.
  destruct (all_converged_iff domi 0 nbrs) as (b & Hb & Hiff).
  { intros j Hj. rewrite Hld. auto. }
  assert (b = true) as -> by (apply Hiff; intros j Hj; auto).
  destruct (converged_update_unfold 1 (deci_dist st) (deci_dist st) 0 nbrs Hne ltac:(lia))
    as (avg & diffs & m & _ & Hwfa & Hd & Hm & _ & Hconv).
  { intros j Hj. assert (Hj' : (j < N)%nat) by (apply elem_of_cons in Hj as [->|Hj]; auto; lia).
    destruct (lookup_lt_is_Some_2 (deci_dist st) j ltac:(lia)) as [r Hr']. eauto. }
  { intros j Hj. rewrite Hl. auto. }
  destruct (dist_diffs_ok (<[0%nat:=avg]> (deci_dist st)) (0%nat :: nbrs)) as (l & Hl' & _ & _ & Hfrom).
  { intros j Hj. rewrite length_insert, Hl. apply elem_of_cons in Hj as [->|Hj]; auto; lia. }
  rewrite Hd in Hl'. injection Hl' as <-.
  assert (Hm0 : m == 0).
  { destruct (py_max_spec _ _ Hm) as [Hin _]. rewrite Forall_forall in Hfrom.
    destruct (Hfrom m Hin) as (j & k & a & c & _ & _ & Ha & Hc' & ->).
    destruct (rows_wf_insert 1 N (deci_dist st) 0 avg (state_wf_rows _ _ _ Hst) Hwfa) as [_ Hins].
    apply l1_diff_unit; eauto. }
  unfold update_all. replace (seq 0 N) with (0%nat :: seq 1 (N - 1))
    by (destruct N; [lia|simpl; repeat f_equal; lia]).
  cbn [res_foldl]. unfold update_node, py_get at 1 2. rewrite (Hd0 0%nat ltac:(lia)), Hc.
  cbn [res_bind]. rewrite Hb. cbn [res_bind]. rewrite Hconv.
  destruct (Qlt_le_dec m dist_diff_thres) as [_|Hge]; [|unfold dist_diff_thres in Hge; lra].
  by rewrite sharpen_unit_err.
Qed.

End Unit.

(** The round of the scenario of spec 8.7, computed. *)
Lemma round_spec87_run `{NpPowerLaws} :
  exists st', round 2 spec87_conn 3 (mkState spec87_dist [0%nat; 0%nat; 0%nat]) = Ok st' /\
    subsizes st' = [3%nat; 3%nat; 3%nat] /\
    exists r0 r1 a b, deci_dist st' = [r0; r1; [a; b]] /\
      veq r0 [7 # 10; 3 # 10] /\ veq r1 [19 # 30; 11 # 30] /\ a < 1 # 2 /\ 1 # 2 < b.
Proof.
  unfold round.
  assert (E1 : dominant spec87_dist = Ok [0%nat; 0%nat; 0%nat]) by (vm_compute; reflexivity).
  assert (E2 : detect_subgroups spec87_conn [0%nat; 0%nat; 0%nat] 3 = Ok [[0%nat; 1%nat; 2%nat]])
    by (vm_compute; reflexivity).
  assert (E3 : update_subsizes 3 [0%nat; 0%nat; 0%nat] [[0%nat; 1%nat; 2%nat]] = Ok [3%nat; 3%nat; 3%nat])
    by (vm_compute; reflexivity).
  cbn [deci_dist subsizes]. rewrite E1. cbn [res_bind]. rewrite E2. cbn [res_bind].
  rewrite E3. cbn [res_bind]. unfold update_all.
  change (seq 0 3) with ([0%nat; 1%nat] ++ [2%nat]). rewrite res_foldl_app.
  set (dd2 := [[11200 # 16000; 4800 # 16000]; [121600 # 192000; 70400 # 192000]; [1 # 2; 1 # 2]]).
  assert (E4 : res_foldl (update_node 2 spec87_conn [0%nat; 0%nat; 0%nat] [3%nat; 3%nat; 3%nat] spec87_dist)
                 spec87_dist [0%nat; 1%nat] = Ok dd2) by (vm_compute; reflexivity).
  rewrite E4. cbn [res_bind res_foldl].
  assert (E5 : update_node 2 spec87_conn [0%nat; 0%nat; 0%nat] [3%nat; 3%nat; 3%nat] spec87_dist dd2 2
               = converged_update 2 spec87_dist dd2 2 [1%nat]) by reflexivity.
  rewrite E5.
  destruct (converged_update_unfold 2 spec87_dist dd2 2 [1%nat] ltac:(discriminate) ltac:(simpl; lia))
    as (avg & diffs & m & Havg & _ & Hd & Hm & Hm0 & ->).
  { intros j Hj. repeat (apply elem_of_cons in Hj as [->|Hj];
      [eexists; split; [reflexivity|apply wf_dist_b_sound; vm_compute; reflexivity]|]).
    exfalso. by apply not_elem_of_nil in Hj. }
  { intros j Hj. apply elem_of_cons in Hj as [->|Hj]; [simpl; lia|exfalso; by apply not_elem_of_nil in Hj]. }
  assert (Hc : veq (vdiv (sum_rows 2 (row_of spec87_dist) [2%nat; 1%nat])
                         (sum_weights (fun _ => 1) [2%nat; 1%nat])) [1 # 2; 1 # 2])
    by (vm_compute; repeat constructor).
  rewrite Hc in Havg. unfold veq in Havg. pose proof (Forall2_length _ _ _ Havg) as Hlen.
  destruct avg as [|x [|y [|]]]; simpl in Hlen; try lia.
  apply Forall2_cons in Havg as [Hx Havg]. apply Forall2_cons in Havg as [Hy _].
  assert (Ed : dist_diffs (<[2%nat:=[x; y]]> dd2) [2%nat; 1%nat]
               = Ok [l1_diff [x; y] [121600 # 192000; 70400 # 192000]]) by reflexivity.
  rewrite Ed in Hd. injection Hd as <-. simpl in Hm. injection Hm as <-.
  assert (Hm1 : l1_diff [x; y] [121600 # 192000; 70400 # 192000] == 4 # 15).
  { assert (Hv : veq [x; y] [1 # 2; 1 # 2]) by (repeat constructor; done).
    rewrite Hv. vm_compute. reflexivity. }
  destruct (Qlt_le_dec _ dist_diff_thres) as [Hlt|Hge]; [|unfold dist_diff_thres in Hge; lra].
  destruct (sharpen_tie_pair _ x y Hm0 Hlt Hx Hy) as (a & b & -> & Ha & Hb).
  cbn [res_bind]. eexists. split; [reflexivity|]. split; [reflexivity|].
  exists [11200 # 16000; 4800 # 16000], [121600 # 192000; 70400 # 192000], a, b.
  split_and!; [reflexivity|vm_compute; repeat constructor|vm_compute; repeat constructor|lra|lra].
Qed.

(** C20: the scenario of spec 8.7.  All three nodes have dominant
    decision 0 and form one subgroup of size 3; node 0 becomes the mean
    of rows 0 and 1, node 1 the mean of all three rows (no sharpening:
    its largest difference is 0.4); node 2 is sharpened (its largest
    difference, read against node 1's new row, is 4/15 < 0.3) and, its
    row being a tie, decision 0 loses probability. *)
Theorem round_spec87 `{NpPowerLaws} :
  detect_subgroups spec87_conn [0%nat; 0%nat; 0%nat] 3 = Ok [[0%nat; 1%nat; 2%nat]] /\
  exists st', round 2 spec87_conn 3 (mkState spec87_dist [0%nat; 0%nat; 0%nat]) = Ok st' /\
    subsizes st' = [3%nat; 3%nat; 3%nat] /\
    exists r0 r1 a b, deci_dist st' = [r0; r1; [a; b]] /\
      veq r0 [7 # 10; 3 # 10] /\ veq r1 [19 # 30; 11 # 30] /\ a < 1 # 2 /\ 1 # 2 < b.
Proof. split; [vm_compute; reflexivity|apply round_spec87_run]. Qed.

End RoundFacts.

(** ** Witnesses *)

Module RoundWitnesses.
Import Dist Topology Subgroup Update UpdateFacts Round RoundFacts.
Local Open Scope Q_scope.

(** [r ** 1], an instance of the laws for concrete runs. *)
#[local] Instance round_np_power : NpPower := fun r _ => r.
#[local] Instance round_np_power_laws : NpPowerLaws.
Proof.
  split.
  - intros r r' Hr p p' Hp. exact Hr.
  - intros r p H0 H1 _. split; [exact H0|exact H1].
  - intros p _. reflexivity.
  - intros r p H0 _ _. exact H0.
Qed.

Lemma run_rounds_wf_witness :
  exists st', run_rounds 2 spec87_conn 3 2 (mkState spec87_dist [0%nat; 0%nat; 0%nat]) = Ok st' /\
    state_wf 2 3 st'.
Proof.
  apply (@run_rounds_wf _ _ 3 spec87_conn
           (wf_topology_b_sound 3 spec87_conn ltac:(vm_compute; reflexivity)) 2).
  - lia.
  - intros i Hi. destruct i as [|[|[|i]]]; [vm_compute; discriminate..|lia].
  - apply state_wf_b_sound. vm_compute. reflexivity.
Defined.


Lemma round_unit_err_witness :
  round 1 spec87_conn 3 (mkState [[1]; [1]; [1]] [0%nat; 0%nat; 0%nat]) = Err ZeroDivisionError.
Proof.
  apply (@round_unit_err _ 3 spec87_conn
           (wf_topology_b_sound 3 spec87_conn ltac:(vm_compute; reflexivity))).
  - intros i Hi. destruct i as [|[|[|i]]]; [vm_compute; discriminate..|lia].
  - lia.
  - apply state_wf_b_sound. vm_compute. reflexivity.
Defined.

Lemma round_spec87_witness :
  detect_subgroups spec87_conn [0%nat; 0%nat; 0%nat] 3 = Ok [[0%nat; 1%nat; 2%nat]] /\
  exists st', round 2 spec87_conn 3 (mkState spec87_dist [0%nat; 0%nat; 0%nat]) = Ok st' /\
    subsizes st' = [3%nat; 3%nat; 3%nat] /\
    exists r0 r1 a b, deci_dist st' = [r0; r1; [a; b]] /\
      veq r0 [7 # 10; 3 # 10] /\ veq r1 [19 # 30; 11 # 30] /\ a < 1 # 2 /\ 1 # 2 < b.
Proof. apply round_spec87. Defined.

Lemma loop_runs_rounds_witness :
  exists ls, run_loop 2 spec87_conn 3 ([KEYUP K_SPACE] :: replicate 1 [])
      (loop_init (mkState spec87_dist [0%nat; 0%nat; 0%nat])) = Ok ls /\
    sim_exit (ls_flags ls) = false /\ iter_count ls = 2%nat /\
    run_rounds 2 spec87_conn 3 2 (mkState spec87_dist [0%nat; 0%nat; 0%nat]) = Ok (ls_sim ls).
Proof.
  apply (@loop_runs_rounds _ _ 3 spec87_conn
           (wf_topology_b_sound 3 spec87_conn ltac:(vm_compute; reflexivity)) 2).
  - lia.
  - intros i Hi. destruct i as [|[|[|i]]]; [vm_compute; discriminate..|lia].
  - apply state_wf_b_sound. vm_compute. reflexivity.
Defined.

Lemma loop_quit_stops_witness :
  exists ls', loop_iteration 2 spec87_conn 3 [KEYUP K_q]
      (mkLoop (mkFlags false false) 0 (mkState spec87_dist [0%nat; 0%nat; 0%nat])) = Ok ls' /\
    run_loop 2 spec87_conn 3 [[KEYUP K_q]; [KEYUP K_SPACE]]
      (mkLoop (mkFlags false false) 0 (mkState spec87_dist [0%nat; 0%nat; 0%nat])) = Ok ls' /\
    sim_exit (ls_flags ls') = true /\
    (sim_pause (foldl handle_event (mkFlags false false) [KEYUP K_q]) = false ->
     round 2 spec87_conn 3 (mkState spec87_dist [0%nat; 0%nat; 0%nat]) = Ok (ls_sim ls')).
Proof.
  apply (@loop_quit_stops _ _ 3 spec87_conn
           (wf_topology_b_sound 3 spec87_conn ltac:(vm_compute; reflexivity)) 2 ltac:(lia)
           ltac:(intros i Hi; destruct i as [|[|[|i]]]; [vm_compute; discriminate..|lia])
           (mkLoop (mkFlags false false) 0 (mkState spec87_dist [0%nat; 0%nat; 0%nat]))
           [KEYUP K_q] [[KEYUP K_SPACE]]).
  - apply state_wf_b_sound. vm_compute. reflexivity.
  - reflexivity.
  - constructor. right. by right.
Defined.

Lemma loop_pause_freezes_witness :
  run_loop 2 spec87_conn 3 ([KEYUP K_SPACE] :: replicate 2 [])
    (mkLoop (mkFlags false false) 4 (mkState spec87_dist [0%nat; 0%nat; 0%nat]))
  = Ok (mkLoop (mkFlags false true) 4 (mkState spec87_dist [0%nat; 0%nat; 0%nat])).
Proof.
  apply (loop_pause_freezes 2 spec87_conn 3
           (mkLoop (mkFlags false false) 4 (mkState spec87_dist [0%nat; 0%nat; 0%nat])) 2).
  reflexivity.
Defined.


End RoundWitnesses.
