(* ===== verification/Consensus.v ===== *)
(** * Agreement is absorbing

    The simulation aims at population-wide agreement on one decision.
    This file shows that agreement, once reached, is never lost: when
    every node's row has the same decision [d] as a strict maximum, every
    node is converged (line 276), its new row is the average of rows that
    all peak at [d] (line 284), and the sharpening of lines 305-333 gives
    its largest multiplier to that peak, so every row still peaks strictly
    at [d] after the round, and after any number of rounds.

    The strict maximum matters: on a tie the stable bubble sort ranks the
    later decision higher and the sharpening moves the peak away from
    [np.argmax]'s choice ([Update.sharpen_tie_lowers_dominant]).

    [strict_max] and [weak_max] are predicates on rows, invariant under the
    setoid [veq] of [Distribution] ([Proper] instances); [strict_max_b] is
    the boolean test used on concrete rows. *)

From stdpp Require Import sets.
From S2P Require Import Prelude Topology Distribution Subgroup Update Round.

Module Consensus.
Import Dist Round.
Local Open Scope Q_scope.

(** Decision [d] holds the largest value of the row, strictly. *)
Definition strict_max (d : nat) (r : dist) : Prop :=
  exists x, r !! d = Some x /\ forall s y, s <> d -> r !! s = Some y -> y < x.

(** Decision [d] holds a largest value of the row. *)
Definition weak_max (d : nat) (r : dist) : Prop :=
  exists x, r !! d = Some x /\ forall s y, r !! s = Some y -> y <= x.

(** [strict_max] as a boolean test. *)
Definition strict_max_b (d : nat) (r : dist) : bool :=
  match r !! d with
  | Some x =>
      forallb (fun s => bool_decide (s = d) || default true (y ← r !! s; Some (negb (Qle_bool x y))))
        (seq 0 (length r))
  | None => false
  end.

(** Every node of the state agrees on [d], strictly. *)
Definition agreement (d : nat) (st : sim_state) : Prop := Forall (strict_max d) (deci_dist st).

End Consensus.

Module ConsensusFacts.
Import Dist DistFacts Subgroup Update UpdateFacts Round RoundFacts Consensus.
Local Open Scope Q_scope.

(** ** The peak of a row, under the operations of the update *)

Lemma strict_max_veq d a b : veq a b -> strict_max d a -> strict_max d b.
Proof.
  intros Hab (x & Hx & Hlt).
  destruct (Forall2_lookup_l _ _ _ _ _ Hab Hx) as (x' & Hx' & Exx).
  exists x'. split; [done|]. intros s y' Hs Hy'.
  destruct (Forall2_lookup_r _ _ _ _ _ Hab Hy') as (y & Hy & Eyy).
  pose proof (Hlt s y Hs Hy). rewrite <-Exx, <-Eyy. done.
Qed.

#[export] Instance strict_max_proper : Proper (eq ==> veq ==> iff) strict_max.
Proof.
  intros d ? <- a b Hab. split; apply strict_max_veq; [done|by symmetry].
Qed.

Lemma strict_weak d r : strict_max d r -> weak_max d r.
Proof.
  intros (x & Hx & Hlt). exists x. split; [done|]. intros s y Hy.
  destruct (decide (s = d)) as [->|Hne].
  - rewrite Hx in Hy. injection Hy as ->. apply Qle_refl.
  - apply Qlt_le_weak. eauto.
Qed.

Lemma lookup_vadd_Some a b s z :
  vadd a b !! s = Some z -> exists y w, a !! s = Some y /\ b !! s = Some w /\ z = y + w.
Proof.
  unfold vadd. rewrite lookup_zip_with.
  destruct (a !! s), (b !! s); simpl; try discriminate. intros [= <-]. eauto.
Qed.

Lemma lookup_vadd a b s y w : a !! s = Some y -> b !! s = Some w -> vadd a b !! s = Some (y + w).
Proof. intros Hy Hw. unfold vadd. by rewrite lookup_zip_with, Hy, Hw. Qed.

Lemma weak_vadd d a b : weak_max d a -> weak_max d b -> weak_max d (vadd a b).
Proof.
  intros (x & Hx & Ha) (u & Hu & Hb). exists (x + u). split; [by apply lookup_vadd|].
  intros s z (y & w & Hy & Hw & ->)%lookup_vadd_Some.
  pose proof (Ha s y Hy). pose proof (Hb s w Hw). lra.
Qed.

Lemma strict_weak_vadd d a b : strict_max d a -> weak_max d b -> strict_max d (vadd a b).
Proof.
  intros (x & Hx & Ha) (u & Hu & Hb). exists (x + u). split; [by apply lookup_vadd|].
  intros s z Hs (y & w & Hy & Hw & ->)%lookup_vadd_Some.
  pose proof (Ha s y Hs Hy). pose proof (Hb s w Hw). lra.
Qed.

Lemma weak_replicate d D : (d < D)%nat -> weak_max d (replicate D 0).
Proof.
  intros Hd. exists 0. split; [by apply lookup_replicate_2|].
  intros s y (-> & _)%lookup_replicate. apply Qle_refl.
Qed.

Lemma strict_max_vdiv d a c : 0 < c -> strict_max d a -> strict_max d (vdiv a c).
Proof.
  intros Hc (x & Hx & Ha). exists (x / c). split; [by rewrite lookup_vdiv, Hx|].
  intros s z Hs Hz. rewrite lookup_vdiv in Hz.
  destruct (a !! s) as [y|] eqn:Hy; simplify_eq/=.
  apply Qmult_lt_r; [by apply Qinv_lt_0_compat|]. eauto.
Qed.

(** The sum of rows that all peak strictly at [d] peaks strictly at [d]. *)
Lemma strict_sum_rows d D (g : nat -> dist) j pool :
  (d < D)%nat -> (forall k, k ∈ j :: pool -> strict_max d (g k)) ->
  strict_max d (sum_rows D g (j :: pool)).
Proof.
  intros Hd Hs. simpl. apply strict_weak_vadd; [apply Hs; set_solver|].
  assert (Hw : forall k, k ∈ pool -> weak_max d (g k)) by (intros; apply strict_weak, Hs; set_solver).
  clear Hs. induction pool as [|k pool IH]; simpl; [by apply weak_replicate|].
  apply weak_vadd; [apply Hw; set_solver|]. apply IH. intros; apply Hw; set_solver.
Qed.

Lemma strict_max_b_sound d r : strict_max_b d r = true -> strict_max d r.
Proof.
  unfold strict_max_b. destruct (r !! d) as [x|] eqn:Hx; [|discriminate]. intros Hall.
  exists x. split; [done|]. intros s y Hs Hy.
  assert (Hz : seq 0 (length r) !! s = Some s).
  { rewrite lookup_seq_lt by (by eapply lookup_lt_Some). done. }
  pose proof (forallb_lookup _ _ _ _ Hall Hz) as Hb. cbv beta in Hb.
  rewrite bool_decide_false in Hb by done. rewrite Hy in Hb. simpl in Hb.
  destruct (Qle_bool x y) eqn:E; [discriminate|]. apply Qnot_le_lt. intros Hle.
  apply Qle_bool_iff in Hle. congruence.
Qed.

(** [np.argmax] of a row with a strict maximum at [d] is [d]. *)
Lemma np_argmax_strict d r : strict_max d r -> np_argmax r = Ok d.
Proof.
  intros (x & Hx & Hlt). destruct r as [|x0 l]; [discriminate|]. simpl.
  destruct (argmax_from_inv [x0] 0 x0 l (argmax_inv_start x0)) as (v & Hk & Hle & _).
  simpl in Hk, Hle. f_equal.
  destruct (decide (argmax_from 0 x0 1 l = d)) as [|Hne]; [done|exfalso].
  pose proof (Hlt _ v Hne Hk). pose proof (Hle d x Hx). lra.
Qed.

(** Sharpening keeps a strict maximum where it is: the peak is ranked
    last and gets [large_end], the largest multiplier. *)
Lemma sharpen_strict `{NpPowerLaws} D m row row' d :
  wf_dist D row -> (2 <= D)%nat -> 0 <= m -> m < dist_diff_thres ->
  strict_max d row -> sharpen D m row = Ok row' -> strict_max d row'.
Proof.
  intros Hwf HD Hm0 Hm1 (x & Hx & Hlt) Hsh.
  destruct (small_large D m HD Hm0 Hm1) as (Hs0 & Hsl & HL).
  destruct (sharpen_spec D m row Hwf HD Hm0 Hm1)
    as (idx & dt & row_m & _ & Hperm & Hl & Hasc & Hmlen & Hmv & Hnn & Hpos & Hsh').
  rewrite Hsh' in Hsh. injection Hsh as <-. apply strict_max_vdiv; [done|].
  set (se := 1 / Q_of_nat D * np_power (m / dist_diff_thres) dist_diff_power) in *.
  set (le := 2 / Q_of_nat D - se) in *.
  pose proof Hwf as (Hlen & Hnn0 & _).
  pose proof (strict_top_rank idx dt row D d x Hperm Hl Hasc Hlen Hx Hlt) as Htop.
  destruct (mult_at_range D se le (D - 1) HD Hs0 Hsl ltac:(lia)) as (_ & _ & _ & Hmt).
  specialize (Hmt eq_refl).
  exists (x * mult_at D se le (D - 1)). split; [by apply Hmv|].
  intros s z Hs Hz. pose proof (lookup_lt_Some _ _ _ Hz) as Hsz. rewrite Hmlen in Hsz.
  destruct (perm_seq_rank idx D s Hperm Hsz) as [js Hjs].
  destruct (lookup_lt_is_Some_2 row s ltac:(lia)) as [y Hy].
  rewrite (Hmv js s y Hjs Hy) in Hz. injection Hz as <-.
  pose proof (lookup_lt_Some _ _ _ Hjs) as Hjl. rewrite (Permutation_length Hperm), length_seq in Hjl.
  destruct (mult_at_range D se le js HD Hs0 Hsl ltac:(lia)) as (Hma & Hmb & _).
  pose proof (Hlt s y Hs Hy). pose proof (Forall_lookup_1 _ _ _ _ Hnn0 Hy).
  rewrite Hmt. nra.
Qed.

(** The converged branch on rows that all peak strictly at [d]: the
    average peaks at [d], and so does its sharpening. *)
Lemma converged_update_strict `{NpPowerLaws} D dt dd i nbrs d :
  (2 <= D)%nat -> nbrs <> [] -> (i < length dd)%nat ->
  (forall j, j ∈ i :: nbrs -> exists r, dt !! j = Some r /\ wf_dist D r /\ strict_max d r) ->
  (forall j, j ∈ nbrs -> (j < length dd)%nat) ->
  exists r, converged_update D dt dd i nbrs = Ok (<[i:=r]> dd) /\ wf_dist D r /\ strict_max d r.
Proof.
  intros HD Hne Hi Hpool Hnb.
  destruct (converged_update_row D dt dd i nbrs HD Hne Hi)
    as (avg & diffs & m & r & Havg & Hwfa & Hd & Hm & Hsh & Havg' & Hconv & Hwfr); [|exact Hnb|].
  { intros j Hj. destruct (Hpool j Hj) as (r & ? & ? & _). eauto. }
  exists r. split_and!; [done|done|].
  assert (Hsa : strict_max d avg).
  { rewrite Havg. apply strict_max_vdiv.
    - simpl. pose proof (sum_weights_nonneg (fun _ => 1) nbrs ltac:(intros; cbv beta; lra)). lra.
    - destruct (Hpool i ltac:(set_solver)) as (ri & _ & (Hli & _) & (x & Hx & _)).
      apply strict_sum_rows; [apply lookup_lt_Some in Hx; lia|].
      intros k Hk. destruct (Hpool k Hk) as (rk & Hrk & _ & Hsk). unfold row_of. by rewrite Hrk. }
  destruct (Qlt_le_dec m dist_diff_thres) as [Hlt|Hge]; [|by rewrite Havg'].
  assert (Hm0 : 0 <= m).
  { destruct (dist_diffs_ok (<[i:=avg]> dd) (i :: nbrs)) as (diffs' & Hd' & Hdn & _).
    { intros j Hj. rewrite length_insert. apply elem_of_cons in Hj as [->|Hj]; auto. }
    rewrite Hd in Hd'. injection Hd' as <-. destruct (py_max_spec _ _ Hm) as [Hin _].
    by apply (proj1 (Forall_forall _ _) Hdn). }
  exact (sharpen_strict D m avg r d Hwfa HD Hm0 Hlt Hsa (Hsh Hlt)).
Qed.

Section Agreement.
Context `{NpPowerLaws}.
Variables (D N : nat) (conn : list (list nat)) (domi subsizes : list nat) (dt : list dist) (d : nat).
Hypothesis HD : (2 <= D)%nat.
Hypothesis Hpre : update_pre D N conn domi subsizes dt.
Hypothesis Hdomi : forall j k, domi !! j = Some k -> k = d.
Hypothesis Hagree : Forall (strict_max d) dt.
Hypothesis Hne : forall i nbrs, conn !! i = Some nbrs -> nbrs <> [].

(** Under agreement every node is converged and its new row peaks at
    [d]. *)
Lemma update_node_agree dd i :
  length dd = N -> (i < N)%nat ->
  exists r, update_node D conn domi subsizes dt dd i = Ok (<[i:=r]> dd) /\ wf_dist D r /\ strict_max d r.
Proof.
  intros Hdd Hi. pose proof Hpre as (Hl & Hw & Hlc & Hr & Hld & _).
  destruct (lookup_lt_is_Some_2 conn i ltac:(lia)) as [nbrs Hc].
  destruct (lookup_lt_is_Some_2 domi i ltac:(lia)) as [h Hh].
  pose proof (Hdomi i h Hh) as ->.
  destruct (all_converged_iff domi d nbrs) as (b & Hb & Hiff).
  { intros nb Hnb. rewrite Hld. eauto. }
  assert (b = true) as ->.
  { apply Hiff. intros nb Hnb. destruct (lookup_lt_is_Some_2 domi nb) as [k Hk].
    { rewrite Hld. eauto. }
    by rewrite Hk, (Hdomi nb k Hk). }
  unfold update_node, py_get at 1 2. rewrite Hh, Hc. cbn [res_bind]. rewrite Hb. cbn [res_bind].
  apply (converged_update_strict D dt dd i nbrs d HD (Hne i nbrs Hc) ltac:(lia)).
  - intros j Hj. assert (HjN : (j < N)%nat) by (apply elem_of_cons in Hj as [->|Hj]; eauto).
    destruct (lookup_lt_is_Some_2 dt j ltac:(lia)) as [r Hrj].
    exists r. split_and!; [done|eauto|exact (Forall_lookup_1 _ _ _ _ Hagree Hrj)].
  - intros j Hj. rewrite Hdd. eauto.
Qed.

(** The update loop keeps the agreement. *)
Lemma update_all_agree :
  exists dd', update_all D conn domi subsizes N dt = Ok dd' /\ rows_wf D N dd' /\
    Forall (strict_max d) dd'.
Proof.
  pose proof Hpre as (Hl & Hw & _).
  destruct (res_foldl_seq (update_node D conn domi subsizes dt)
              (fun _ dd => rows_wf D N dd /\ Forall (strict_max d) dd) 0 N dt)
    as (dd' & Hr & Hwf' & Hs').
  - split; [by split|done].
  - intros i dd [_ Hi] [Hdd Hsd].
    destruct (update_node_agree dd i ltac:(apply Hdd) ltac:(lia)) as (r & Hu & Hwr & Hsr).
    exists (<[i:=r]> dd). split; [done|]. split; [by apply rows_wf_insert|].
    by apply Forall_insert.
  - eauto.
Qed.

End Agreement.

Lemma map_const_replicate {A B} (c : B) (l : list A) : map (fun _ => c) l = replicate (length l) c.
Proof. induction l as [|x l IH]; simpl; congruence. Qed.

(** Under agreement on [d] the dominant decisions of line 212 are all [d]. *)
Lemma dominant_agree D N d st :
  state_wf D N st -> agreement d st -> dominant (deci_dist st) = Ok (replicate N d).
Proof.
  intros (Hl & _) Hag. unfold dominant.
  rewrite (res_mapM_map np_argmax (fun _ => d)).
  - by rewrite map_const_replicate, Hl.
  - intros r Hr. apply np_argmax_strict. exact (proj1 (Forall_forall _ _) Hag r Hr).
Qed.

Section Rounds.
Context `{NpPowerLaws}.
Context {N : nat} {conn : list (list nat)} `{!WfTopology N conn}.
Variable D : nat.
Hypothesis HD : (2 <= D)%nat.
Hypothesis Hiso : forall i, (i < N)%nat -> conn !!! i <> [].

(** One round keeps the agreement. *)
Lemma round_agree st d :
  state_wf D N st -> agreement d st ->
  exists st', round D conn N st = Ok st' /\ state_wf D N st' /\ agreement d st'.
Proof.
  intros Hst Hag.
  destruct (round_prepare D st ltac:(lia) Hst) as (domi & ss & Hf2 & Hpre & ->).
  assert (Hdomi : forall j k, domi !! j = Some k -> k = d).
  { intros j k Hk. destruct (Forall2_lookup_r _ _ _ _ _ Hf2 Hk) as (r & Hr & Ha).
    rewrite (np_argmax_strict d r (Forall_lookup_1 _ _ _ _ Hag Hr)) in Ha. by injection Ha. }
  destruct (update_all_agree D N conn domi ss (deci_dist st) d HD Hpre Hdomi Hag
              (conn_nonempty Hiso)) as (dd' & -> & [Hl' Hw'] & Hs').
  eexists. split; [reflexivity|]. split; [|exact Hs']. split_and!; [done|done|apply Hpre].
Qed.

(** C2: Agreement is absorbing.  On a well-formed topology without
    isolated nodes and with at least two decisions, when every node's row
    has its strict maximum at the same decision [d], any number of rounds
    succeed, keep the state well formed, keep every row's strict maximum
    at [d], and every node's dominant decision stays [d]. *)
Theorem run_rounds_agreement k st d :
  state_wf D N st -> agreement d st ->
  exists st', run_rounds D conn N k st = Ok st' /\ state_wf D N st' /\ agreement d st' /\
    dominant (deci_dist st') = Ok (replicate N d).
Proof.
  revert st. induction k as [|k IH]; intros st Hst Hag.
  - exists st. split_and!; [done|done|done|]. by apply (dominant_agree D).
  - destruct (round_agree st d Hst Hag) as (st1 & Hr & Hst1 & Hag1).
    simpl. rewrite Hr. cbn [res_bind]. by apply IH.
Qed.

End Rounds.

End ConsensusFacts.

Module ConsensusWitnesses.
Import Dist Topology Update Round RoundFacts Consensus ConsensusFacts.
Local Open Scope Q_scope.

(** [r ** 1], an instance of the laws for concrete runs. *)
#[local] Instance consensus_np_power : NpPower := fun r _ => r.
#[local] Instance consensus_np_power_laws : NpPowerLaws.
Proof.
  split.
  - intros r r' Hr p p' Hp. exact Hr.
  - intros r p H0 H1 _. split; [exact H0|exact H1].
  - intros p _. reflexivity.
  - intros r p H0 _ _. exact H0.
Qed.

(** The path 0-1-2 with every node leaning towards decision 0. *)
Definition leaning_state : sim_state :=
  mkState [[9 # 10; 1 # 10]; [3 # 5; 2 # 5]; [7 # 10; 3 # 10]] [0%nat; 0%nat; 0%nat].

Lemma run_rounds_agreement_witness :
  exists st', run_rounds 2 spec87_conn 3 3 leaning_state = Ok st' /\ state_wf 2 3 st' /\
    agreement 0 st' /\ dominant (deci_dist st') = Ok (replicate 3 0%nat).
Proof.
  apply (@run_rounds_agreement _ _ 3 spec87_conn
           (wf_topology_b_sound 3 spec87_conn ltac:(vm_compute; reflexivity)) 2).
  - lia.
  - intros i Hi. destruct i as [|[|[|i]]]; [vm_compute; discriminate..|lia].
  - apply state_wf_b_sound. vm_compute. reflexivity.
  - unfold agreement. simpl.
    repeat (constructor; [apply strict_max_b_sound; vm_compute; reflexivity|]). constructor.
Defined.

End ConsensusWitnesses.
