(* ===== verification/Frame.v ===== *)
(** * What a pass of the loop shows (lines 132-141, 347-385)

    After the update, a pass redraws the pygame window (lines 347-370):
    the background, a line for every connected pair [i < j], a wider line
    for every connected pair inside a subgroup, a dot per node, then
    [pygame.display.update()].  It then gives matplotlib the bar heights
    [dz = [deci_dist[i][deci_domi[i]] ...]] (line 373) and waits for the
    rest of the period (lines 378-385).  The first drawing (lines 132-141)
    has thinner lines in the node colour.

    The screen is modelled by the sequence of drawing calls ([draw_cmd]);
    a call names the nodes whose positions [nodes_disp[i]] it joins, since
    those positions come from coordinate conversions outside [src/].  The
    matplotlib calls are the list [dz] they receive.  Of the display
    geometry (lines 104-129) the model keeps what can raise: [np.amin]
    over an empty network and [nodes_plt[i]] past the positions read.

    The theorems: the wide lines of a frame join exactly the adjacent
    nodes of equal dominant decision, and the thin ones exactly the
    adjacent nodes; the bar of a node shows the probability, after the update, of the decision
    that was dominant before it (in the scenario of spec 8.7 that is not
    the node's new dominant decision); the pause brings a pass up to the
    period. *)

From stdpp Require Import sets.
From S2P Require Import Prelude Topology Distribution Subgroup Update Round.
Import Update.

Module Frame.
Import Dist Honeycomb Subgroup Round.
Local Open Scope Q_scope.

Inductive color := background_color | node_color | connection_color | subgroup_color.

(** [screen.fill], [pygame.draw.line] between the display positions of
    two nodes, [pygame.draw.circle] at a node, [pygame.display.update]. *)
Inductive draw_cmd :=
| Fill (c : color)
| Line (c : color) (a b : nat) (width : nat)
| Circle (c : color) (a : nat) (radius : nat)
| Flip.

Definition node_size : nat := 5.

(** [connections[i][j]]. *)
Definition mat_get (m : matrix) (i j : nat) : res bool :=
  let! row := py_get m i in py_get row j.

(** [for i in range(n): for j in range(i+1, n): body], each pass adding
    its drawing calls. *)
Definition pair_loop (n : nat) (body : nat -> nat -> res (list draw_cmd))
    : res (list draw_cmd) :=
  res_foldl (fun acc i =>
    res_foldl (fun acc j => let! c := body i j in Ok (acc ++ c)) acc (seq (S i) (n - S i)))
    [] (seq 0 n).

(** Lines 134-137 and 351-354: a line for every connected pair. *)
Definition connection_lines (c : color) (width : nat) (m : matrix) (N : nat)
    : res (list draw_cmd) :=
  pair_loop N (fun i j =>
    let! e := mat_get m i j in Ok (if e then [Line c i j width] else [])).

(** Lines 356-366, one subgroup: a wide line for every connected pair of
    its members, in the order of the subgroup. *)
Definition subgroup_lines (m : matrix) (sub : list nat) : res (list draw_cmd) :=
  pair_loop (length sub) (fun i j =>
    let! i_node := py_get sub i in
    let! j_node := py_get sub j in
    let! e := mat_get m i_node j_node in
    Ok (if e then [Line subgroup_color i_node j_node 3] else [])).

(** Lines 139-140 and 368-369: a dot per node. *)
Definition dots (N : nat) : list draw_cmd :=
  map (fun i => Circle node_color i node_size) (seq 0 N).

(** Lines 106-108: [np.amin(nodes_plt, axis=0)] over the converted
    positions.  An empty network file leaves a zero-size array, on which
    numpy's reduction raises ValueError; the bounds themselves are pixels. *)
Definition world_bounds (nodes : list pos) : res unit :=
  match nodes with
  | [] => Err ValueError
  | _ :: _ => Ok tt
  end.

(** Lines 127-129: [nodes_disp], the display position of node [i] for
    [i in range(net_size)], read from [nodes_plt[i]] (IndexError past the
    nodes of the file).  The model keeps the node of each position. *)
Definition nodes_disp (nodes : list pos) (N : nat) : res (list nat) :=
  res_mapM (fun i => let! _ := py_get nodes i in Ok i) (seq 0 N).

(** Lines 132-141: the first drawing. *)
Definition draw_initial (m : matrix) (N : nat) : res (list draw_cmd) :=
  let! lines := connection_lines node_color 1 m N in
  Ok ([Fill background_color] ++ lines ++ dots N ++ [Flip]).

(** Lines 349-370: the drawing of a pass, with the subgroups of the
    round. *)
Definition draw_frame (m : matrix) (N : nat) (subgroups : list (list nat))
    : res (list draw_cmd) :=
  let! lines := connection_lines connection_color 2 m N in
  let! sublines := res_mapM (subgroup_lines m) subgroups in
  Ok ([Fill background_color] ++ lines ++ concat sublines ++ dots N ++ [Flip]).

(** Line 373: [dz = [deci_dist[i][deci_domi[i]] for i in range(net_size)]],
    on the distributions after the update and the dominant decisions of
    line 212, computed before it. *)
Definition observer_dz (N : nat) (dd : list dist) (deci_domi : list nat) : res (list Q) :=
  res_mapM (fun i =>
    let! r := py_get dd i in
    let! k := py_get deci_domi i in
    py_get r k) (seq 0 N).

(** Lines 178-182: the fixed arguments of the bar graph, [x_pos] and
    [y_pos] taken from [nodes_plt] (one per position of the file; the
    model keeps the node of each, whose coordinates come from
    [honeycomb_to_cartesian]), and [z_pos], [dx], [dy] of [net_size]
    entries.  Line 374 calls [ax.bar3d] with these and the heights [dz]. *)
Record bar_args := mkBarArgs {
  x_pos : list nat;
  y_pos : list nat;
  z_pos : list Q;
  bar_dx : list Q;
  bar_dy : list Q
}.

Definition bar_setup (nodes : list pos) (net_size : nat) : bar_args :=
  mkBarArgs (seq 0 (length nodes)) (seq 0 (length nodes))
    (replicate net_size 0) (replicate net_size (1 # 2)) (replicate net_size (1 # 2)).

(** Line 193. *)
Definition time_period : Z := 500.

(** Lines 378-385: the delay of [pygame.time.delay], if any. *)
Definition pacing_delay (time_now time_last : Z) : option Z :=
  let time_past := (time_now - time_last)%Z in
  if Z.ltb (time_now - time_last) time_period then Some (time_period - time_past)%Z
  else None.

End Frame.

Module FrameFacts.
Import Dist DistFacts Honeycomb HoneycombFacts Subgroup SubgroupFacts Round Frame.
Local Open Scope Q_scope.

(** ** The double loop over the pairs *)

(** The calls of the pairs [i < j < n], in the order of the loops. *)
Definition pair_calls (n : nat) (f : nat -> nat -> list draw_cmd) : list draw_cmd :=
  concat (map (fun i => concat (map (f i) (seq (S i) (n - S i)))) (seq 0 n)).

Lemma pair_loop_ok n body f :
  (forall i j, (i < j < n)%nat -> body i j = Ok (f i j)) ->
  pair_loop n body = Ok (pair_calls n f).
Proof.
  intros Hb. unfold pair_loop.
  rewrite (res_foldl_acc _ (fun i => concat (map (f i) (seq (S i) (n - S i))))); [done|].
  intros acc i Hi. apply elem_of_seq in Hi.
  apply res_foldl_acc. intros acc' j Hj. apply elem_of_seq in Hj.
  rewrite Hb by lia. done.
Qed.

Lemma elem_of_pair_calls x n f :
  x ∈ pair_calls n f <-> exists i j, (i < j < n)%nat /\ x ∈ f i j.
Proof.
  unfold pair_calls. rewrite elem_of_concat_iff. split.
  - intros (l & Hx & Hl). apply list_elem_of_In, in_map_iff in Hl as (i & <- & Hi).
    apply elem_of_concat_iff in Hx as (l' & Hx & Hl').
    apply list_elem_of_In, in_map_iff in Hl' as (j & <- & Hj).
    apply list_elem_of_In, elem_of_seq in Hi, Hj. exists i, j. split; [lia|done].
  - intros (i & j & Hij & Hx).
    exists (concat (map (f i) (seq (S i) (n - S i)))). split.
    + apply elem_of_concat_iff. exists (f i j). split; [done|].
      apply list_elem_of_In, in_map_iff. exists j. split; [done|].
      apply list_elem_of_In, elem_of_seq. lia.
    + apply list_elem_of_In, in_map_iff. exists i. split; [done|].
      apply list_elem_of_In, elem_of_seq. lia.
Qed.

(** ** The connection matrix and the neighbour lists *)

Section Matrix.
Variables (N : nat) (m : matrix).
Hypothesis Hdims : mat_dims N m.

Lemma mat_get_ok a b : (a < N)%nat -> (b < N)%nat -> mat_get m a b = Ok ((m !!! a) !!! b).
Proof.
  intros Ha Hb. destruct Hdims as [Hl Hr]. unfold mat_get, py_get.
  rewrite (list_lookup_lookup_total_lt m a) by lia. simpl.
  rewrite (list_lookup_lookup_total_lt (m !!! a) b) by (rewrite Hr; lia). done.
Qed.

End Matrix.


(** ** The lines of a frame *)

Section Draw.
Context {N : nat} {m : matrix}.
Hypothesis Hdims : mat_dims N m.
Context `{!WfTopology N (connection_lists m N)}.
Variables (deci_domi : list nat) (gs : list (list nat)).
Hypothesis Hdomi : length deci_domi = N.
Hypothesis Hgs : detect_subgroups (connection_lists m N) deci_domi N = Ok gs.

Definition conn_calls (c : color) (w : nat) (i j : nat) : list draw_cmd :=
  if (m !!! i) !!! j : bool then [Line c i j w] else [].

Definition sub_calls (g : list nat) (i j : nat) : list draw_cmd :=
  if (m !!! (g !!! i)) !!! (g !!! j) : bool then [Line subgroup_color (g !!! i) (g !!! j) 3] else [].

Lemma connection_lines_ok c w : connection_lines c w m N = Ok (pair_calls N (conn_calls c w)).
Proof using Hdims. apply pair_loop_ok. intros i j Hij. by rewrite (mat_get_ok N m Hdims) by (clear -Hij; lia). Qed.

Lemma group_range g x : g ∈ gs -> x ∈ g -> (x < N)%nat.
Proof.
  intros Hg Hx. destruct (detect_subgroups_inv deci_domi Hdomi gs Hgs) as [[_ Hcov] _].
  apply Hcov. simpl. apply elem_of_concat_iff. eauto.
Qed.

Lemma group_lookup g i : g ∈ gs -> (i < length g)%nat -> (g !!! i < N)%nat.
Proof.
  intros Hg Hi. apply (group_range g); [done|].
  apply (list_elem_of_lookup_2 _ i). by apply list_lookup_lookup_total_lt.
Qed.

Lemma subgroup_lines_ok g : g ∈ gs -> subgroup_lines m g = Ok (pair_calls (length g) (sub_calls g)).
Proof.
  intros Hg. apply pair_loop_ok. intros i j Hij. unfold py_get.
  rewrite !list_lookup_lookup_total_lt by lia. simpl.
  rewrite (mat_get_ok N m Hdims) by (apply group_lookup; (done || lia)). done.
Qed.

Lemma elem_of_conn_calls c w c' a b w' :
  Line c' a b w' ∈ pair_calls N (conn_calls c w) <->
  c' = c /\ w' = w /\ (a < b)%nat /\ b ∈ connection_lists m N !!! a.
Proof.
  rewrite elem_of_pair_calls, connection_lists_elem_of. unfold conn_calls. split.
  - intros (i & j & Hij & Hx). case_match; [|by apply not_elem_of_nil in Hx].
    apply list_elem_of_singleton in Hx. simplify_eq. split_and!; auto with lia.
  - intros (-> & -> & Hab & Ha & Hb & He). exists a, b. split; [lia|].
    rewrite He. by apply list_elem_of_singleton.
Qed.

Lemma elem_of_sub_calls g c a b w :
  Line c a b w ∈ pair_calls (length g) (sub_calls g) <->
  c = subgroup_color /\ w = 3%nat /\ exists i j, (i < j < length g)%nat /\
    g !! i = Some a /\ g !! j = Some b /\ (m !!! a) !!! b = true.
Proof.
  rewrite elem_of_pair_calls. unfold sub_calls. split.
  - intros (i & j & Hij & Hx). case_match; [|by apply not_elem_of_nil in Hx].
    apply list_elem_of_singleton in Hx. simplify_eq. split_and!; [done|done|].
    exists i, j. rewrite !list_lookup_lookup_total_lt by lia. auto.
  - intros (-> & -> & i & j & Hij & Hi & Hj & He). exists i, j. split; [done|].
    rewrite (list_lookup_total_correct _ _ _ Hi), (list_lookup_total_correct _ _ _ Hj), He.
    by apply list_elem_of_singleton.
Qed.

(** Only lines come from the two line loops. *)
Lemma elem_of_frame c a b w L1 L2 :
  Line c a b w ∈ [Fill background_color] ++ L1 ++ L2 ++ dots N ++ [Flip] <->
  Line c a b w ∈ L1 \/ Line c a b w ∈ L2.
Proof.
  assert (Line c a b w ∉ dots N).
  { unfold dots. rewrite list_elem_of_In, in_map_iff. naive_solver. }
  rewrite !elem_of_app, !list_elem_of_singleton. naive_solver.
Qed.

Lemma elem_of_sublines x :
  x ∈ concat (map (fun g => pair_calls (length g) (sub_calls g)) gs) <->
  exists g, g ∈ gs /\ x ∈ pair_calls (length g) (sub_calls g).
Proof.
  rewrite elem_of_concat_iff. split.
  - intros (l & Hx & Hl). apply list_elem_of_In, in_map_iff in Hl as (g & <- & Hg).
    exists g. by rewrite list_elem_of_In.
  - intros (g & Hg & Hx). eexists. split; [exact Hx|].
    apply list_elem_of_In, in_map_iff. exists g. by rewrite <-list_elem_of_In.
Qed.

(** A wide line between two members of a subgroup joins neighbours of
    one dominant decision. *)
Lemma sub_line_sound g a b i j :
  g ∈ gs -> (i < j < length g)%nat -> g !! i = Some a -> g !! j = Some b ->
  (m !!! a) !!! b = true ->
  b ∈ connection_lists m N !!! a /\ deci_domi !!! a = deci_domi !!! b.
Proof.
  intros Hg Hij Ha Hb He.
  destruct (detect_subgroups_inv deci_domi Hdomi gs Hgs) as [_ Hgood].
  destruct (proj1 (Forall_forall _ _) Hgood g Hg) as (f & _ & Hsub & _).
  apply list_elem_of_lookup_2 in Ha, Hb.
  split.
  - apply connection_lists_elem_of. split_and!; [eapply group_range..|]; done.
  - by rewrite (proj1 (Hsub a Ha)), (proj1 (Hsub b Hb)).
Qed.

(** Two neighbours of one dominant decision are in one subgroup. *)
Lemma sub_line_complete a b :
  b ∈ connection_lists m N !!! a -> deci_domi !!! a = deci_domi !!! b ->
  exists g i j, g ∈ gs /\ (i < length g)%nat /\ (j < length g)%nat /\ i <> j /\
    g !! i = Some a /\ g !! j = Some b.
Proof.
  intros Hab Hl. pose proof Hab as (Ha & Hb & _)%connection_lists_elem_of.
  destruct (detect_subgroups_inv deci_domi Hdomi gs Hgs) as [[_ Hcov] Hgood].
  assert (Hac : a ∈ concat gs) by (apply Hcov; lia).
  apply elem_of_concat_iff in Hac as (g & Hag & Hg).
  destruct (proj1 (Forall_forall _ _) Hgood g Hg) as (_ & _ & _ & Hclosed).
  assert (Hbg : b ∈ g) by (by apply (Hclosed a b)).
  apply list_elem_of_lookup in Hag as [i Hi], Hbg as [j Hj].
  exists g, i, j. split_and!; try done; [eapply lookup_lt_Some; done..|].
  intros ->. rewrite Hi in Hj. injection Hj as ->. by apply topo_irrefl in Hab.
Qed.

(** The drawing of a pass never raises: the background, the thin lines of
    the connected pairs, the wide lines of every subgroup, the dots, the
    update. *)
Lemma draw_frame_ok :
  draw_frame m N gs = Ok ([Fill background_color] ++ pair_calls N (conn_calls connection_color 2) ++
    concat (map (fun g => pair_calls (length g) (sub_calls g)) gs) ++ dots N ++ [Flip]).
Proof.
  unfold draw_frame. rewrite connection_lines_ok. cbn [res_bind].
  rewrite (res_mapM_map _ (fun g => pair_calls (length g) (sub_calls g))); [reflexivity|].
  apply subgroup_lines_ok.
Qed.

(** C17: The drawing of a pass (lines 349-370) never raises, its thin
    lines join exactly the connected pairs [a < b], and its wide lines
    join exactly the pairs of neighbours with the same dominant decision
    in either order: what is drawn as a subgroup is the label-restricted
    graph that the subgroup search decomposes. *)
Theorem draw_frame_lines :
  exists cmds, draw_frame m N gs = Ok cmds /\
    (forall a b w, Line connection_color a b w ∈ cmds <->
       w = 2%nat /\ (a < b)%nat /\ b ∈ connection_lists m N !!! a) /\
    (forall a b,
       (exists w, Line subgroup_color a b w ∈ cmds \/ Line subgroup_color b a w ∈ cmds) <->
       b ∈ connection_lists m N !!! a /\ deci_domi !!! a = deci_domi !!! b).
Proof.
  eexists. split; [apply draw_frame_ok|].
  split.
  - intros a b w. rewrite elem_of_frame, elem_of_conn_calls, elem_of_sublines.
    split; [|naive_solver]. intros [H|(g & _ & H)]; [naive_solver|].
    apply elem_of_sub_calls in H. naive_solver.
  - intros a b. split.
    + intros (w & [H|H]); rewrite elem_of_frame, elem_of_conn_calls, elem_of_sublines in H;
        destruct H as [H|(g & Hg & H)]; [naive_solver| |naive_solver|];
        apply elem_of_sub_calls in H as (_ & _ & i & j & Hij & Hi & Hj & He).
      * by apply (sub_line_sound g a b i j).
      * destruct (sub_line_sound g b a i j) as [Hba Hl]; try done.
        split; [by apply topo_sym|done].
    + intros [Hab Hl].
      destruct (sub_line_complete a b Hab Hl) as (g & i & j & Hg & Hi & Hj & Hne & Ha & Hb).
      pose proof Hab as (_ & _ & He)%connection_lists_elem_of.
      pose proof (topo_sym _ _ Hab) as (_ & _ & He')%connection_lists_elem_of.
      exists 3%nat. rewrite !elem_of_frame, !elem_of_sublines.
      destruct (decide (i < j)%nat).
      * left. right. exists g. split; [done|]. apply elem_of_sub_calls.
        split_and!; [done|done|]. exists i, j. split_and!; [lia|done..].
      * right. right. exists g. split; [done|]. apply elem_of_sub_calls.
        split_and!; [done|done|]. exists j, i. split_and!; [lia|done..].
Qed.

End Draw.

End FrameFacts.

(** ** The bars of the matplotlib window *)

Module ObserverFacts.
Import Dist DistFacts Subgroup Update UpdateFacts Round RoundFacts Frame.
Local Open Scope Q_scope.

(** [dz] reads, for every node, an entry of its row. *)
Lemma observer_dz_ok N dd domi :
  (forall i, (i < N)%nat -> exists r k v, dd !! i = Some r /\ domi !! i = Some k /\ r !! k = Some v) ->
  exists dz, observer_dz N dd domi = Ok dz /\ length dz = N /\
    forall i v, dz !! i = Some v ->
      exists r k, dd !! i = Some r /\ domi !! i = Some k /\ r !! k = Some v.
Proof.
  intros Hall. unfold observer_dz.
  destruct (res_mapM_ok (fun i => let! r := py_get dd i in let! k := py_get domi i in py_get r k)
              (fun i v => exists r k, dd !! i = Some r /\ domi !! i = Some k /\
                                        r !! k = Some v) (seq 0 N)) as (dz & Hdz & Hf).
  { intros i Hi%elem_of_seq. destruct (Hall i ltac:(lia)) as (r & k & v & Hr & Hk & Hv).
    exists v. unfold py_get. rewrite Hr, Hk. cbn [res_bind]. rewrite Hv. split; [done|eauto]. }
  exists dz. split_and!; [done|by rewrite <-(Forall2_length _ _ _ Hf), length_seq|].
  intros i v Hv. destruct (Forall2_lookup_r _ _ _ _ _ Hf Hv) as (j & Hj & Hp).
  apply lookup_seq in Hj as [-> _]. done.
Qed.

(** An entry of a distribution is a probability. *)
Lemma wf_dist_entry D r k v : wf_dist D r -> r !! k = Some v -> 0 <= v <= 1.
Proof.
  intros (_ & Hnn & Hs) Hv. split.
  - by apply (proj1 (Forall_lookup _ _) Hnn k).
  - rewrite <-Hs. by apply (vsum_ge_lookup r k).
Qed.

Section Bars.
Context `{NpPowerLaws}.
Context {N : nat} {conn : list (list nat)} `{!WfTopology N conn}.
Variable D : nat.
Hypothesis HD : (2 <= D)%nat.
Hypothesis Hiso : forall i, (i < N)%nat -> conn !!! i <> [].

(** After a round from a well-formed state the bars read with the
    dominant decisions of before the update are probabilities. *)
Lemma observer_dz_round st domi :
  state_wf D N st -> dominant (deci_dist st) = Ok domi ->
  exists st' dz, round D conn N st = Ok st' /\ observer_dz N (deci_dist st') domi = Ok dz /\
    length dz = N /\ Forall (fun v => 0 <= v <= 1) dz.
Proof.
  intros Hst Hdom. pose proof Hst as (Hl & Hw & _).
  destruct (round_ok D HD Hiso st Hst) as (st' & Hr & Hl' & Hw' & _).
  apply res_mapM_Forall2 in Hdom.
  destruct (observer_dz_ok N (deci_dist st') domi) as (dz & Hdz & Hlen & Hv).
  { intros i Hi.
    destruct (lookup_lt_is_Some_2 (deci_dist st) i ltac:(lia)) as [r Hri].
    destruct (Forall2_lookup_l _ _ _ _ _ Hdom Hri) as (k & Hk & Ha).
    destruct (lookup_lt_is_Some_2 (deci_dist st') i ltac:(lia)) as [r' Hri'].
    apply np_argmax_lt in Ha. destruct (Hw i r Hri) as (HrD & _). destruct (Hw' i r' Hri') as (Hr'D & _).
    destruct (lookup_lt_is_Some_2 r' k ltac:(lia)) as [v Hv]. eauto 10. }
  exists st', dz. split_and!; [done|done|done|].
  apply Forall_lookup. intros i v Hi.
  destruct (Hv i v Hi) as (r & k & Hri & _ & Hk). eauto using wf_dist_entry.
Qed.

End Bars.

(** C29: The bar of a node is not its top confidence: in the scenario of
    spec 8.7, node 2's dominant decision after the round is [1], with
    probability [b > 1/2], but line 373 reads its row at the decision [0]
    that was dominant before the update, and shows [a < 1/2]. *)
Theorem observer_dz_stale `{NpPowerLaws} :
  exists st' dz a b,
    round 2 spec87_conn 3 (mkState spec87_dist [0%nat; 0%nat; 0%nat]) = Ok st' /\
    observer_dz 3 (deci_dist st') [0%nat; 0%nat; 0%nat] = Ok dz /\
    dominant (deci_dist st') = Ok [0%nat; 0%nat; 1%nat] /\
    deci_dist st' !! 2%nat = Some [a; b] /\ dz !! 2%nat = Some a /\ a < 1 # 2 /\ 1 # 2 < b.
Proof.
  destruct round_spec87_run as (st' & Hr & _ & r0 & r1 & a & b & Hd & Hv0 & Hv1 & Ha & Hb).
  pose proof (veq_length _ _ Hv0) as L0. pose proof (veq_length _ _ Hv1) as L1.
  destruct r0 as [|x0 [|y0 [|]]]; simpl in L0; try lia.
  destruct r1 as [|x1 [|y1 [|]]]; simpl in L1; try lia.
  apply Forall2_cons in Hv0 as [Hx0 Hv0]. apply Forall2_cons in Hv0 as [Hy0 _].
  apply Forall2_cons in Hv1 as [Hx1 Hv1]. apply Forall2_cons in Hv1 as [Hy1 _].
  exists st', [x0; x1; a], a, b. rewrite Hd.
  split_and!; [exact Hr|reflexivity| |reflexivity|reflexivity|exact Ha|exact Hb].
  unfold dominant. simpl.
  destruct (Qlt_le_dec x0 y0); [lra|]. destruct (Qlt_le_dec x1 y1); [lra|].
  destruct (Qlt_le_dec a b); [done|lra].
Qed.

End ObserverFacts.

(** ** Witnesses *)

Module FrameWitnesses.
Import Dist Honeycomb Subgroup Update Round Frame FrameFacts ObserverFacts.
Local Open Scope Q_scope.

#[local] Instance frame_np_power : NpPower := fun r _ => r.
#[local] Instance frame_np_power_laws : NpPowerLaws.
Proof.
  split.
  - intros r r' Hr p p' Hp. exact Hr.
  - intros r p H0 H1 _. split; [exact H0|exact H1].
  - intros p _. reflexivity.
  - intros r p H0 _ _. exact H0.
Qed.

(** The connection matrix of the path 0-1-2. *)
Definition path_matrix : matrix := [[false; true; false]; [true; false; true]; [false; true; false]].

Lemma path_matrix_dims : mat_dims 3 path_matrix.
Proof. split; [done|]. intros a Ha. destruct a as [|[|[|a]]]; [done..|lia]. Qed.

Lemma draw_frame_lines_witness :
  exists cmds, draw_frame path_matrix 3 [[0%nat; 1%nat]; [2%nat]] = Ok cmds /\
    (forall a b w, Line connection_color a b w ∈ cmds <->
       w = 2%nat /\ (a < b)%nat /\ b ∈ connection_lists path_matrix 3 !!! a) /\
    (forall a b,
       (exists w, Line subgroup_color a b w ∈ cmds \/ Line subgroup_color b a w ∈ cmds) <->
       b ∈ connection_lists path_matrix 3 !!! a /\
       [0%nat; 0%nat; 1%nat] !!! a = [0%nat; 0%nat; 1%nat] !!! b).
Proof.
  apply (@draw_frame_lines 3 path_matrix path_matrix_dims
           (wf_topology_b_sound 3 (connection_lists path_matrix 3) ltac:(vm_compute; reflexivity))).
  - reflexivity.
  - vm_compute. reflexivity.
Defined.

Lemma observer_dz_stale_witness :
  exists st' dz a b,
    round 2 spec87_conn 3 (mkState spec87_dist [0%nat; 0%nat; 0%nat]) = Ok st' /\
    observer_dz 3 (deci_dist st') [0%nat; 0%nat; 0%nat] = Ok dz /\
    dominant (deci_dist st') = Ok [0%nat; 0%nat; 1%nat] /\
    deci_dist st' !! 2%nat = Some [a; b] /\ dz !! 2%nat = Some a /\ a < 1 # 2 /\ 1 # 2 < b.
Proof. apply observer_dz_stale. Defined.

End FrameWitnesses.
