(* ===== verification/Pass.v ===== *)
(** * A whole pass of the simulation loop (lines 188-388)

    [Round.loop_iteration] is the part of a pass that changes the
    simulation.  The pass of the code does more after the round: it
    redraws the pygame window (lines 349-370), gives matplotlib the bars
    [dz] (line 373), waits for the rest of its period (lines 378-385),
    resets [time_last] and prints the iteration count (line 387).  This
    file composes [Round] and [Frame] into that pass: [pass] returns the
    next pass state and, for a pass that is not paused, what it shows.
    The clock readings of [pygame.time.get_ticks] are an input of each
    pass.

    The theorems: the full passes refine the loop of [Round] (the output
    never raises and does not change the simulation: projected on the
    loop state, a run of passes is a run of [loop_step]); the iteration
    lines printed after a space key are ["iteration 0"], ["iteration 1"],
    ...; and when the clock honours [pygame.time.delay], successive
    resets of [time_last] are at least a period apart. *)

From stdpp Require Import relations strings pretty.
From S2P Require Import Prelude Topology Distribution Subgroup Update Round Frame.

Module Pass.
Import Honeycomb Dist Subgroup Update Round Frame.
Local Open Scope Q_scope.

(** What a pass that is not paused shows: the pygame drawing calls, the
    call [ax.bar3d] of line 374 (its fixed arguments and the heights
    [dz]), the delay it asks for and the line it prints. *)
Record output := mkOutput {
  out_frame : list draw_cmd;
  out_bars : bar_args;
  out_dz : list Q;
  out_delay : option Z;
  out_print : string
}.

(** The readings of [pygame.time.get_ticks()] at lines 379 and 385. *)
Record clock := mkClock { tick_now : Z; tick_after : Z }.

(** Line 387: [print "iteration {}".format(iter_count)]. *)
Definition iteration_line (k : nat) : string := "iteration " +:+ pretty k.

Section Pass.
Context `{NpPower}.
Variables (deci_num net_size : nat) (connections : matrix) (bars : bar_args).

(** The loop variables: [sim_exit], [sim_pause], [iter_count], the
    simulation state and [time_last]. *)
Record pass_state := mkPass { ps_loop : loop_state; time_last : Z }.

(** Lines 188-192, [ticks] being the reading of line 191. *)
Definition pass_init (st : sim_state) (ticks : Z) : pass_state := mkPass (loop_init st) ticks.

(** One pass of [while not sim_exit] (lines 196-388).  A paused pass
    [continue]s before the round and keeps [time_last].  Otherwise the
    round runs; [deci_domi] and [subgroups], which the round computes at
    lines 212 and 215-254 from the state before it, are what the drawing
    and the bars read. *)
Definition pass (events : list event) (c : clock) (ps : pass_state)
    : res (pass_state * option output) :=
  let ls := ps_loop ps in
  let fl := foldl handle_event (ls_flags ls) events in
  if sim_pause fl then Ok (mkPass (mkLoop fl (iter_count ls) (ls_sim ls)) (time_last ps), None)
  else
    let conn := connection_lists connections net_size in
    let! deci_domi := dominant (deci_dist (ls_sim ls)) in
    let! subgroups := detect_subgroups conn deci_domi net_size in
    let! st' := round deci_num conn net_size (ls_sim ls) in
    let! frame := draw_frame connections net_size subgroups in
    let! dz := observer_dz net_size (deci_dist st') deci_domi in
    let delay := pacing_delay (tick_now c) (time_last ps) in
    Ok (mkPass (mkLoop fl (S (iter_count ls)) st') (tick_after c),
        Some (mkOutput frame bars dz delay (iteration_line (iter_count ls)))).

(** The loop over the events and clock readings of successive passes,
    with the test [while not sim_exit] before each; the outputs of the
    passes that were not paused, in order. *)
Fixpoint run_passes (inputs : list (list event * clock)) (ps : pass_state)
    : res (pass_state * list output) :=
  match inputs with
  | [] => Ok (ps, [])
  | (events, c) :: rest =>
      if sim_exit (ls_flags (ps_loop ps)) then Ok (ps, [])
      else
        let! '(ps', o) := pass events c ps in
        let! '(ps'', outs) := run_passes rest ps' in
        Ok (ps'', option_list o ++ outs)
  end.

End Pass.

End Pass.

Module PassFacts.
Import Honeycomb HoneycombFacts Dist Subgroup Update Round RoundFacts Frame FrameFacts ObserverFacts Pass.
Local Open Scope Q_scope.

(** A round that succeeds has computed its dominant decisions and its
    subgroups. *)
Lemma round_Ok_inv `{NpPower} D conn N st st' :
  round D conn N st = Ok st' ->
  exists domi gs, dominant (deci_dist st) = Ok domi /\ detect_subgroups conn domi N = Ok gs.
Proof.
  unfold round. intros Hr.
  destruct (dominant (deci_dist st)) as [domi|] eqn:Hd; cbn [res_bind] in Hr; [|discriminate].
  destruct (detect_subgroups conn domi N) as [gs|] eqn:Hg; cbn [res_bind] in Hr; [eauto|discriminate].
Qed.

(** The pacing: the delay brings the time since [time_last] up to the
    period. *)
Lemma pacing_delay_cases now last :
  (now - last < time_period)%Z /\ pacing_delay now last = Some (time_period - (now - last))%Z \/
  (time_period <= now - last)%Z /\ pacing_delay now last = None.
Proof. unfold pacing_delay. destruct (Z.ltb_spec (now - last) time_period); [left|right]; auto. Qed.

(** A pass that showed something reset [time_last] to the reading after
    its delay, asked for the delay of the pacing and printed the
    iteration count. *)
Lemma pass_Some_inv `{NpPower} D N m bars events c ps ps' out :
  pass D N m bars events c ps = Ok (ps', Some out) ->
  time_last ps' = tick_after c /\ out_delay out = pacing_delay (tick_now c) (time_last ps) /\
  out_print out = iteration_line (iter_count (ps_loop ps)).
Proof.
  unfold pass. destruct (sim_pause _); [intros [=]|]. intros Hp. res_inv. auto.
Qed.

(** A pass with no event from the running flags stays running and counts
    one more iteration. *)
Lemma loop_iteration_running `{NpPower} D conn N ls ls' :
  ls_flags ls = mkFlags false false -> loop_iteration D conn N [] ls = Ok ls' ->
  ls_flags ls' = mkFlags false false /\ iter_count ls' = S (iter_count ls).
Proof. unfold loop_iteration. intros Hf. rewrite Hf. cbn. intros Hl. res_inv. auto. Qed.

Section Passes.
Context `{NpPowerLaws}.
Context {N : nat} {m : matrix}.
Hypothesis Hdims : mat_dims N m.
Context `{!WfTopology N (connection_lists m N)}.
Variable D : nat.
Hypothesis HD : (2 <= D)%nat.
Hypothesis Hiso : forall i, (i < N)%nat -> connection_lists m N !!! i <> [].
Variable bars : bar_args.

(** A pass from a well-formed state never raises; projected on the loop
    state it is [loop_iteration]; it shows something exactly when it is
    not paused, and then its bars are probabilities, its delay is the one
    of the pacing and its line the iteration count. *)
Lemma pass_ok events c ps :
  state_wf D N (ls_sim (ps_loop ps)) ->
  exists ps' o, pass D N m bars events c ps = Ok (ps', o) /\
    loop_iteration D (connection_lists m N) N events (ps_loop ps) = Ok (ps_loop ps') /\
    (o = None <-> sim_pause (foldl handle_event (ls_flags (ps_loop ps)) events) = true) /\
    forall out, o = Some out ->
      time_last ps' = tick_after c /\ out_delay out = pacing_delay (tick_now c) (time_last ps) /\
      out_print out = iteration_line (iter_count (ps_loop ps)) /\
      length (out_dz out) = N /\ Forall (fun v => 0 <= v <= 1) (out_dz out).
Proof.
  intros Hst. unfold pass, loop_iteration.
  destruct (sim_pause (foldl handle_event (ls_flags (ps_loop ps)) events)) eqn:Hp.
  { eexists _, None. split; [reflexivity|]. split; [reflexivity|].
    split; [tauto|discriminate]. }
  destruct (round_ok D HD Hiso _ Hst) as (st' & Hr & _).
  destruct (round_Ok_inv _ _ _ _ _ Hr) as (domi & gs & Hd & Hg).
  assert (Hdl : length domi = N).
  { destruct Hst as (Hl & _). apply res_mapM_Forall2 in Hd.
    by rewrite <-(Forall2_length _ _ _ Hd). }
  destruct (observer_dz_round D HD Hiso _ _ Hst Hd) as (st'' & dz & Hr' & Hdz & Hlen & Hb).
  rewrite Hr in Hr'. injection Hr' as <-.
  rewrite Hd. cbn [res_bind]. rewrite Hg. cbn [res_bind]. rewrite Hr. cbn [res_bind].
  rewrite (draw_frame_ok Hdims domi gs Hdl Hg). cbn [res_bind]. rewrite Hdz. cbn [res_bind].
  eexists _, (Some _). split; [reflexivity|]. split; [reflexivity|].
  split; [split; discriminate|]. intros out [= <-]. cbn. auto.
Qed.

(** A run of passes from a well-formed state never raises and follows
    [loop_step]. *)
Lemma run_passes_ok inputs ps :
  state_wf D N (ls_sim (ps_loop ps)) ->
  exists ps' outs, run_passes D N m bars inputs ps = Ok (ps', outs) /\
    rtc (loop_step D (connection_lists m N) N) (ps_loop ps) (ps_loop ps') /\
    state_wf D N (ls_sim (ps_loop ps')) /\
    Forall (fun o => length (out_dz o) = N /\ Forall (fun v => 0 <= v <= 1) (out_dz o)) outs.
Proof.
  revert ps. induction inputs as [|[evs c] rest IH]; intros ps Hst; simpl.
  { eexists _, []. split_and!; [reflexivity|constructor|exact Hst|constructor]. }
  destruct (sim_exit (ls_flags (ps_loop ps))) eqn:He.
  { eexists _, []. split_and!; [reflexivity|constructor|exact Hst|constructor]. }
  destruct (pass_ok evs c ps Hst) as (ps1 & o & Hp & Hit & _ & Ho).
  destruct (loop_iteration_ok D HD Hiso evs (ps_loop ps) Hst) as (ls1 & Hit' & Hst1).
  rewrite Hit in Hit'. injection Hit' as <-.
  destruct (IH ps1 Hst1) as (ps2 & outs & Hr & Hrtc & Hst2 & Hf).
  rewrite Hp. cbn [res_bind]. rewrite Hr. cbn [res_bind].
  eexists _, _. split; [reflexivity|]. split_and!.
  - eapply rtc_l; [|exact Hrtc]. by apply (loop_step_intro _ _ _ evs).
  - exact Hst2.
  - apply Forall_app. split; [|exact Hf]. destruct o as [out|]; simpl; [|constructor].
    constructor; [|constructor]. destruct (Ho out eq_refl) as (_ & _ & _ & ? & ?). auto.
Qed.

(** C13: The full passes refine the loop of [Round]: from a well-formed
    state, a run of passes on any events and clock readings never raises
    (the drawing, the bars and the pacing included), its loop states
    follow [loop_step] and stay well formed, and every bar shown is a
    probability, one per node. *)
Theorem run_passes_refines inputs ps :
  state_wf D N (ls_sim (ps_loop ps)) ->
  exists ps' outs, run_passes D N m bars inputs ps = Ok (ps', outs) /\
    rtc (loop_step D (connection_lists m N) N) (ps_loop ps) (ps_loop ps') /\
    state_wf D N (ls_sim (ps_loop ps')) /\
    Forall (fun o => length (out_dz o) = N /\ Forall (fun v => 0 <= v <= 1) (out_dz o)) outs.
Proof. apply run_passes_ok. Qed.

(** Passes without events from the running flags print the iteration
    counts in a row. *)
Lemma run_passes_running cs ps :
  state_wf D N (ls_sim (ps_loop ps)) -> ls_flags (ps_loop ps) = mkFlags false false ->
  exists ps' outs, run_passes D N m bars (map (fun c => ([], c)) cs) ps = Ok (ps', outs) /\
    map out_print outs = map iteration_line (seq (iter_count (ps_loop ps)) (length cs)) /\
    iter_count (ps_loop ps') = (iter_count (ps_loop ps) + length cs)%nat.
Proof.
  revert ps. induction cs as [|c cs IH]; intros ps Hst Hfl; simpl.
  { eexists _, []. split_and!; [reflexivity|reflexivity|lia]. }
  rewrite Hfl. cbn [sim_exit].
  destruct (pass_ok [] c ps Hst) as (ps1 & o & Hp & Hit & Hnone & _).
  destruct o as [out|]; [|pose proof (proj1 Hnone eq_refl) as Hpause; by rewrite Hfl in Hpause].
  destruct (pass_Some_inv _ _ _ _ _ _ _ _ _ Hp) as (_ & _ & Hprint).
  destruct (loop_iteration_ok D HD Hiso [] (ps_loop ps) Hst) as (ls1 & Hit' & Hst1).
  rewrite Hit in Hit'. injection Hit' as <-.
  destruct (loop_iteration_running _ _ _ _ _ Hfl Hit) as (Hfl1 & Hc1).
  destruct (IH ps1 Hst1 Hfl1) as (ps2 & outs & Hr & Hprints & Hc2).
  rewrite Hp. cbn [res_bind]. rewrite Hr. cbn [res_bind].
  eexists _, _. split; [reflexivity|]. split.
  - simpl. rewrite Hprint, Hprints, Hc1. reflexivity.
  - rewrite Hc2, Hc1. lia.
Qed.

(** C30: After a space key the program prints its iteration count once
    per pass (line 387): from the paused start on a well-formed state, a
    first pass with the space key and [k] passes without events print
    ["iteration 0"], ..., ["iteration k"], and [iter_count] ends at
    [k + 1]. *)
Theorem run_passes_prints st0 t0 c0 cs :
  state_wf D N st0 ->
  exists ps' outs,
    run_passes D N m bars (([KEYUP K_SPACE], c0) :: map (fun c => ([], c)) cs) (pass_init st0 t0)
      = Ok (ps', outs) /\
    map out_print outs = map iteration_line (seq 0 (S (length cs))) /\
    iter_count (ps_loop ps') = S (length cs).
Proof.
  intros Hst. simpl.
  destruct (pass_ok [KEYUP K_SPACE] c0 (pass_init st0 t0) Hst) as (ps1 & o & Hp & Hit & Hnone & _).
  destruct o as [out|]; [|pose proof (proj1 Hnone eq_refl) as Hpause; discriminate Hpause].
  destruct (pass_Some_inv _ _ _ _ _ _ _ _ _ Hp) as (_ & _ & Hprint).
  destruct (loop_iteration_ok D HD Hiso [KEYUP K_SPACE] (ps_loop (pass_init st0 t0)) Hst) as (ls1 & Hit' & Hst1).
  rewrite Hit in Hit'. injection Hit' as <-.
  assert (Hfl1 : ls_flags (ps_loop ps1) = mkFlags false false /\ iter_count (ps_loop ps1) = 1%nat).
  { revert Hit. unfold loop_iteration. cbn. intros Hl. res_inv. by rewrite <-Hl. }
  destruct Hfl1 as [Hfl1 Hc1].
  destruct (run_passes_running cs ps1 Hst1 Hfl1) as (ps2 & outs & Hr & Hprints & Hc2).
  rewrite Hp. cbn [res_bind]. rewrite Hr. cbn [res_bind].
  eexists _, _. split; [reflexivity|]. split.
  - simpl. rewrite Hprint, Hprints, Hc1. reflexivity.
  - rewrite Hc2, Hc1. lia.
Qed.

End Passes.

(** C31: The frame pacing of lines 378-385: when the clock honours the
    delay asked for (the reading after it is at least the reading before
    plus the delay), a pass that ran the simulation resets [time_last] at
    least a period (500 ms) after its previous value. *)
Theorem pass_period `{NpPower} D N m bars events c ps ps' out :
  pass D N m bars events c ps = Ok (ps', Some out) ->
  (tick_now c + default 0 (out_delay out) <= tick_after c)%Z ->
  (time_last ps + time_period <= time_last ps')%Z.
Proof.
  intros Hp Hclock. destruct (pass_Some_inv _ _ _ _ _ _ _ _ _ Hp) as (-> & Hd & _).
  rewrite Hd in Hclock.
  destruct (pacing_delay_cases (tick_now c) (time_last ps)) as [[Hlt Hs]|[Hge Hs]];
    rewrite Hs in Hclock; simpl in Hclock; lia.
Qed.

End PassFacts.

Module PassWitnesses.
Import Honeycomb Dist Update Round RoundFacts Frame FrameWitnesses Pass PassFacts.
Local Open Scope Q_scope.

(** [r ** 1], an instance of the laws for concrete runs. *)
#[local] Instance pass_np_power : NpPower := fun r _ => r.
#[local] Instance pass_np_power_laws : NpPowerLaws.
Proof.
  split.
  - intros r r' Hr p p' Hp. exact Hr.
  - intros r p H0 H1 _. split; [exact H0|exact H1].
  - intros p _. reflexivity.
  - intros r p H0 _ _. exact H0.
Qed.

(** The path 0-1-2 of [path_matrix] with the rows of spec 8.7, paused at
    the clock reading [0]. *)
Definition spec87_start : pass_state := pass_init (mkState spec87_dist [0%nat; 0%nat; 0%nat]) 0.

(** The bar graph of three positions in a row. *)
Definition path_bars : bar_args := bar_setup [(0, 0)%Z; (1, 0)%Z; (2, 0)%Z] 3.

(** The first pass after a space key at the readings 100 and 600. *)
Definition spec87_first_pass := Eval vm_compute in
  pass 2 3 path_matrix path_bars [KEYUP K_SPACE] (mkClock 100 600) spec87_start.

Lemma path_matrix_iso : forall i, (i < 3)%nat -> connection_lists path_matrix 3 !!! i <> [].
Proof. intros i Hi. destruct i as [|[|[|i]]]; [vm_compute; discriminate..|lia]. Qed.

Lemma spec87_start_wf : state_wf 2 3 (ls_sim (ps_loop spec87_start)).
Proof. apply state_wf_b_sound. vm_compute. reflexivity. Qed.

Lemma run_passes_refines_witness :
  exists ps' outs,
    run_passes 2 3 path_matrix path_bars [([KEYUP K_SPACE], mkClock 100 600); ([QUIT], mkClock 700 800)]
      spec87_start = Ok (ps', outs) /\
    rtc (loop_step 2 (connection_lists path_matrix 3) 3) (ps_loop spec87_start) (ps_loop ps') /\
    state_wf 2 3 (ls_sim (ps_loop ps')) /\
    Forall (fun o => length (out_dz o) = 3%nat /\ Forall (fun v => 0 <= v <= 1) (out_dz o)) outs.
Proof.
  apply (@run_passes_refines _ _ 3 path_matrix path_matrix_dims
           (wf_topology_b_sound 3 (connection_lists path_matrix 3) ltac:(vm_compute; reflexivity)) 2).
  - lia.
  - exact path_matrix_iso.
  - exact spec87_start_wf.
Defined.

Lemma run_passes_prints_witness :
  exists ps' outs,
    run_passes 2 3 path_matrix path_bars
      (([KEYUP K_SPACE], mkClock 100 600) :: map (fun c => ([], c)) [mkClock 700 800; mkClock 900 1000])
      (pass_init (mkState spec87_dist [0%nat; 0%nat; 0%nat]) 0) = Ok (ps', outs) /\
    map out_print outs = map iteration_line (seq 0 3) /\ iter_count (ps_loop ps') = 3%nat.
Proof.
  apply (@run_passes_prints _ _ 3 path_matrix path_matrix_dims
           (wf_topology_b_sound 3 (connection_lists path_matrix 3) ltac:(vm_compute; reflexivity)) 2).
  - lia.
  - exact path_matrix_iso.
  - exact spec87_start_wf.
Defined.

Lemma pass_period_witness :
  exists ps' out,
    pass 2 3 path_matrix path_bars [KEYUP K_SPACE] (mkClock 100 600) spec87_start = Ok (ps', Some out) /\
    (time_last spec87_start + time_period <= time_last ps')%Z.
Proof.
  assert (E : pass 2 3 path_matrix path_bars [KEYUP K_SPACE] (mkClock 100 600) spec87_start = spec87_first_pass)
    by (vm_compute; reflexivity).
  unfold spec87_first_pass in E. eexists _, _. split; [exact E|].
  apply (pass_period 2 3 path_matrix path_bars _ _ _ _ _ E). vm_compute. discriminate.
Defined.

End PassWitnesses.
