(* ===== verification/Setup.v ===== *)
(** * The preparation of the simulation (lines 40-183) and the program

    Before its loop the program runs, in order: the options (lines 40-70),
    the network file (lines 72-79), the connection matrix and the
    neighbour lists (lines 81-100), the display geometry (lines 106-108
    and 127-129, where it can raise), the first drawing (lines 132-141), the
    random matrix of line 146, its normalisation, the first dominant
    decisions (line 152), the zero subgroup sizes (line 155) and the
    arguments of the bar graph (lines 178-182).  [program] then runs the
    loop of [Pass] from that state: it is the whole script.
    [program_setup] composes the models of these steps ([Input],
    [Topology], [Frame], [Round.init_state]) in that order; the random
    values are those of a generator [rand], the file system is given by
    [isfile] and [files].

    The theorems: the initial state is well formed; with [-d 0] or a
    negative count the preparation raises ValueError (numpy's [rand] or
    [argmax]); and the whole program composes: from a command line naming
    a network file written as ["x y\n"] lines and a count of at least two
    decisions, the preparation succeeds with a well-formed topology and
    state, and every number of rounds from there succeeds when no node is
    isolated. *)

From Stdlib Require Import Ascii.
From stdpp Require Import relations strings pretty.
From S2P Require Import Prelude Input Topology Distribution Subgroup Update Round Frame Pass.

Module Setup.
Import Input Honeycomb Dist Update Round Frame Pass.
Local Open Scope Q_scope.

(** Line 146: [np.random.rand(net_size, deci_num)], the value at [(i, j)]
    being [rand i j]; a negative dimension raises ValueError. *)
Definition np_random_rand (rand : nat -> nat -> Q) (net_size deci_num : Z) : res (list dist) :=
  if (net_size <? 0)%Z || (deci_num <? 0)%Z then Err ValueError
  else Ok (map (fun i => map (rand i) (seq 0 (Z.to_nat deci_num))) (seq 0 (Z.to_nat net_size))).

(** What the preparation leaves for the loop. *)
Record prepared := mkPrepared {
  p_config : config;
  p_nodes : list pos;
  p_connections : matrix;
  p_conn : list (list nat);
  p_first_frame : list draw_cmd;
  p_state : sim_state;
  p_bars : bar_args
}.

Section Program.
(** [os.path.isfile], the contents [open(...).read()] would give
    ([None]: the file does not exist), and the random generator. *)
Variable isfile : string -> bool.
Variable files : string -> option string.
Variable rand : nat -> nat -> Q.

(** Line 73: [open(net_filepath, 'r')]. *)
Definition open_file (name : string) : res string :=
  match files name with
  | Some content => Ok content
  | None => Err IOError
  end.

(** Lines 40-155, from the result of [getopt]. *)
Definition program_setup (getopt_result : option (list (string * string))) : res prepared :=
  let! cfg := read_options isfile getopt_result in
  let! content := open_file (net_filename cfg) in
  let! nodes := read_nodes content in
  let N := Z.to_nat (net_size cfg) in
  let! connections := build_connections nodes N in
  let conn := connection_lists connections N in
  let! _ := world_bounds nodes in
  let! _ := nodes_disp nodes N in
  let! frame := draw_initial connections N in
  let! raw := np_random_rand rand (net_size cfg) (deci_num cfg) in
  let! st := init_state N raw in
  let bars := bar_setup nodes N in
  Ok (mkPrepared cfg nodes connections conn frame st bars).

(** The whole script: the preparation, then the loop from the reading
    [ticks] of line 191, on the events and clock readings of each pass. *)
Definition program `{NpPower} (getopt_result : option (list (string * string))) (ticks : Z)
    (inputs : list (list event * clock)) : res (prepared * pass_state * list output) :=
  let! pr := program_setup getopt_result in
  let N := Z.to_nat (net_size (p_config pr)) in
  let D := Z.to_nat (deci_num (p_config pr)) in
  let! '(ps, outs) := run_passes D N (p_connections pr) (p_bars pr) inputs
                        (pass_init (p_state pr) ticks) in
  Ok (pr, ps, outs).

End Program.

End Setup.

Module SetupFacts.
Import Input InputFacts Honeycomb HoneycombFacts Dist DistFacts Update Round RoundFacts Frame FrameFacts Pass PassFacts Setup.
Local Open Scope Q_scope.

(** ** The random matrix and the first state *)

Lemma np_random_rand_ok rand n d :
  (0 <= n)%Z -> (0 <= d)%Z ->
  np_random_rand rand n d
  = Ok (map (fun i => map (rand i) (seq 0 (Z.to_nat d))) (seq 0 (Z.to_nat n))).
Proof. intros Hn Hd. unfold np_random_rand. by rewrite (proj2 (Z.ltb_ge _ _) Hn), (proj2 (Z.ltb_ge _ _) Hd). Qed.

(** A row of positive values is non-negative and has a positive sum. *)
Lemma positive_row (rand : nat -> nat -> Q) i D :
  (1 <= D)%nat -> (forall j, 0 < rand i j) ->
  let r := map (rand i) (seq 0 D) in
  length r = D /\ Forall (Qle 0) r /\ 0 < vsum r.
Proof.
  intros HD Hr r. split; [unfold r; by rewrite length_map, length_seq|]. split.
  { apply Forall_forall. intros x Hx. apply list_elem_of_fmap in Hx as (j & -> & _).
    pose proof (Hr j). lra. }
  apply (Qlt_le_trans _ (rand i 0%nat)); [apply Hr|]. apply (vsum_ge_lookup r 0).
  - apply Forall_forall. intros x Hx. apply list_elem_of_fmap in Hx as (j & -> & _).
    pose proof (Hr j). lra.
  - unfold r. rewrite list_lookup_fmap, lookup_seq_lt by lia. done.
Qed.

(** Lines 147-155 on rows of length [D >= 1], non-negative and of positive
    sum: each row is divided by its sum, the dominant decisions exist,
    and the sizes start at zero. *)
Lemma init_state_ok N D raw :
  (1 <= D)%nat -> length raw = N ->
  (forall r, r ∈ raw -> length r = D /\ Forall (Qle 0) r /\ 0 < vsum r) ->
  exists st, init_state N raw = Ok st /\ state_wf D N st /\
    deci_dist st = map (fun r => vdiv r (vsum r)) raw /\ subsizes st = replicate N 0%nat.
Proof.
  intros HD Hlen Hraw.
  assert (Hn : res_mapM normalize raw = Ok (map (fun r => vdiv r (vsum r)) raw)).
  { apply res_mapM_map. intros r Hr. destruct (Hraw r Hr) as (_ & ? & ?). by apply normalize_wf. }
  assert (Hwf : forall j r, map (fun r => vdiv r (vsum r)) raw !! j = Some r -> wf_dist D r).
  { intros j r Hj. rewrite list_lookup_fmap in Hj.
    destruct (raw !! j) as [r0|] eqn:E; simplify_eq/=.
    destruct (Hraw r0 (list_elem_of_lookup_2 _ _ _ E)) as (<- & ? & ?). by apply normalize_wf. }
  destruct (res_mapM_ok np_argmax (fun _ _ => True) (map (fun r => vdiv r (vsum r)) raw))
    as (domi & Hdomi & _).
  { intros r Hr. apply list_elem_of_lookup_1 in Hr as (j & Hj).
    destruct (Hwf j r Hj) as (Hl & _). destruct (np_argmax_ok r) as (k & Hk).
    { intros ->. simpl in Hl. lia. }
    eauto. }
  eexists. unfold init_state. rewrite Hn. cbn. unfold dominant. rewrite Hdomi. cbn.
  split; [done|]. split; [|done].
  split; [rewrite <-Hlen; apply length_map|]. split; [exact Hwf|]. apply length_replicate.
Qed.

(** Every row of the random matrix of a positive generator has length [D],
    no negative value and a positive sum. *)
Lemma random_rows (rand : nat -> nat -> Q) N D :
  (1 <= D)%nat -> (forall i j, 0 < rand i j) ->
  forall r, r ∈ map (fun i => map (rand i) (seq 0 D)) (seq 0 N) ->
  length r = D /\ Forall (Qle 0) r /\ 0 < vsum r.
Proof.
  intros HD Hr r Hin. apply list_elem_of_fmap in Hin as (i & -> & _).
  exact (positive_row rand i D HD (Hr i)).
Qed.

Lemma nodes_disp_ok nodes N : (N <= length nodes)%nat -> nodes_disp nodes N = Ok (seq 0 N).
Proof.
  intros HN. unfold nodes_disp. rewrite <-(map_id (seq 0 N)) at 2.
  apply res_mapM_map. intros i Hi. apply elem_of_seq in Hi.
  destruct (lookup_lt_is_Some_2 nodes i) as (p & Hp); [lia|].
  by rewrite (proj2 (py_get_Ok _ _ _) Hp).
Qed.

(** C15: Lines 146-155 from [np.random.rand]: with [net_size >= 0], at
    least one decision and a generator of positive values, the first
    state is well formed, its sizes are zero and each probability is the
    random value divided by the sum of its row. *)
Theorem init_random_wf (rand : nat -> nat -> Q) n d :
  (0 <= n)%Z -> (1 <= d)%Z -> (forall i j, 0 < rand i j) ->
  exists st, (let! raw := np_random_rand rand n d in init_state (Z.to_nat n) raw) = Ok st /\
    state_wf (Z.to_nat d) (Z.to_nat n) st /\ subsizes st = replicate (Z.to_nat n) 0%nat /\
    forall i j, (i < Z.to_nat n)%nat -> (j < Z.to_nat d)%nat ->
      deci_dist st !! i ≫= (.!! j) = Some (rand i j / vsum (map (rand i) (seq 0 (Z.to_nat d)))).
Proof.
  intros Hn Hd Hr. rewrite np_random_rand_ok by lia. cbn [res_bind].
  destruct (init_state_ok (Z.to_nat n) (Z.to_nat d) _ ltac:(lia) ltac:(by rewrite length_map, length_seq)
              (random_rows rand (Z.to_nat n) (Z.to_nat d) ltac:(lia) Hr)) as (st & Hi & Hw & Hdd & Hs).
  exists st. split; [exact Hi|]. split; [exact Hw|]. split; [exact Hs|].
  intros i j Hi' Hj. rewrite Hdd, !list_lookup_fmap, lookup_seq_lt by lia. simpl.
  by rewrite lookup_vdiv, list_lookup_fmap, lookup_seq_lt by lia.
Qed.

(** C27: [-d 0] or a negative [-d] never reaches the loop: with at least
    one node, [np.random.rand] raises ValueError on a negative dimension
    and, with no decision, [np.argmax] of line 152 raises ValueError on the
    empty rows. *)
Theorem init_no_decisions (rand : nat -> nat -> Q) (N : nat) d :
  (1 <= N)%nat -> (d <= 0)%Z ->
  (let! raw := np_random_rand rand (Z.of_nat N) d in init_state N raw) = Err ValueError.
Proof.
  intros HN Hd. unfold np_random_rand. rewrite (proj2 (Z.ltb_ge (Z.of_nat N) 0)) by lia.
  destruct (Z.ltb_spec d 0); [reflexivity|]. cbn [orb res_bind].
  replace (Z.to_nat d) with 0%nat by lia. rewrite Nat2Z.id. unfold init_state.
  rewrite (res_mapM_map normalize (fun r => r)).
  2: { intros r Hr. by apply list_elem_of_fmap in Hr as (i & -> & _). }
  destruct N as [|N']; [lia|]. reflexivity.
Qed.

(** The preparation from [-f str(n)-rest -d str(d)] and a network file
    in the ["x y\n"] format with at least [n] positions. *)
Lemma program_setup_ok (isfile : string -> bool) (files : string -> option string)
    (rand : nat -> nat -> Q) (ps : list pos) (n d : Z) rest :
  (1 <= n)%Z -> (2 <= d)%Z -> (Z.to_nat n <= length ps)%nat ->
  isfile (pretty n +:+ String "-"%char rest) = true ->
  files (pretty n +:+ String "-"%char rest) = Some (format_nodes ps) ->
  (forall i j, 0 < rand i j) ->
  exists pr,
    program_setup isfile files rand (Some [("-f", pretty n +:+ String "-"%char rest); ("-d", pretty d)])
      = Ok pr /\
    p_nodes pr = ps /\ WfTopology (Z.to_nat n) (p_conn pr) /\
    state_wf (Z.to_nat d) (Z.to_nat n) (p_state pr) /\
    mat_dims (Z.to_nat n) (p_connections pr) /\
    p_conn pr = connection_lists (p_connections pr) (Z.to_nat n) /\
    p_config pr = mkConfig n (pretty n +:+ String "-"%char rest) d.
Proof.
  intros Hn Hd Hps Hisf Hfile Hr. unfold program_setup, read_options, process_options.
  cbn [res_foldl]. rewrite process_opt_size by (lia || exact Hisf). cbn [res_foldl res_bind].
  rewrite process_opt_decisions. cbn [res_foldl res_bind net_filename net_size deci_num].
  unfold open_file. rewrite Hfile. cbn [res_bind]. rewrite read_nodes_roundtrip. cbn [res_bind].
  destruct (connections_entries ps (Z.to_nat n) Hps) as (m & Hb & Hdims & _).
  pose proof (connection_lists_topology ps (Z.to_nat n) m Hps Hb) as Htop.
  rewrite Hb. cbn [res_bind]. destruct ps as [|p ps']; [simpl in Hps; lia|].
  cbn [world_bounds res_bind]. rewrite nodes_disp_ok by exact Hps. cbn [res_bind].
  unfold draw_initial. rewrite (connection_lines_ok Hdims). cbn [res_bind].
  rewrite np_random_rand_ok by lia. cbn [res_bind].
  destruct (init_state_ok (Z.to_nat n) (Z.to_nat d) _ ltac:(lia) ltac:(by rewrite length_map, length_seq)
              (random_rows rand (Z.to_nat n) (Z.to_nat d) ltac:(lia) Hr)) as (st & Hi & Hw & _).
  rewrite Hi. cbn [res_bind]. eexists. split; [reflexivity|].
  cbn [p_nodes p_conn p_state p_connections p_config].
  split_and!; [reflexivity|exact Htop|exact Hw|exact Hdims|reflexivity|reflexivity].
Qed.

(** C3: The whole program composes (lines 40-388).  From the command
    line [-f str(n)-rest -d str(d)] with [n >= 1] naming an existing
    network file written as ["x y\n"] lines with at least [n] positions,
    [d >= 2] and a generator of positive values, the preparation succeeds:
    the nodes are those of the file, the neighbour lists form a
    well-formed topology over [n] nodes and the first state is well
    formed over [d] decisions.  When no node is isolated, the loop then
    runs on any events and clock readings without raising, its states
    are those of [loop_step] from the paused start and stay well formed. *)
Theorem program_runs `{NpPowerLaws} (isfile : string -> bool) (files : string -> option string)
    (rand : nat -> nat -> Q) (ps : list pos) (n d : Z) rest ticks inputs :
  (1 <= n)%Z -> (2 <= d)%Z -> (Z.to_nat n <= length ps)%nat ->
  isfile (pretty n +:+ String "-"%char rest) = true ->
  files (pretty n +:+ String "-"%char rest) = Some (format_nodes ps) ->
  (forall i j, 0 < rand i j) ->
  exists pr,
    program_setup isfile files rand (Some [("-f", pretty n +:+ String "-"%char rest); ("-d", pretty d)])
      = Ok pr /\
    p_nodes pr = ps /\ WfTopology (Z.to_nat n) (p_conn pr) /\
    state_wf (Z.to_nat d) (Z.to_nat n) (p_state pr) /\
    ((forall i, (i < Z.to_nat n)%nat -> p_conn pr !!! i <> []) ->
     exists ps' outs,
       program isfile files rand (Some [("-f", pretty n +:+ String "-"%char rest); ("-d", pretty d)])
         ticks inputs = Ok (pr, ps', outs) /\
       rtc (loop_step (Z.to_nat d) (p_conn pr) (Z.to_nat n)) (loop_init (p_state pr)) (ps_loop ps') /\
       state_wf (Z.to_nat d) (Z.to_nat n) (ls_sim (ps_loop ps'))).
Proof.
  intros Hn Hd Hps Hisf Hfile Hr.
  destruct (program_setup_ok isfile files rand ps n d rest Hn Hd Hps Hisf Hfile Hr)
    as (pr & Hpr & Hnodes & Htop & Hw & Hdims & Hconn & Hcfg).
  exists pr. split_and!; [exact Hpr|exact Hnodes|exact Htop|exact Hw|]. intros Hiso.
  unfold program. rewrite Hpr. cbn [res_bind]. rewrite Hcfg. cbn [net_size deci_num].
  rewrite Hconn in Htop, Hiso |- *.
  destruct (run_passes_ok Hdims (Z.to_nat d) ltac:(lia) Hiso (p_bars pr) inputs
              (pass_init (p_state pr) ticks) Hw) as (ps' & outs & Hrun & Hrtc & Hw' & _).
  rewrite Hrun. cbn [res_bind]. exists ps', outs. split_and!; [reflexivity|exact Hrtc|exact Hw'].
Qed.

(** C37: An empty network file never reaches the simulation: whatever
    the options, when the file they name is empty the preparation raises
    (IndexError in the connection loop for two nodes or more, otherwise
    ValueError in [np.amin] over no position, line 107). *)
Theorem program_setup_empty_file isfile files (rand : nat -> nat -> Q) opts cfg :
  read_options isfile opts = Ok cfg -> files (net_filename cfg) = Some EmptyString ->
  exists e, program_setup isfile files rand opts = Err e.
Proof.
  intros Hopts Hfile. unfold program_setup. rewrite Hopts. cbn [res_bind].
  unfold open_file. rewrite Hfile. cbn [res_bind].
  replace (read_nodes EmptyString) with (Ok (@nil pos)) by reflexivity. cbn [res_bind].
  destruct (build_connections [] (Z.to_nat (net_size cfg))); cbn [res_bind world_bounds]; eauto.
Qed.

End SetupFacts.

Module SetupWitnesses.
Import Input Honeycomb Dist Update Round Frame Pass Setup SetupFacts.
Local Open Scope Q_scope.

(** [r ** 1], an instance of the laws for concrete runs. *)
#[local] Instance setup_np_power : NpPower := fun r _ => r.
#[local] Instance setup_np_power_laws : NpPowerLaws.
Proof.
  split.
  - intros r r' Hr p p' Hp. exact Hr.
  - intros r p H0 H1 _. split; [exact H0|exact H1].
  - intros p _. reflexivity.
  - intros r p H0 _ _. exact H0.
Qed.

(** Two nodes side by side, in the file ["2-1"]. *)
Definition pair_nodes : list pos := [(0, 0)%Z; (1, 0)%Z].
Definition pair_name : string := pretty 2%Z +:+ String "-"%char "1".

Lemma init_random_wf_witness :
  exists st, (let! raw := np_random_rand (fun _ _ => 1) 2 3 in init_state 2 raw) = Ok st /\
    state_wf 3 2 st /\ subsizes st = replicate 2 0%nat /\
    forall i j, (i < 2)%nat -> (j < 3)%nat ->
      deci_dist st !! i ≫= (.!! j) = Some (1 / vsum (map (fun _ => 1) (seq 0 3))).
Proof. apply (init_random_wf (fun _ _ => 1) 2 3); [lia|lia|intros; reflexivity]. Defined.

Lemma init_no_decisions_witness :
  (let! raw := np_random_rand (fun _ _ => 1) (Z.of_nat 3) 0 in init_state 3 raw) = Err ValueError.
Proof. apply (init_no_decisions (fun _ _ => 1) 3 0); lia. Defined.

Lemma program_runs_witness :
  exists pr,
    program_setup (fun _ => true) (fun _ => Some (format_nodes pair_nodes)) (fun _ _ => 1)
      (Some [("-f", pair_name); ("-d", pretty 2%Z)]) = Ok pr /\
    p_nodes pr = pair_nodes /\ WfTopology 2 (p_conn pr) /\ state_wf 2 2 (p_state pr) /\
    ((forall i, (i < 2)%nat -> p_conn pr !!! i <> []) ->
     exists ps' outs,
       program (fun _ => true) (fun _ => Some (format_nodes pair_nodes)) (fun _ _ => 1)
         (Some [("-f", pair_name); ("-d", pretty 2%Z)]) 0
         [([KEYUP K_SPACE], mkClock 100 600); ([], mkClock 700 800); ([QUIT], mkClock 900 1000)]
         = Ok (pr, ps', outs) /\
       rtc (loop_step 2 (p_conn pr) 2) (loop_init (p_state pr)) (ps_loop ps') /\
       state_wf 2 2 (ls_sim (ps_loop ps'))).
Proof.
  apply (program_runs (fun _ => true) (fun _ => Some (format_nodes pair_nodes)) (fun _ _ => 1)
           pair_nodes 2 2 "1"); [lia|lia|simpl; lia|reflexivity|reflexivity|intros; reflexivity].
Defined.

Lemma program_setup_empty_file_witness :
  exists e, program_setup (fun _ => true) (fun _ => Some EmptyString) (fun _ _ => 1) (Some []) = Err e.
Proof. apply (program_setup_empty_file _ _ _ (Some []) default_config); reflexivity. Defined.

End SetupWitnesses.
